(** * SessionContext: kernel selection and session lifecycle

    A shallow embedding of [packages/apputils/src/sessioncontext.tsx]:
    the pure kernel-selection function [Private.getDefaultKernel] and the
    [SessionContext] class, whose asynchronous methods are written in a
    resumption monad over the private fields of the object. *)

From stdpp Require Import gmap strings list fin_maps.

Open Scope string_scope.
Open Scope list_scope.
Open Scope stdpp_scope.

(** ** JavaScript values used by the source *)

Module Js.

  (** Truthiness of a [string | undefined] value: [undefined] and the empty
      string are falsy. *)
Definition truthy (o : option string) : bool :=
    match o with
    | Some s => negb (String.eqb s "")
    | None => false
    end.

  (** [x === false] for an optional boolean field. *)
Definition is_false (o : option bool) : bool :=
    match o with
    | Some false => true
    | _ => false
    end.

  (** Truthiness of a [boolean | undefined] value. *)
Definition truthy_bool (o : option bool) : bool :=
    match o with
    | Some true => true
    | _ => false
    end.

  (** [a === b] where [a] is a string and [b] is [string | undefined]. *)
Definition seq_opt (a : string) (b : option string) : bool :=
    match b with
    | Some s => String.eqb a s
    | None => false
    end.

End Js.

(** ** Data model *)

Module ISessionContext.

(** [ISessionContext.IKernelPreference]: every field is optional. *)
Record IKernelPreference := {
  name : option string;
  language : option string;
  id : option string;
  shouldStart : option bool;
  canStart : option bool;
  shutdownOnDispose : option bool;
  autoStartDefault : option bool
}.

(** The preference [{}] the constructor uses when none is given. *)
Definition empty : IKernelPreference :=
  {| name := None; language := None; id := None; shouldStart := None;
     canStart := None; shutdownOnDispose := None; autoStartDefault := None |}.

End ISessionContext.

Module KernelSpec.

(** [KernelSpec.ISpecModel], restricted to the fields the file reads. *)
Record ISpecModel := {
  display_name : string;
  language : string
}.

(** [KernelSpec.ISpecModels]: the default kernel name and the specs keyed
    by name. *)
Record ISpecModels := {
  default : string;
  kernelspecs : gmap string ISpecModel
}.

End KernelSpec.

(** ** Objects supplied by the services package *)

Module Kernel.

  (** [Partial<Kernel.IModel>]: how a kernel is designated when one is
      requested. *)
Record IModel := {
    id : option string;
    name : option string
  }.

End Kernel.

Module KernelConnection.

  (** What the file reads of a [Kernel.IKernelConnection].  [status] is a
      [Kernel.Status], a union of string literals. *)
Record t := {
    id : string;
    name : string;
    status : string
  }.

Definition set_status (st : string) (k : t) : t :=
    {| id := id k; name := name k; status := st |}.

End KernelConnection.

Module Session.

  (** [Session.IModel], extended with the kernel connection the session
      manager builds when it connects to the model. *)
Record IModel := {
    path : string;
    name : string;
    type : string;
    kernel : option KernelConnection.t
  }.

End Session.

Module SessionConnection.

  (** A [Session.ISessionConnection]: an object (identified by [obj]) whose
      properties are read through the reference held in [_session]. *)
Record t := {
    obj : nat;
    path : string;
    name : string;
    type : string;
    kernel : option KernelConnection.t
  }.

Definition of_model (o : nat) (m : Session.IModel) : t :=
    {| obj := o; path := Session.path m; name := Session.name m;
       type := Session.type m; kernel := Session.kernel m |}.

Definition set_path (v : string) (s : t) : t :=
    {| obj := obj s; path := v; name := name s; type := type s;
       kernel := kernel s |}.
Definition set_name (v : string) (s : t) : t :=
    {| obj := obj s; path := path s; name := v; type := type s;
       kernel := kernel s |}.
Definition set_type (v : string) (s : t) : t :=
    {| obj := obj s; path := path s; name := name s; type := v;
       kernel := kernel s |}.
Definition set_kernel (v : option KernelConnection.t) (s : t) : t :=
    {| obj := obj s; path := path s; name := name s; type := type s;
       kernel := v |}.

End SessionConnection.

(** Values thrown or used to reject a promise. *)
Inductive JsError :=
| Error (message : string)               (* [new Error(message)] *)
| Thrown (value : string)                (* [throw 'a string'] *)
| TypeError (message : string)           (* property access on null *)
| ResponseError (message text : string)  (* [ServerConnection.ResponseError] *)
| Undefined.                             (* rejection with [undefined] *)

(** ** Kernel selection *)

Module Private.

  (** The keys a [for (let specName in specs.kernelspecs)] loop visits. *)
Definition spec_names (specs : KernelSpec.ISpecModels) : list string :=
    (map_to_list (KernelSpec.kernelspecs specs)).*1.

  (** The first loop: look for an exact match of a spec name.  The loop
      returns from the function at the first key equal to [name]. *)
Fixpoint exact_match (keys : list string) (name : option string) : bool :=
    match keys with
    | [] => false
    | specName :: rest =>
        if Js.seq_opt specName name then true else exact_match rest name
    end.

  (** The second loop: collect the names whose language is [language]. *)
Fixpoint language_matches (entries : list (string * KernelSpec.ISpecModel))
      (language : string) : list string :=
    match entries with
    | [] => []
    | (specName, spec) :: rest =>
        if String.eqb language (KernelSpec.language spec)
        then specName :: language_matches rest language
        else language_matches rest language
    end.

Definition getDefaultKernel (specs : option KernelSpec.ISpecModels)
      (preference : ISessionContext.IKernelPreference) : option string :=
    let name := ISessionContext.name preference in
    let language := ISessionContext.language preference in
    let shouldStart := ISessionContext.shouldStart preference in
    let canStart := ISessionContext.canStart preference in
    let autoStartDefault := ISessionContext.autoStartDefault preference in
    match specs with
    | None => None
    | Some specs =>
        if Js.is_false shouldStart || Js.is_false canStart then None
        else
          let defaultName :=
            if Js.truthy_bool autoStartDefault
            then Some (KernelSpec.default specs) else None in
          if negb (Js.truthy name) && negb (Js.truthy language)
          then defaultName
          else if exact_match (spec_names specs) name then name
          else if negb (Js.truthy language) then defaultName
          else
            match language with
            | None => defaultName
            | Some language =>
                match language_matches
                        (map_to_list (KernelSpec.kernelspecs specs))
                        language with
                | [specName] => Some specName
                | _ => defaultName
                end
            end
    end.

  (** [SessionContext.IKernelSearch]: what a kernel selector is built
      from. *)
Record IKernelSearch := {
    specs : option KernelSpec.ISpecModels;
    preference : ISessionContext.IKernelPreference;
    sessions : list Session.IModel
  }.

  (** The properties that every object inherits from [Object.prototype]. *)
Definition Object_prototype : list string :=
    ["constructor"; "__defineGetter__"; "__defineSetter__";
     "hasOwnProperty"; "__lookupGetter__"; "__lookupSetter__";
     "isPrototypeOf"; "propertyIsEnumerable"; "toString"; "valueOf";
     "__proto__"; "toLocaleString"].

  (** [name in specs.kernelspecs]: an own key or an inherited property. *)
Definition has_property (specs : KernelSpec.ISpecModels) (name : string)
      : bool :=
    bool_decide (is_Some (KernelSpec.kernelspecs specs !! name))
    || bool_decide (name ∈ Object_prototype).

  (** The names of the preferred kernels: [name], if it is a property of
      the specs, then the other specs of the preferred language; the
      default kernel if there is none. *)
Definition preferred_names (specs : KernelSpec.ISpecModels)
      (name language : option string) : list string :=
    let names :=
      match name with
      | Some name =>
          if Js.truthy (Some name) && has_property specs name
          then [name] else []
      | None => []
      end ++
      match language with
      | Some language =>
          if Js.truthy (Some language)
          then filter (λ specName, Js.seq_opt specName name = false)
                 (language_matches
                    (map_to_list (KernelSpec.kernelspecs specs)) language)
          else []
      | None => []
      end in
    match names with
    | [] => [KernelSpec.default specs]
    | _ => names
    end.

  (** [names.sort((a, b) => displayNames[a].localeCompare(displayNames[b]))]
      throws when the comparison function is called with a first argument
      that has no display name.  With fewer than two names it is not
      called; otherwise the calls are the choice of the engine:
      [compares_first] tells whether a name without display name is passed
      as first argument. *)
Definition sort_throws (compares_first : bool)
      (specs : KernelSpec.ISpecModels) (names : list string) : bool :=
    match names with
    | _ :: _ :: _ =>
        compares_first &&
        bool_decide (Exists (λ a, KernelSpec.kernelspecs specs !! a = None)
                       names)
    | _ => false
    end.

  (** [populateKernelSelect(node, options)], as far as it can throw; the
      option elements it adds to [node] are not modelled.  It throws
      where it sorts the preferred names, and where it reads
      [session.kernel.name] or [session.kernel.id] of a running session
      whose kernel is null. *)
Definition populateKernelSelect (compares_first : bool)
      (options : IKernelSearch) : option JsError :=
    let name := ISessionContext.name (preference options) in
    let language := ISessionContext.language (preference options) in
    let canStart := ISessionContext.canStart (preference options) in
    match specs options with
    | None => None
    | Some specs =>
        if Js.is_false canStart then None
        else if sort_throws compares_first specs
                  (preferred_names specs name language)
        then Some (TypeError
                     "Cannot read property 'localeCompare' of undefined")
        else
          match List.find (λ session,
                  negb (bool_decide (is_Some (Session.kernel session))))
                  (sessions options) with
          | Some _ =>
              Some (TypeError
                      (if Js.truthy language
                       then "Cannot read property 'name' of null"
                       else "Cannot read property 'id' of null"))
          | None => None
          end
    end.

End Private.

(** The session properties that can change. *)
Inductive Property := Path | Name | Type_.

(** The signals of a session connection the context connects to. *)
Inductive Channel :=
| ChDisposed | ChPropertyChanged | ChKernelChanged | ChStatusChanged
| ChConnectionStatusChanged | ChIopubMessage | ChUnhandledMessage.

(** The two dialogs the class creates. *)
Inductive DialogKind :=
| SelectKernel (cancelable : bool)
| ErrorStartingKernel.

(** The promises of collaborators that the methods await. *)
Inductive Request :=
| ManagerReady                       (* [manager.ready] *)
| StartNew (path type name : string) (kernel : Kernel.IModel)
| SessionChangeKernel (session : nat) (options : Kernel.IModel)
| SessionShutdown (session : nat)
| DialogLaunch (dialog : nat)
| ShowRestartDialog
| KernelRestart (kernel : string)
| ResponseText
| ReadyPromise.                      (* [this._ready.promise] *)

(** The values promises resolve with. *)
Inductive Value :=
| VUndefined
| VBool (b : bool)
| VString (s : string)
| VKernel (k : option KernelConnection.t)
| VSession (m : Session.IModel)
| VResult (accept : bool) (value : option Kernel.IModel).

Inductive Response :=
| Resolved (v : Value)
| Rejected (e : JsError).

(** The signals of the context itself. *)
Inductive Emitted :=
| KernelChanged (oldValue newValue : option KernelConnection.t)
| SessionChanged
| StatusChanged (status : string)
| ConnectionStatusChanged (status : string)
| IopubMessage (msg : string)
| UnhandledMessage (msg : string)
| PropertyChanged (p : Property)
| Disposed
| Terminated.

(** What the context does to the objects around it, in order. *)
Inductive Effect :=
| Emit (s : Emitted)                      (* [signal.emit(..)] *)
| Connect (session : nat) (ch : Channel)  (* [session.ch.connect(..)] *)
| SessionDispose (session : nat)          (* [session.dispose()] *)
| ConnectTo (m : Session.IModel)          (* [manager.connectTo({model})] *)
| Called (q : Request)                    (* a call returning a promise *)
| NewDialog (dialog : nat) (k : DialogKind)
| DialogDispose (dialog : nat)
| SetBusy (lease : option nat)            (* [this._setBusy()] and its result *)
| LeaseDispose (lease : nat)              (* [_busyDisposable.dispose()] *)
| ReadyResolve                            (* [this._ready.resolve(..)] *)
| ConsoleError
| ClearData.                              (* [Signal.clearData(this)] *)

#[global] Instance JsError_eq_dec : EqDecision JsError.
Proof. solve_decision. Defined.
#[global] Instance Property_eq_dec : EqDecision Property.
Proof. solve_decision. Defined.
#[global] Instance Channel_eq_dec : EqDecision Channel.
Proof. solve_decision. Defined.
#[global] Instance DialogKind_eq_dec : EqDecision DialogKind.
Proof. solve_decision. Defined.
#[global] Instance Kernel_IModel_eq_dec : EqDecision Kernel.IModel.
Proof. solve_decision. Defined.
#[global] Instance KernelConnection_eq_dec : EqDecision KernelConnection.t.
Proof. solve_decision. Defined.
#[global] Instance Session_IModel_eq_dec : EqDecision Session.IModel.
Proof. solve_decision. Defined.
#[global] Instance Request_eq_dec : EqDecision Request.
Proof. solve_decision. Defined.
#[global] Instance Emitted_eq_dec : EqDecision Emitted.
Proof. solve_decision. Defined.
#[global] Instance Effect_eq_dec : EqDecision Effect.
Proof. solve_decision. Defined.

(** ** The state of the context and of its collaborators *)

(** The private fields of the [SessionContext] class.  [_ready] records
    whether the [PromiseDelegate] has been resolved; [_dialog] and
    [_busyDisposable] hold object identities.  [_setBusy] is the factory
    given as option, if one was: a function of the caller, which returns a
    disposable or [undefined]; it is described by which of its calls
    return a disposable. *)
Record SessionContext := {
  _path : string;
  _name : string;
  _type : string;
  _prevKernelName : option string;
  _kernelPreference : ISessionContext.IKernelPreference;
  _isDisposed : bool;
  _session : option SessionConnection.t;
  _ready : bool;
  _initializing : bool;
  _isReady : bool;
  _dialog : option nat;
  _setBusy : option (nat → bool);
  _busyDisposable : option nat
}.

(** What the context reads of the session manager, the specs manager and
    the kernel connections: the running sessions, whether [connectTo]
    throws, the kernel specs, the kernels already disposed, and the next
    free object identity; and of the engine: whether [Array.prototype.sort]
    passes a name without display name as first argument to the comparison
    function (see [Private.sort_throws]). *)
Record Services := {
  running : list Session.IModel;
  connectTo_throws : option JsError;
  specs : option KernelSpec.ISpecModels;
  disposed_kernels : list string;
  sort_compares_first : bool;
  next_obj : nat
}.

(** The whole state: the context [this], the services, the slots connected
    to session signals, and the effects so far (oldest first). *)
Record World := {
  this : SessionContext;
  services : Services;
  slots : list (nat * Channel);
  trace : list Effect
}.

Definition with_this (f : SessionContext → SessionContext) (w : World) : World :=
  {| this := f (this w); services := services w; slots := slots w;
     trace := trace w |}.
Definition with_services (f : Services → Services) (w : World) : World :=
  {| this := this w; services := f (services w); slots := slots w;
     trace := trace w |}.
Definition with_slots (f : list (nat * Channel) → list (nat * Channel))
    (w : World) : World :=
  {| this := this w; services := services w; slots := f (slots w);
     trace := trace w |}.
Definition with_trace (f : list Effect → list Effect) (w : World) : World :=
  {| this := this w; services := services w; slots := slots w;
     trace := f (trace w) |}.

Definition set_path (v : string) (c : SessionContext) : SessionContext :=
  {| _path := v; _name := _name c; _type := _type c;
     _prevKernelName := _prevKernelName c;
     _kernelPreference := _kernelPreference c; _isDisposed := _isDisposed c;
     _session := _session c; _ready := _ready c;
     _initializing := _initializing c; _isReady := _isReady c;
     _dialog := _dialog c; _setBusy := _setBusy c;
     _busyDisposable := _busyDisposable c |}.
Definition set_name (v : string) (c : SessionContext) : SessionContext :=
  {| _path := _path c; _name := v; _type := _type c;
     _prevKernelName := _prevKernelName c;
     _kernelPreference := _kernelPreference c; _isDisposed := _isDisposed c;
     _session := _session c; _ready := _ready c;
     _initializing := _initializing c; _isReady := _isReady c;
     _dialog := _dialog c; _setBusy := _setBusy c;
     _busyDisposable := _busyDisposable c |}.
Definition set_type (v : string) (c : SessionContext) : SessionContext :=
  {| _path := _path c; _name := _name c; _type := v;
     _prevKernelName := _prevKernelName c;
     _kernelPreference := _kernelPreference c; _isDisposed := _isDisposed c;
     _session := _session c; _ready := _ready c;
     _initializing := _initializing c; _isReady := _isReady c;
     _dialog := _dialog c; _setBusy := _setBusy c;
     _busyDisposable := _busyDisposable c |}.
Definition set_prevKernelName (v : option string) (c : SessionContext)
    : SessionContext :=
  {| _path := _path c; _name := _name c; _type := _type c;
     _prevKernelName := v;
     _kernelPreference := _kernelPreference c; _isDisposed := _isDisposed c;
     _session := _session c; _ready := _ready c;
     _initializing := _initializing c; _isReady := _isReady c;
     _dialog := _dialog c; _setBusy := _setBusy c;
     _busyDisposable := _busyDisposable c |}.
Definition set_kernelPreference (v : ISessionContext.IKernelPreference)
    (c : SessionContext) : SessionContext :=
  {| _path := _path c; _name := _name c; _type := _type c;
     _prevKernelName := _prevKernelName c;
     _kernelPreference := v; _isDisposed := _isDisposed c;
     _session := _session c; _ready := _ready c;
     _initializing := _initializing c; _isReady := _isReady c;
     _dialog := _dialog c; _setBusy := _setBusy c;
     _busyDisposable := _busyDisposable c |}.
Definition set_isDisposed (v : bool) (c : SessionContext) : SessionContext :=
  {| _path := _path c; _name := _name c; _type := _type c;
     _prevKernelName := _prevKernelName c;
     _kernelPreference := _kernelPreference c; _isDisposed := v;
     _session := _session c; _ready := _ready c;
     _initializing := _initializing c; _isReady := _isReady c;
     _dialog := _dialog c; _setBusy := _setBusy c;
     _busyDisposable := _busyDisposable c |}.
Definition set_session (v : option SessionConnection.t) (c : SessionContext)
    : SessionContext :=
  {| _path := _path c; _name := _name c; _type := _type c;
     _prevKernelName := _prevKernelName c;
     _kernelPreference := _kernelPreference c; _isDisposed := _isDisposed c;
     _session := v; _ready := _ready c;
     _initializing := _initializing c; _isReady := _isReady c;
     _dialog := _dialog c; _setBusy := _setBusy c;
     _busyDisposable := _busyDisposable c |}.
Definition set_ready (v : bool) (c : SessionContext) : SessionContext :=
  {| _path := _path c; _name := _name c; _type := _type c;
     _prevKernelName := _prevKernelName c;
     _kernelPreference := _kernelPreference c; _isDisposed := _isDisposed c;
     _session := _session c; _ready := v;
     _initializing := _initializing c; _isReady := _isReady c;
     _dialog := _dialog c; _setBusy := _setBusy c;
     _busyDisposable := _busyDisposable c |}.
Definition set_initializing (v : bool) (c : SessionContext) : SessionContext :=
  {| _path := _path c; _name := _name c; _type := _type c;
     _prevKernelName := _prevKernelName c;
     _kernelPreference := _kernelPreference c; _isDisposed := _isDisposed c;
     _session := _session c; _ready := _ready c;
     _initializing := v; _isReady := _isReady c;
     _dialog := _dialog c; _setBusy := _setBusy c;
     _busyDisposable := _busyDisposable c |}.
Definition set_isReady (v : bool) (c : SessionContext) : SessionContext :=
  {| _path := _path c; _name := _name c; _type := _type c;
     _prevKernelName := _prevKernelName c;
     _kernelPreference := _kernelPreference c; _isDisposed := _isDisposed c;
     _session := _session c; _ready := _ready c;
     _initializing := _initializing c; _isReady := v;
     _dialog := _dialog c; _setBusy := _setBusy c;
     _busyDisposable := _busyDisposable c |}.
Definition set_dialog (v : option nat) (c : SessionContext) : SessionContext :=
  {| _path := _path c; _name := _name c; _type := _type c;
     _prevKernelName := _prevKernelName c;
     _kernelPreference := _kernelPreference c; _isDisposed := _isDisposed c;
     _session := _session c; _ready := _ready c;
     _initializing := _initializing c; _isReady := _isReady c;
     _dialog := v; _setBusy := _setBusy c;
     _busyDisposable := _busyDisposable c |}.
Definition set_busyDisposable (v : option nat) (c : SessionContext)
    : SessionContext :=
  {| _path := _path c; _name := _name c; _type := _type c;
     _prevKernelName := _prevKernelName c;
     _kernelPreference := _kernelPreference c; _isDisposed := _isDisposed c;
     _session := _session c; _ready := _ready c;
     _initializing := _initializing c; _isReady := _isReady c;
     _dialog := _dialog c; _setBusy := _setBusy c;
     _busyDisposable := v |}.

Definition set_next_obj (v : nat) (e : Services) : Services :=
  {| running := running e; connectTo_throws := connectTo_throws e;
     specs := specs e; disposed_kernels := disposed_kernels e;
     sort_compares_first := sort_compares_first e;
     next_obj := v |}.

(** ** Asynchronous methods as resumptions

    An [async] method runs until its first [await], where it suspends on a
    request; it is resumed later, in whatever state the object is in by
    then, with the response.  A call whose promise is dropped ([void f()])
    leaves a detached resumption behind.  Awaiting a method of the class
    that ends without suspending is taken to continue at once: the turn
    of the job queue it costs is not modelled. *)

Inductive Step (A : Type) : Type :=
| Done (w : World) (r : A + JsError)
| Susp (w : World) (q : Request) (k : Response → World → Step A)
| Fork (q : Request) (k : Response → World → Step unit) (rest : Step A).

Arguments Done {A} w r.
Arguments Susp {A} w q k.
Arguments Fork {A} q k rest.

Definition Async (A : Type) : Type := World → Step A.

Fixpoint bindS {A B : Type} (st : Step A) (f : A → Async B) : Step B :=
  match st with
  | Done w (inl a) => f a w
  | Done w (inr e) => Done w (inr e)
  | Susp w q k => Susp w q (λ r w', bindS (k r w') f)
  | Fork q k rest => Fork q k (bindS rest f)
  end.

(** [try { m } catch (err) { h err }] *)
Fixpoint catchS {A : Type} (st : Step A) (h : JsError → Async A) : Step A :=
  match st with
  | Done w (inl a) => Done w (inl a)
  | Done w (inr e) => h e w
  | Susp w q k => Susp w q (λ r w', catchS (k r w') h)
  | Fork q k rest => Fork q k (catchS rest h)
  end.

(** [void m]: the call runs up to its first [await]; its promise is
    dropped. *)
Fixpoint voidS {A : Type} (st : Step A) : Step unit :=
  match st with
  | Done w _ => Done w (inl tt)
  | Susp w q k => Fork q (λ r w', voidS (k r w')) (Done w (inl tt))
  | Fork q k rest => Fork q k (voidS rest)
  end.

#[global] Instance Async_ret : MRet Async := λ A a w, Done w (inl a).
#[global] Instance Async_bind : MBind Async := λ A B f m w, bindS (m w) f.

Definition throw {A : Type} (e : JsError) : Async A := λ w, Done w (inr e).
Definition try_catch {A : Type} (m : Async A) (h : JsError → Async A)
    : Async A :=
  λ w, catchS (m w) h.
Definition void {A : Type} (m : Async A) : Async unit := λ w, voidS (m w).

Definition get : Async World := λ w, Done w (inl w).
Definition gets {A : Type} (f : SessionContext → A) : Async A :=
  λ w, Done w (inl (f (this w))).
Definition modify (f : World → World) : Async unit :=
  λ w, Done (f w) (inl tt).
Definition assign (f : SessionContext → SessionContext) : Async unit :=
  modify (with_this f).
Definition effect (e : Effect) : Async unit :=
  modify (with_trace (λ t, t ++ [e])).

(** [await q]: suspend until the promise settles; a rejection is thrown at
    the [await]. *)
Definition await (q : Request) : Async Value :=
  λ w, Susp w q (λ r w',
    match r with
    | Resolved v => Done w' (inl v)
    | Rejected e => Done w' (inr e)
    end).

(** A call that returns a promise, awaited at once. *)
Definition call (q : Request) : Async Value :=
  effect (Called q);; await q.

(** A new object: its identity is the next free one. *)
Definition new_obj : Async nat :=
  λ w, Done (with_services (set_next_obj (S (next_obj (services w)))) w)
            (inl (next_obj (services w))).

Definition when (b : bool) (m : Async unit) : Async unit :=
  if b then m else mret tt.

(** Reading the value a promise resolved with. *)
Definition as_session (v : Value) : Async Session.IModel :=
  match v with
  | VSession m => mret m
  | _ => throw (TypeError "not a session")
  end.
Definition as_kernel (v : Value) : Async (option KernelConnection.t) :=
  match v with
  | VKernel k => mret k
  | _ => throw (TypeError "not a kernel")
  end.
Definition as_result (v : Value) : Async (bool * option Kernel.IModel) :=
  match v with
  | VResult accept value => mret (accept, value)
  | _ => throw (TypeError "not a dialog result")
  end.

(** ** Collaborators *)

(** What a connection leaves connected when it is disposed: nothing of its
    own. *)
Definition drop_slots (o : nat) (l : list (nat * Channel))
    : list (nat * Channel) :=
  filter (λ c : nat * Channel, c.1 ≠ o) l.

(** Modelled from the spec: [dispose()] of a session connection, whose code
    is in the services package.  Detaching a connection unsubscribes from
    all of its channels, so that no notification is delivered from it
    afterwards. *)
Definition session_dispose (session : SessionConnection.t) : Async unit :=
  effect (SessionDispose (SessionConnection.obj session));;
  modify (with_slots (drop_slots (SessionConnection.obj session))).

(** [signal.connect(slot, this)]: a slot is connected at most once. *)
Definition add_slot (c : nat * Channel) (l : list (nat * Channel))
    : list (nat * Channel) :=
  if bool_decide (c ∈ l) then l else l ++ [c].

Definition connect (session : SessionConnection.t) (ch : Channel)
    : Async unit :=
  effect (Connect (SessionConnection.obj session) ch);;
  modify (with_slots (add_slot (SessionConnection.obj session, ch))).

(** [Signal.clearData(this)]: every connection with the context as sender
    or receiver is removed. *)
Definition clearData : Async unit :=
  effect ClearData;;
  modify (with_slots (λ _, [])).

(** [manager.connectTo({ model })]: synchronous; it returns a new
    connection object or throws. *)
Definition connectTo (model : Session.IModel) : Async SessionConnection.t :=
  effect (ConnectTo model);;
  w ← get;
  match connectTo_throws (services w) with
  | Some err => throw err
  | None => o ← new_obj; mret (SessionConnection.of_model o model)
  end.

(** ** The class [SessionContext] *)

(** The constructor; [uuid] stands for [UUID.uuid4()]. *)
Definition new_SessionContext (path name type : option string)
    (kernelPreference : option ISessionContext.IKernelPreference)
    (setBusy : option (nat → bool)) (uuid : string) : SessionContext :=
  {| _path := default uuid path;
     _name := default "" name;
     _type := default "" type;
     _prevKernelName := Some "";
     _kernelPreference := default ISessionContext.empty kernelPreference;
     _isDisposed := false;
     _session := None;
     _ready := false;
     _initializing := false;
     _isReady := false;
     _dialog := None;
     _setBusy := setBusy;
     _busyDisposable := None |}.

Definition isDisposed : Async bool := gets _isDisposed.

(** [session?.kernel] *)
Definition session_kernel (session : option SessionConnection.t)
    : option KernelConnection.t :=
  session ≫= SessionConnection.kernel.

Definition _onPropertyChanged (sender : SessionConnection.t)
    (property : Property) : Async unit :=
  match property with
  | Path => assign (set_path (SessionConnection.path sender))
  | Name => assign (set_name (SessionConnection.name sender))
  | Type_ => assign (set_type (SessionConnection.type sender))
  end;;
  effect (Emit (PropertyChanged property)).

Definition _onKernelChanged (oldValue newValue : option KernelConnection.t)
    : Async unit :=
  effect (Emit (KernelChanged oldValue newValue)).

Definition _onSessionDisposed : Async unit :=
  session ← gets _session;
  match session with
  | Some session => session_dispose session
  | None => mret tt
  end;;
  assign (set_session None);;
  effect (Emit Terminated).

Definition _onStatusChanged (status : string) : Async unit :=
  setBusy ← gets _setBusy;
  match setBusy : option (nat → bool) with
  | Some setBusy =>
      busyDisposable ← gets _busyDisposable;
      if String.eqb status "busy" then
        match busyDisposable with
        | None =>
            n ← new_obj;
            let lease := if setBusy n : bool then Some n else None in
            effect (SetBusy lease);;
            assign (set_busyDisposable lease)
        | Some _ => mret tt
        end
      else
        match busyDisposable with
        | Some lease =>
            effect (LeaseDispose lease);;
            assign (set_busyDisposable None)
        | None => mret tt
        end
  | None => mret tt
  end;;
  effect (Emit (StatusChanged status)).

Definition _onConnectionStatusChanged (status : string) : Async unit :=
  effect (Emit (ConnectionStatusChanged status)).

Definition _onIopubMessage (message : string) : Async unit :=
  effect (Emit (IopubMessage message)).

Definition _onUnhandledMessage (message : string) : Async unit :=
  effect (Emit (UnhandledMessage message)).

Definition _handleNewSession (session : SessionConnection.t)
    : Async (option KernelConnection.t) :=
  disposed ← isDisposed;
  if disposed : bool then throw (Error "Disposed") else
  old ← gets _session;
  match old with
  | Some old => session_dispose old
  | None => mret tt
  end;;
  assign (set_session (Some session));;
  assign (set_prevKernelName
            (KernelConnection.name <$> SessionConnection.kernel session));;
  connect session ChDisposed;;
  connect session ChPropertyChanged;;
  connect session ChKernelChanged;;
  connect session ChStatusChanged;;
  connect session ChConnectionStatusChanged;;
  connect session ChIopubMessage;;
  connect session ChUnhandledMessage;;
  path ← gets _path;
  when (negb (String.eqb (SessionConnection.path session) path))
       (_onPropertyChanged session Path);;
  name ← gets _name;
  when (negb (String.eqb (SessionConnection.name session) name))
       (_onPropertyChanged session Name);;
  type ← gets _type;
  when (negb (String.eqb (SessionConnection.type session) type))
       (_onPropertyChanged session Type_);;
  effect (Emit (KernelChanged None (SessionConnection.kernel session)));;
  mret (SessionConnection.kernel session).

(** [err.response.text()] throws inside the method when [err] is not a
    response error. *)
Definition _handleSessionError (err : JsError) : Async unit :=
  match err with
  | ResponseError message text =>
      call ResponseText;;
      dialog ← new_obj;
      effect (NewDialog dialog ErrorStartingKernel);;
      assign (set_dialog (Some dialog));;
      call (DialogLaunch dialog);;
      assign (set_dialog None)
  | _ => throw (TypeError "Cannot read property 'text' of undefined")
  end.

Definition _startSession (model : Kernel.IModel)
    : Async (option KernelConnection.t) :=
  disposed ← isDisposed;
  if disposed : bool then throw (Thrown "Client session is disposed.") else
  try_catch
    (path ← gets _path;
     type ← gets _type;
     name ← gets _name;
     v ← call (StartNew path type name model);
     m ← as_session v;
     o ← new_obj;
     _handleNewSession (SessionConnection.of_model o m))
    (λ err, void (_handleSessionError err);; throw err).

(** What [session.kernel.status] throws when [session.kernel] is null. *)
Definition status_of_null : JsError :=
  TypeError "Cannot read property 'status' of null".

(** [session.changeKernel(options)] returns a promise, so the [catch]
    around that [return] sees no rejection: it is left out. *)
Definition _changeKernel (options : Kernel.IModel)
    : Async (option KernelConnection.t) :=
  disposed ← isDisposed;
  if disposed : bool then throw (Error "Disposed") else
  session ← gets _session;
  match session with
  | Some session =>
      match SessionConnection.kernel session with
      | None => throw status_of_null
      | Some kernel =>
          if negb (String.eqb (KernelConnection.status kernel) "dead") then
            v ← call (SessionChangeKernel (SessionConnection.obj session)
                        options);
            as_kernel v
          else _startSession options
      end
  | None => _startSession options
  end.

Definition shutdown : Async unit :=
  session ← gets _session;
  match session with
  | Some session =>
      call (SessionShutdown (SessionConnection.obj session));; mret tt
  | None => mret tt
  end.

(** [Private.getKernelSearch] *)
Definition getKernelSearch (w : World) : Private.IKernelSearch :=
  {| Private.specs := specs (services w);
     Private.sessions := running (services w);
     Private.preference := _kernelPreference (this w) |}.

(** [Private.createSelectorNode]: the elements it creates are not
    modelled; it throws when [populateKernelSelect] does. *)
Definition createSelectorNode : Async unit :=
  w ← get;
  match Private.populateKernelSelect (sort_compares_first (services w))
          (getKernelSearch w) with
  | Some err => throw err
  | None => mret tt
  end.

(** [new Private.KernelSelector(this)] *)
Definition KernelSelector : Async unit := createSelectorNode.

(** The body of the dialog is built before the dialog is: when that throws,
    there is no dialog and [_dialog] is not assigned. *)
Definition _selectKernel (cancelable : bool) : Async unit :=
  disposed ← isDisposed;
  if disposed : bool then mret tt else
  KernelSelector;;
  dialog ← new_obj;
  effect (NewDialog dialog (SelectKernel cancelable));;
  assign (set_dialog (Some dialog));;
  v ← call (DialogLaunch dialog);
  result ← as_result v;
  effect (DialogDispose dialog);;
  assign (set_dialog None);;
  disposed ← isDisposed;
  if (disposed : bool) || negb result.1 then mret tt else
  session ← gets _session;
  match result.2, session with
  | None, Some _ => shutdown
  | Some model, _ => _changeKernel model;; mret tt
  | None, None => mret tt
  end.

Definition _startIfNecessary : Async unit :=
  preference ← gets _kernelPreference;
  disposed ← isDisposed;
  session ← gets _session;
  if (disposed : bool)
     || bool_decide (is_Some (session_kernel session))
     || Js.is_false (ISessionContext.shouldStart preference)
     || Js.is_false (ISessionContext.canStart preference)
  then mret tt
  else
    w ← get;
    let options :=
      if Js.truthy (ISessionContext.id preference)
      then Some {| Kernel.id := ISessionContext.id preference;
                   Kernel.name := None |}
      else
        let name := Private.getDefaultKernel (specs (services w)) preference in
        if Js.truthy name
        then Some {| Kernel.id := None; Kernel.name := name |}
        else None in
    started ← match options with
              | Some options =>
                  try_catch (_changeKernel options;; mret true)
                            (λ _, mret false)
              | None => mret false
              end;
    if started : bool then mret tt else _selectKernel false.

Definition initialize : Async unit :=
  initializing ← gets _initializing;
  isReady ← gets _isReady;
  if (initializing : bool) || isReady then await ReadyPromise;; mret tt else
  assign (set_initializing true);;
  await ManagerReady;;
  w ← get;
  match List.find (λ item, String.eqb (Session.path item) (_path (this w)))
                  (running (services w)) with
  | Some model =>
      try_catch
        (session ← connectTo model;
         _handleNewSession session;; mret tt)
        (λ err, void (_handleSessionError err);; throw err)
  | None => mret tt
  end;;
  _startIfNecessary;;
  assign (set_isReady true);;
  effect ReadyResolve;;
  assign (set_ready true).

Definition changeKernel (options : Kernel.IModel)
    : Async (option KernelConnection.t) :=
  initialize;;
  disposed ← isDisposed;
  if disposed : bool then throw (Error "Disposed") else
  _changeKernel options.

Definition selectKernel : Async unit :=
  initialize;;
  disposed ← isDisposed;
  if disposed : bool then throw (Error "Disposed") else
  _selectKernel true.

(** [SessionContext.restartKernel] *)
Definition restartKernel (kernel : KernelConnection.t) : Async bool :=
  v ← call ShowRestartDialog;
  result ← as_result v;
  w ← get;
  if bool_decide (KernelConnection.id kernel ∈ disposed_kernels (services w))
  then mret false
  else if (result.1 : bool) then
    call (KernelRestart (KernelConnection.id kernel));; mret true
  else mret false.

Definition restart : Async bool :=
  initialize;;
  disposed ← isDisposed;
  if disposed : bool then throw (Error "session already disposed") else
  session ← gets _session;
  match session_kernel session with
  | Some kernel => restartKernel kernel
  | None =>
      prevKernelName ← gets _prevKernelName;
      if Js.truthy prevKernelName then
        changeKernel {| Kernel.id := None; Kernel.name := prevKernelName |};;
        mret true
      else throw (Error "No kernel to restart")
  end.

Definition dispose : Async unit :=
  disposed ← isDisposed;
  if disposed : bool then mret tt else
  assign (set_isDisposed true);;
  session ← gets _session;
  match session with
  | Some session =>
      preference ← gets _kernelPreference;
      when (Js.truthy_bool (ISessionContext.shutdownOnDispose preference))
           (void (try_catch
                    (call (SessionShutdown (SessionConnection.obj session));;
                     mret tt)
                    (λ reason, effect ConsoleError)));;
      session_dispose session;;
      assign (set_session None)
  | None => mret tt
  end;;
  dialog ← gets _dialog;
  match dialog with
  | Some dialog => effect (DialogDispose dialog)
  | None => mret tt
  end;;
  busyDisposable ← gets _busyDisposable;
  match busyDisposable with
  | Some lease =>
      effect (LeaseDispose lease);;
      assign (set_busyDisposable None)
  | None => mret tt
  end;;
  effect (Emit Disposed);;
  clearData.

(** [set kernelPreference(value)] *)
Definition set_kernelPreference_ (value : ISessionContext.IKernelPreference)
    : Async unit :=
  assign (set_kernelPreference value).

(** ** The event loop

    Everything runs on one thread: a call or a resumed method runs up to its
    next [await], then something else runs.  The clients call the public
    methods, the promises of the collaborators settle, and the attached
    session connection emits its signals. *)

Inductive Call :=
| CallInitialize
| CallChangeKernel (options : Kernel.IModel)
| CallSelectKernel
| CallShutdown
| CallRestart
| CallDispose
| CallSetKernelPreference (value : ISessionContext.IKernelPreference).

Definition returning {A : Type} (f : A → Value) (m : Async A) : Async Value :=
  a ← m; mret (f a).

Definition invoke (c : Call) : Async Value :=
  match c with
  | CallInitialize => returning (λ _, VUndefined) initialize
  | CallChangeKernel options => returning VKernel (changeKernel options)
  | CallSelectKernel => returning (λ _, VUndefined) selectKernel
  | CallShutdown => returning (λ _, VUndefined) shutdown
  | CallRestart => returning VBool restart
  | CallDispose => returning (λ _, VUndefined) dispose
  | CallSetKernelPreference value =>
      returning (λ _, VUndefined) (set_kernelPreference_ value)
  end.

(** A signal of a session connection, with its arguments. *)
Inductive Signal :=
| SigDisposed
| SigPropertyChanged (p : Property)
| SigKernelChanged (oldValue newValue : option KernelConnection.t)
| SigStatusChanged (status : string)
| SigConnectionStatusChanged (status : string)
| SigIopubMessage (msg : string)
| SigUnhandledMessage (msg : string).

Definition channel_of (s : Signal) : Channel :=
  match s with
  | SigDisposed => ChDisposed
  | SigPropertyChanged _ => ChPropertyChanged
  | SigKernelChanged _ _ => ChKernelChanged
  | SigStatusChanged _ => ChStatusChanged
  | SigConnectionStatusChanged _ => ChConnectionStatusChanged
  | SigIopubMessage _ => ChIopubMessage
  | SigUnhandledMessage _ => ChUnhandledMessage
  end.

(** The slot the context connected to each signal in
    [_handleNewSession]. *)
Definition slot (sender : SessionConnection.t) (s : Signal) : Async unit :=
  match s with
  | SigDisposed => _onSessionDisposed
  | SigPropertyChanged p => _onPropertyChanged sender p
  | SigKernelChanged oldValue newValue => _onKernelChanged oldValue newValue
  | SigStatusChanged status => _onStatusChanged status
  | SigConnectionStatusChanged status => _onConnectionStatusChanged status
  | SigIopubMessage msg => _onIopubMessage msg
  | SigUnhandledMessage msg => _onUnhandledMessage msg
  end.

(** The reference in [_session] is to the object that changed: it reads
    the new properties. *)
Definition refresh (sender : SessionConnection.t) (c : SessionContext)
    : SessionContext :=
  match _session c with
  | Some session =>
      if Nat.eqb (SessionConnection.obj session) (SessionConnection.obj sender)
      then set_session (Some sender) c
      else c
  | None => c
  end.

(** A session connection, now in the state [sender], emits [s]: the slot
    runs if it is still connected.  A connection that emits [disposed] has
    been disposed, which clears its own connections. *)
Definition deliver (sender : SessionConnection.t) (s : Signal) : Async unit :=
  assign (refresh sender);;
  w ← get;
  if bool_decide ((SessionConnection.obj sender, channel_of s) ∈ slots w)
  then
    slot sender s;;
    match s with
    | SigDisposed =>
        modify (with_slots (drop_slots (SessionConnection.obj sender)))
    | _ => mret tt
    end
  else mret tt.

(** A suspended method. *)
Record Task := {
  task_id : nat;
  task_caller : bool;   (* has a client the promise? *)
  task_request : Request;
  task_resume : Response → World → Step Value
}.

Record System := {
  world : World;
  pending : list Task;
  settled : list (nat * (Value + JsError));
  next_task : nat
}.

(** Take in what a run up to the next [await] left: the state, the
    outcome or the suspension, and the detached resumptions. *)
Fixpoint install (id : nat) (caller : bool) (st : Step Value) (sys : System)
    : System :=
  match st with
  | Done w r =>
      {| world := w; pending := pending sys;
         settled := if caller then settled sys ++ [(id, r)] else settled sys;
         next_task := next_task sys |}
  | Susp w q k =>
      {| world := w;
         pending := pending sys ++
           [{| task_id := id; task_caller := caller; task_request := q;
               task_resume := k |}];
         settled := settled sys; next_task := next_task sys |}
  | Fork q k rest =>
      install id caller rest
        {| world := world sys;
           pending := pending sys ++
             [{| task_id := next_task sys; task_caller := false;
                 task_request := q;
                 task_resume := λ r w, bindS (k r w) (λ _, mret VUndefined) |}];
           settled := settled sys; next_task := S (next_task sys) |}
  end.

(** Whether a promise can settle with a response.  The ready promise is
    settled by the context alone, and is never rejected. *)
Definition fits (w : World) (q : Request) (r : Response) : bool :=
  match q, r with
  | ReadyPromise, Resolved VUndefined => _ready (this w)
  | ReadyPromise, _ => false
  | _, Rejected _ => true
  | ManagerReady, Resolved VUndefined => true
  | StartNew _ _ _ _, Resolved (VSession _) => true
  | SessionChangeKernel _ _, Resolved (VKernel (Some _)) => true
  | SessionShutdown _, Resolved VUndefined => true
  | DialogLaunch _, Resolved (VResult _ _) => true
  | ShowRestartDialog, Resolved (VResult _ _) => true
  | KernelRestart _, Resolved VUndefined => true
  | ResponseText, Resolved (VString _) => true
  | _, _ => false
  end.

Inductive Event :=
| Invoke (c : Call)
| Settle (task : nat) (r : Response)
| Signalled (sender : SessionConnection.t) (s : Signal)
| Running (l : list Session.IModel)
| Specs (s : option KernelSpec.ISpecModels)
| ConnectToThrows (e : option JsError)
| KernelDisposed (kernel : string)
| SortComparesFirst (b : bool).

Definition bump (sys : System) : System :=
  {| world := world sys; pending := pending sys; settled := settled sys;
     next_task := S (next_task sys) |}.

Definition set_pending (l : list Task) (sys : System) : System :=
  {| world := world sys; pending := l; settled := settled sys;
     next_task := next_task sys |}.

Definition set_world (w : World) (sys : System) : System :=
  {| world := w; pending := pending sys; settled := settled sys;
     next_task := next_task sys |}.

(** The first suspended method with a given identity, and the others. *)
Fixpoint take (id : nat) (l : list Task) : option (Task * list Task) :=
  match l with
  | [] => None
  | t :: l =>
      if Nat.eqb (task_id t) id then Some (t, l)
      else '(t', l') ← take id l; Some (t', t :: l')
  end.

Definition step (sys : System) (e : Event) : System :=
  match e with
  | Invoke c =>
      install (next_task sys) true (invoke c (world sys)) (bump sys)
  | Settle id r =>
      match take id (pending sys) with
      | Some (t, rest) =>
          if fits (world sys) (task_request t) r
          then install id (task_caller t) (task_resume t r (world sys))
                 (set_pending rest sys)
          else sys
      | None => sys
      end
  | Signalled sender s =>
      install (next_task sys) false
        (returning (λ _, VUndefined) (deliver sender s) (world sys))
        (bump sys)
  | Running l =>
      set_world (with_services (λ e,
        {| running := l; connectTo_throws := connectTo_throws e;
           specs := specs e; disposed_kernels := disposed_kernels e;
           sort_compares_first := sort_compares_first e;
           next_obj := next_obj e |}) (world sys)) sys
  | Specs s =>
      set_world (with_services (λ e,
        {| running := running e; connectTo_throws := connectTo_throws e;
           specs := s; disposed_kernels := disposed_kernels e;
           sort_compares_first := sort_compares_first e;
           next_obj := next_obj e |}) (world sys)) sys
  | ConnectToThrows err =>
      set_world (with_services (λ e,
        {| running := running e; connectTo_throws := err;
           specs := specs e; disposed_kernels := disposed_kernels e;
           sort_compares_first := sort_compares_first e;
           next_obj := next_obj e |}) (world sys)) sys
  | KernelDisposed k =>
      set_world (with_services (λ e,
        {| running := running e; connectTo_throws := connectTo_throws e;
           specs := specs e; disposed_kernels := k :: disposed_kernels e;
           sort_compares_first := sort_compares_first e;
           next_obj := next_obj e |}) (world sys)) sys
  | SortComparesFirst b =>
      set_world (with_services (λ e,
        {| running := running e; connectTo_throws := connectTo_throws e;
           specs := specs e; disposed_kernels := disposed_kernels e;
           sort_compares_first := b;
           next_obj := next_obj e |}) (world sys)) sys
  end.

Definition run (es : list Event) (sys : System) : System :=
  fold_left step es sys.

(** A context just constructed, among services in some state. *)
Definition boot (c : SessionContext) (e : Services) : System :=
  {| world := {| this := c; services := e; slots := []; trace := [] |};
     pending := []; settled := []; next_task := 0 |}.

(** ** Vocabulary of the properties *)

Definition fallback (C : KernelSpec.ISpecModels)
    (P : ISessionContext.IKernelPreference) : option string :=
  if Js.truthy_bool (ISessionContext.autoStartDefault P)
  then Some (KernelSpec.default C) else None.

(** The entries of the catalog whose language is [l]. *)
Definition matches (C : KernelSpec.ISpecModels) (l : string) (n : string) : Prop :=
  ∃ sp, KernelSpec.kernelspecs C !! n = Some sp ∧ KernelSpec.language sp = l.

Fixpoint landing {A : Type} (st : Step A) : World :=
  match st with
  | Done w _ => w
  | Susp w _ _ => w
  | Fork _ _ rest => landing rest
  end.

Fixpoint outcome {A : Type} (st : Step A) : option (A + JsError) :=
  match st with
  | Done _ r => Some r
  | Susp _ _ _ => None
  | Fork _ _ rest => outcome rest
  end.

Definition occurrences (e : Effect) (t : list Effect) : nat :=
  length (filter (λ x, x = e) t).

(** The calls of [sessionManager.startNew]. *)
Definition is_start (e : Effect) : bool :=
  match e with Called (StartNew _ _ _ _) => true | _ => false end.

Definition is_LeaseDispose (e : Effect) : bool :=
  match e with LeaseDispose _ => true | _ => false end.

Definition kernel_invariant (w : World) : Prop :=
  ∀ s, _session (this w) = Some s → is_Some (SessionConnection.kernel s).

Module Example.

Definition python3 : KernelSpec.ISpecModel :=
  {| KernelSpec.display_name := "Python 3"; KernelSpec.language := "python" |}.
Definition python2 : KernelSpec.ISpecModel :=
  {| KernelSpec.display_name := "Python 2"; KernelSpec.language := "python" |}.
Definition ir : KernelSpec.ISpecModel :=
  {| KernelSpec.display_name := "R"; KernelSpec.language := "r" |}.

Definition catalog : KernelSpec.ISpecModels :=
  {| KernelSpec.default := "python3";
     KernelSpec.kernelspecs :=
       <["python3" := python3]> (<["python2" := python2]> (<["ir" := ir]> ∅)) |}.

Definition by_language (l : string) : ISessionContext.IKernelPreference :=
  {| ISessionContext.name := None; ISessionContext.language := Some l;
     ISessionContext.id := None; ISessionContext.shouldStart := None;
     ISessionContext.canStart := None;
     ISessionContext.shutdownOnDispose := None;
     ISessionContext.autoStartDefault := None |}.

Definition by_name (n : string) : ISessionContext.IKernelPreference :=
  {| ISessionContext.name := Some n; ISessionContext.language := None;
     ISessionContext.id := None; ISessionContext.shouldStart := None;
     ISessionContext.canStart := None;
     ISessionContext.shutdownOnDispose := None;
     ISessionContext.autoStartDefault := None |}.

Definition services0 : Services :=
  {| running := []; connectTo_throws := None; specs := Some catalog;
     disposed_kernels := []; sort_compares_first := false; next_obj := 0 |}.

Definition kernel1 : KernelConnection.t :=
  {| KernelConnection.id := "k1"; KernelConnection.name := "python3";
     KernelConnection.status := "idle" |}.

Definition notebook : Session.IModel :=
  {| Session.path := "a.ipynb"; Session.name := ""; Session.type := "notebook";
     Session.kernel := Some kernel1 |}.

(** A factory that returns a disposable at every call. *)
Definition leases : nat → bool := λ _, true.

Definition context0 (p : ISessionContext.IKernelPreference) : SessionContext :=
  new_SessionContext (Some "a.ipynb") None (Some "notebook") (Some p)
    (Some leases) "uuid".

(* attach failure *)
Definition refused : JsError := ResponseError "Not Found" "".
Definition attach_failure : list Event :=
  [Running [notebook]; ConnectToThrows (Some refused);
   Invoke CallInitialize; Invoke CallInitialize;
   Settle 0 (Resolved VUndefined)].

(* kernel lost *)
Definition kernel_lost : list Event :=
  [Invoke CallInitialize; Settle 0 (Resolved VUndefined);
   Settle 0 (Resolved (VSession notebook));
   Signalled (SessionConnection.of_model 0
                {| Session.path := "a.ipynb"; Session.name := "";
                   Session.type := "notebook"; Session.kernel := None |})
             (SigKernelChanged (Some kernel1) None);
   Invoke CallRestart; Settle 2 (Resolved VUndefined);
   Settle 2 (Resolved VUndefined)].
(** Services in which the notebook's session runs and cannot be
    connected to. *)
Definition unreachable : Services :=
  {| running := [notebook];
     connectTo_throws := Some refused;
     specs := Some catalog; disposed_kernels := [];
     sort_compares_first := false; next_obj := 0 |}.

(** Two clients call [initialize()]; then the manager is ready. *)
Definition two_callers : list Event :=
  [Invoke CallInitialize; Invoke CallInitialize;
   Settle 0 (Resolved VUndefined)].
(** A preference that disables starting. *)
Definition no_start : ISessionContext.IKernelPreference :=
  {| ISessionContext.name := Some "python3"; ISessionContext.language := None;
     ISessionContext.id := None; ISessionContext.shouldStart := Some false;
     ISessionContext.canStart := None;
     ISessionContext.shutdownOnDispose := Some true;
     ISessionContext.autoStartDefault := None |}.

(** A context just made, and the same once [initialize()] has begun. *)
Definition fresh (p : ISessionContext.IKernelPreference) : World :=
  world (boot (context0 p) services0).
Definition waiting (p : ISessionContext.IKernelPreference) : World :=
  with_this (set_initializing true) (fresh p).

(** The notebook's session, attached. *)
Definition attached (p : ISessionContext.IKernelPreference) : World :=
  landing (_handleNewSession
             (SessionConnection.of_model 0 notebook) (waiting p)).
(** A factory that returns [undefined]. *)
Definition no_lease : nat → bool := λ _, false.

(** A kernel is started for the notebook and reports that it is busy. *)
Definition busy_kernel : list Event :=
  [Invoke CallInitialize; Settle 0 (Resolved VUndefined);
   Settle 0 (Resolved (VSession notebook));
   Signalled (SessionConnection.of_model 0 notebook)
             (SigStatusChanged "busy")].
(** A session whose kernel is gone, and services that list it. *)
Definition kernel_less : Session.IModel :=
  {| Session.path := "b.ipynb"; Session.name := ""; Session.type := "notebook";
     Session.kernel := None |}.
Definition crowded : Services :=
  {| running := [kernel_less]; connectTo_throws := None;
     specs := Some catalog; disposed_kernels := [];
     sort_compares_first := false; next_obj := 0 |}.
End Example.

Fixpoint Step_induction {A : Type} (P : Step A → Prop)
    (HDone : ∀ w r, P (Done w r))
    (HSusp : ∀ w q k, (∀ r w', P (k r w')) → P (Susp w q k))
    (HFork : ∀ q k rest, P rest → P (Fork q k rest))
    (st : Step A) : P st :=
  match st with
  | Done w r => HDone w r
  | Susp w q k =>
      HSusp w q k (λ r w', Step_induction P HDone HSusp HFork (k r w'))
  | Fork q k rest =>
      HFork q k rest (Step_induction P HDone HSusp HFork rest)
  end.

(** ** A rely-guarantee judgment on resumptions

    [J G susp_ok rely next detached fork_ok fork_rely p0 w0 st Q]: the run
    [st], begun in state [w0] and phase [p0], keeps the guarantee [G] from
    the start of each of its segments to the suspension or the end; it
    suspends only where [susp_ok] allows; it is resumed in states that
    [rely] allows, in the phase [next] gives; what it detaches runs in the
    phase [detached]; and it ends in a state and with an outcome that
    satisfy [Q]. *)
Fixpoint J {Phase A : Type}
    (G : Phase → World → Phase → World → Prop)
    (susp_ok : Phase → World → Request → Prop)
    (rely : Phase → World → Request → Response → World → Prop)
    (next : Phase → Request → Response → Phase)
    (detached : Phase)
    (fork_ok : Request → Prop)
    (fork_rely : Request → Response → World → Prop)
    (p0 : Phase) (w0 : World) (st : Step A)
    (Q : Phase → A + JsError → World → Prop) : Prop :=
  match st with
  | Done w r => ∃ p, G p0 w0 p w ∧ Q p r w
  | Susp w q k =>
      ∃ p, G p0 w0 p w ∧ susp_ok p w q ∧
        ∀ r w', rely p w q r w' →
          J G susp_ok rely next detached fork_ok fork_rely
            (next p q r) w' (k r w') Q
  | Fork q k rest =>
      (fork_ok q ∧
       ∀ r w', fork_rely q r w' →
         J G susp_ok rely next detached fork_ok fork_rely
           detached w' (k r w') (λ _ _ _, True)) ∧
      J G susp_ok rely next detached fork_ok fork_rely p0 w0 rest Q
  end.

(** Effects that tell of the busy lease, of the status and of disposal. *)
Definition busy_relevant (e : Effect) : bool :=
  match e with
  | SetBusy _ | LeaseDispose _ | Emit (StatusChanged _) | Emit Disposed => true
  | _ => false
  end.

Definition busy_view (w : World)
    : list Effect * option nat * bool * option (nat → bool) :=
  (filter busy_relevant (trace w), _busyDisposable (this w),
   _isDisposed (this w), _setBusy (this w)).

Definition slot_view (w : World)
    : option SessionConnection.t * list (nat * Channel) * bool *
      list Session.IModel :=
  (_session (this w), slots w, _isDisposed (this w), running (services w)).

Definition has_kernel (m : Session.IModel) : Prop :=
  is_Some (Session.kernel m).


(** [K]: whether every session the services hand out has, and keeps, a
    kernel. *)
Definition Islots (K : bool) (w : World) : Prop :=
  (∀ c, c ∈ slots w →
     ∃ s, _session (this w) = Some s ∧ c.1 = SessionConnection.obj s) ∧
  (∀ s, _session (this w) = Some s →
     (SessionConnection.obj s < next_obj (services w))%nat) ∧
  (_isDisposed (this w) = true → _session (this w) = None) ∧
  (K = true → kernel_invariant w ∧ Forall has_kernel (running (services w))).

Definition GB (K : bool) (_ : unit) (w0 : World) (_ : unit) (w : World)
    : Prop :=
  busy_view w = busy_view w0 ∧
  (next_obj (services w0) ≤ next_obj (services w))%nat ∧
  (Islots K w0 → Islots K w).

Definition okK (K : bool) (r : Response) : Prop :=
  K = true → ∀ m, r = Resolved (VSession m) → has_kernel m.

Definition relyB (K : bool) (_ : unit) (_ : World) (_ : Request)
    (r : Response) (_ : World) : Prop := okK K r.

Definition JB (K : bool) {A : Type} (w0 : World) (st : Step A)
    (Q : A + JsError → World → Prop) : Prop :=
  J (GB K) (λ _ _ _, True) (relyB K) (λ p _ _, p) tt (λ _, True)
    (λ _ r _, okK K r) tt w0 st (λ _, Q).

Definition T {A : Type} : A + JsError → World → Prop := λ _ _, True.

Definition status_of (e : Effect) : option string :=
  match e with Emit (StatusChanged s) => Some s | _ => None end.

(** The last status the context has observed. *)
Definition last_status (t : list Effect) : option string :=
  last (omap status_of t).

Definition held (w : World) (l : nat) : nat :=
  if decide (_busyDisposable (this w) = Some l) then 1 else 0.

(** A factory, if there is one, that returns a disposable at every
    call. *)
Definition always_leases (c : SessionContext) : Prop :=
  ∀ setBusy n, _setBusy c = Some setBusy → setBusy n = true.

Definition Ilease (w : World) : Prop :=
  ((is_Some (_busyDisposable (this w)) →
      is_Some (_setBusy (this w)) ∧ last_status (trace w) = Some "busy" ∧
      _isDisposed (this w) = false) ∧
   (always_leases (this w) → is_Some (_setBusy (this w)) →
      last_status (trace w) = Some "busy" → _isDisposed (this w) = false →
      is_Some (_busyDisposable (this w)))) ∧
  (∀ l, occurrences (SetBusy (Some l)) (trace w) =
        occurrences (LeaseDispose l) (trace w) + held w l) ∧
  (∀ l, SetBusy (Some l) ∈ trace w → (l < next_obj (services w))%nat) ∧
  (∀ l, (occurrences (SetBusy (Some l)) (trace w) ≤ 1)%nat) ∧
  occurrences (Emit Disposed) (trace w) =
    (if _isDisposed (this w) then 1 else 0).

Definition Iall (K : bool) (w : World) : Prop := Islots K w ∧ Ilease w.

Definition GI (K : bool) (_ : unit) (w0 : World) (_ : unit) (w : World)
    : Prop :=
  (Iall K w0 → Iall K w) ∧ _setBusy (this w) = _setBusy (this w0).

Definition deliver_connected (sender : SessionConnection.t) (s : Signal)
    : Async unit :=
  w ← get;
  if bool_decide ((SessionConnection.obj sender, channel_of s) ∈ slots w)
  then
    slot sender s;;
    match s with
    | SigDisposed =>
        modify (with_slots (drop_slots (SessionConnection.obj sender)))
    | _ => mret tt
    end
  else mret tt.

Definition JI (K : bool) {A : Type} (w0 : World) (st : Step A) : Prop :=
  J (GI K) (λ _ _ _, True) (relyB K) (λ p _ _, p) tt (λ _, True)
    (λ _ r _, okK K r) tt w0 st (λ _ _ _, True).

Definition task_ok (K : bool) (t : Task) : Prop :=
  ∀ r w', okK K r → JI K w' (task_resume t r w').

Definition SysI (K : bool) (b : option (nat → bool)) (sys : System)
    : Prop :=
  Iall K (world sys) ∧ _setBusy (this (world sys)) = b ∧
  Forall (task_ok K) (pending sys).

Definition okE (K : bool) (e : Event) : Prop :=
  match e with
  | Settle _ r => okK K r
  | Signalled sender _ =>
      K = true → is_Some (SessionConnection.kernel sender)
  | Running l => K = true → Forall has_kernel l
  | _ => True
  end.

(** A context made by the constructor, among services in some state, after
    the events [es]. *)
Definition started (path name type : option string)
    (preference : option ISessionContext.IKernelPreference)
    (setBusy : option (nat → bool)) (uuid : string) (e : Services)
    (es : list Event) : System :=
  run es (boot (new_SessionContext path name type preference setBusy uuid) e).

(** What replacing the attached connection by [s] adds to the trace. *)
Definition detach (old : option SessionConnection.t) : list Effect :=
  match old with
  | Some old => [SessionDispose (SessionConnection.obj old)]
  | None => []
  end.

Definition attach (s : SessionConnection.t) : list Effect :=
  map (Connect (SessionConnection.obj s))
    [ChDisposed; ChPropertyChanged; ChKernelChanged; ChStatusChanged;
     ChConnectionStatusChanged; ChIopubMessage; ChUnhandledMessage].

Definition renamed (s : SessionConnection.t) (c : SessionContext)
    : list Effect :=
  (if String.eqb (SessionConnection.path s) (_path c) then []
   else [Emit (PropertyChanged Path)]) ++
  (if String.eqb (SessionConnection.name s) (_name c) then []
   else [Emit (PropertyChanged Name)]) ++
  (if String.eqb (SessionConnection.type s) (_type c) then []
   else [Emit (PropertyChanged Type_)]).

(** ** Readiness *)

Definition is_ReadyResolve (e : Effect) : bool :=
  match e with ReadyResolve => true | _ => false end.

(** The two flags of [initialize()], whether the ready promise is resolved,
    and the calls of its [resolve]. *)
Definition ready_view (w : World) : bool * bool * bool * list Effect :=
  (_initializing (this w), _isReady (this w), _ready (this w),
   filter is_ReadyResolve (trace w)).

Definition fresh_view : bool * bool * bool * list Effect :=
  (false, false, false, []).
Definition starting_view : bool * bool * bool * list Effect :=
  (true, false, false, []).
Definition ready_done_view : bool * bool * bool * list Effect :=
  (true, true, true, [ReadyResolve]).

(** The test at the head of [initialize()]. *)
Definition nonfresh (w : World) : Prop :=
  _initializing (this w) || _isReady (this w) = true.

(** The phase of a run: [true] while it may run, or runs, the startup of
    [initialize()]. *)
Definition GR (p0 : bool) (w0 : World) (p : bool) (w : World) : Prop :=
  match p0, p with
  | false, false => ready_view w = ready_view w0
  | true, true =>
      (ready_view w0 = fresh_view ∨ ready_view w0 = starting_view) ∧
      ready_view w = starting_view
  | true, false =>
      (ready_view w0 = fresh_view ∨ ready_view w0 = starting_view) ∧
      (ready_view w = starting_view ∨ ready_view w = ready_done_view)
  | false, true => False
  end.

Definition quiet_rely (q : Request) (_ : Response) (w' : World) : Prop :=
  q = ReadyPromise → nonfresh w'.

Definition relyR (p : bool) (_ : World) (q : Request) (r : Response)
    (w' : World) : Prop :=
  if p then ready_view w' = starting_view else quiet_rely q r w'.

Definition JR {A : Type} (p0 : bool) (w0 : World) (st : Step A)
    (Q : bool → A + JsError → World → Prop) : Prop :=
  J GR (λ _ _ _, True) relyR (λ p _ _, p) false (λ _, True) quiet_rely
    p0 w0 st Q.

(** A run that has no part in the startup. *)
Definition JQ {A : Type} (w0 : World) (st : Step A) : Prop :=
  JR false w0 st (λ p _ _, p = false).

Definition task_quiet (t : Task) : Prop :=
  ∀ r w', quiet_rely (task_request t) r w' → JQ w' (task_resume t r w').

Definition task_owner (t : Task) : Prop :=
  ∀ r w', ready_view w' = starting_view →
    JR true w' (task_resume t r w') (λ _ _ _, True).

(** The suspended methods: at most one of them runs the startup. *)
Definition Pool (own : bool) (l : list Task) : Prop :=
  if own then
    ∃ l1 t l2, l = l1 ++ t :: l2 ∧ task_owner t ∧
      Forall task_quiet l1 ∧ Forall task_quiet l2
  else Forall task_quiet l.

Definition view_ok (w : World) : Prop :=
  ready_view w = fresh_view ∨ ready_view w = starting_view ∨
  ready_view w = ready_done_view.

Definition SysR (own : bool) (sys : System) : Prop :=
  Pool own (pending sys) ∧ view_ok (world sys) ∧
  (own = true → ready_view (world sys) = starting_view).

Inductive ReadyState := Uninitialized | Initializing | Ready.

Definition readyState (c : SessionContext) : ReadyState :=
  if _isReady c then Ready
  else if _initializing c then Initializing else Uninitialized.

Definition rank (s : ReadyState) : nat :=
  match s with Uninitialized => 0 | Initializing => 1 | Ready => 2 end.

(** [advances a b]: the readiness state [b] is [a] or a later one. *)
Definition advances (a b : ReadyState) : Prop := (rank a ≤ rank b)%nat.

(** What [initialize()] leaves: the phase of a run of no part in the
    startup, and a state in which [initialize()] starts nothing. *)
Definition after_initialize {A : Type} (p : bool) (r : A + JsError)
    (w : World) : Prop :=
  p = false ∧ (∀ a, r = inl a → nonfresh w).

(** What the startup leaves when it completes: the context is ready and
    the ready promise has been resolved, once. *)
Definition made_ready {A : Type} (p : bool) (r : A + JsError) (w : World)
    : Prop :=
  p = false ∧ (∀ a, r = inl a → ready_view w = ready_done_view).

(** What the startup leaves when it ends: the context is ready and the
    ready promise resolved, once, if it completes; the context is
    initializing and not ready, with the ready promise not resolved, if it
    is rejected. *)
Definition startup_ends {A : Type} (p : bool) (r : A + JsError)
    (w : World) : Prop :=
  p = false ∧
  match r with
  | inl _ => ready_view w = ready_done_view
  | inr _ => ready_view w = starting_view
  end.

(** The methods that begin with [initialize()]. *)
Definition starts (c : Call) : bool :=
  match c with
  | CallInitialize | CallChangeKernel _ | CallSelectKernel | CallRestart =>
      true
  | _ => false
  end.

(** ** Sessions made by a run *)

Definition is_StartNew (q : Request) : bool :=
  match q with StartNew _ _ _ _ => true | _ => false end.

(** [sessionManager.startNew] resolved with a session: the server made
    one. *)
Definition creation (q : Request) (r : Response) : bool :=
  match q, r with
  | StartNew _ _ _ _, Resolved (VSession _) => true
  | _, _ => false
  end.

(** The sessions made for a run whose promises settle with the responses
    [rs], each with the state in which the run is resumed. *)
Fixpoint creations {A : Type} (st : Step A) (rs : list (Response * World))
    : nat :=
  match st with
  | Done _ _ => 0
  | Susp _ q k =>
      match rs with
      | [] => 0
      | (r, w') :: rs =>
          (if creation q r then 1 else 0) + creations (k r w') rs
      end
  | Fork _ _ rest => creations rest rs
  end.

(** The phase of a run: whether a session has been made for it.  After
    that, the run does not call [startNew]. *)
Definition JC {A : Type} (p0 : bool) (w0 : World) (st : Step A)
    (Q : bool → A + JsError → World → Prop) : Prop :=
  J (λ p0 _ p _, p = p0)
    (λ p _ q, p = true → is_StartNew q = false)
    (λ _ _ _ _ _, True)
    (λ p q r, p || creation q r)
    true (λ _, True) (λ _ _ _, False)
    p0 w0 st Q.

(** A run for which a session was made fails only in a disposed
    context. *)
Definition made_or_disposed {A : Type} (p : bool) (r : A + JsError)
    (w : World) : Prop :=
  p = true → ∀ e, r = inr e → _isDisposed (this w) = true.

(** ** Reading a run *)

(** The request a run is suspended on, if it has not ended. *)
Fixpoint awaits {A : Type} (st : Step A) : option Request :=
  match st with
  | Done _ _ => None
  | Susp _ q _ => Some q
  | Fork _ _ rest => awaits rest
  end.

(** How a suspended run goes on when its promise settles with [r], the
    state being [w'] by then. *)
Fixpoint resume {A : Type} (st : Step A) (r : Response) (w' : World)
    : Step A :=
  match st with
  | Done w x => Done w x
  | Susp _ _ k => k r w'
  | Fork _ _ rest => resume rest r w'
  end.

(** The runs it detached, oldest first: the request each waits for and
    how it goes on. *)
Fixpoint forked {A : Type} (st : Step A)
    : list (Request * (Response → World → Step unit)) :=
  match st with
  | Fork q k rest => (q, k) :: forked rest
  | _ => []
  end.

(** The effects by which the context asks for a kernel: a new session, a
    change of kernel of the attached session, the selection dialog. *)
Definition asks_for_kernel (e : Effect) : bool :=
  match e with
  | Called (StartNew _ _ _ _) | Called (SessionChangeKernel _ _)
  | NewDialog _ (SelectKernel _) => true
  | _ => false
  end.

(** What the context emits for a signal of the attached session. *)
Definition proxied (s : Signal) : Emitted :=
  match s with
  | SigDisposed => Terminated
  | SigPropertyChanged p => PropertyChanged p
  | SigKernelChanged oldValue newValue => KernelChanged oldValue newValue
  | SigStatusChanged status => StatusChanged status
  | SigConnectionStatusChanged status => ConnectionStatusChanged status
  | SigIopubMessage msg => IopubMessage msg
  | SigUnhandledMessage msg => UnhandledMessage msg
  end.

Definition is_Emit (e : Effect) : bool :=
  match e with Emit _ => true | _ => false end.

(** [get kernelDisplayName] *)
Definition kernelDisplayName (w : World) : string :=
  let kernel := session_kernel (_session (this w)) in
  let preference := _kernelPreference (this w) in
  if negb (bool_decide (is_Some kernel)) && negb (_isReady (this w))
     && negb (Js.is_false (ISessionContext.canStart preference))
     && negb (Js.is_false (ISessionContext.shouldStart preference))
  then "Kernel"
  else
    match kernel with
    | None => "No Kernel!"
    | Some kernel =>
        default (KernelConnection.name kernel)
          (specs ← specs (services w);
           spec ← KernelSpec.kernelspecs specs !! KernelConnection.name kernel;
           Some (KernelSpec.display_name spec))
    end.

(** [get kernelDisplayStatus].  [connectionStatus] is the property of that
    name of a kernel connection. *)
Definition kernelDisplayStatus
    (connectionStatus : KernelConnection.t → string) (w : World) : string :=
  let kernel := session_kernel (_session (this w)) in
  let preference := _kernelPreference (this w) in
  if negb (bool_decide (is_Some kernel)) && negb (_isReady (this w))
     && negb (Js.is_false (ISessionContext.canStart preference))
     && negb (Js.is_false (ISessionContext.shouldStart preference))
  then "initializing"
  else
    default ""
      (kernel ← kernel;
       Some (if String.eqb (connectionStatus kernel) "connected"
             then KernelConnection.status kernel
             else connectionStatus kernel)).

(** ** Guarantees kept by every run of the event loop *)

(** A run that keeps the guarantee [G] over each of its segments, when it
    is resumed in states that satisfy [Inv] with responses that [ok]
    allows there. *)
Definition JG (Inv : World → Prop) (G : World → World → Prop)
    (ok : World → Request → Response → Prop)
    {A : Type} (w0 : World) (st : Step A) : Prop :=
  J (λ _ w0 _ w, G w0 w) (λ _ _ _, True)
    (λ _ _ q r w', Inv w' ∧ ok w' q r) (λ p _ _, p) tt (λ _, True)
    (λ q r w', Inv w' ∧ ok w' q r) tt w0 st (λ _ _ _, True).

Definition task_G (Inv : World → Prop) (G : World → World → Prop)
    (ok : World → Request → Response → Prop) (t : Task) : Prop :=
  ∀ r w', Inv w' → ok w' (task_request t) r →
    JG Inv G ok w' (task_resume t r w').

(** The effects a context is to spare once it is disposed: asking for a
    kernel, and connecting to the signals of a session. *)
Definition live (e : Effect) : bool :=
  asks_for_kernel e || match e with Connect _ _ => true | _ => false end.

Definition GD (w0 w : World) : Prop :=
  _isDisposed (this w0) = true →
  _isDisposed (this w) = true ∧
  filter live (trace w) = filter live (trace w0).

Definition JD {A : Type} (w0 : World) (st : Step A) : Prop :=
  JG (λ _, True) GD (λ _ _ _, True) w0 st.

(** The state an attach failure leaves: the startup has begun and will
    not end, and no session is attached. *)
Definition Zinv (w : World) : Prop :=
  ready_view w = starting_view ∧ _session (this w) = None ∧ slots w = [].

Definition GZ (w0 w : World) : Prop :=
  Zinv w0 → Zinv w ∧ filter live (trace w) = filter live (trace w0).

(** The ready promise does not settle. *)
Definition okZ (_ : World) (q : Request) (_ : Response) : Prop :=
  q ≠ ReadyPromise.

Definition JZ {A : Type} (w0 : World) (st : Step A) : Prop :=
  JG Zinv GZ okZ w0 st.

(** The effects on the busy lease. *)
Definition is_lease (e : Effect) : bool :=
  match e with SetBusy _ | LeaseDispose _ => true | _ => false end.

(** A context with no [setBusy] option, no lease and no effect on one so
    far. *)
Definition NoLease (w : World) : Prop :=
  _setBusy (this w) = None ∧ _busyDisposable (this w) = None ∧
  filter is_lease (trace w) = [].

Definition GL (w0 w : World) : Prop := NoLease w0 → NoLease w.

(** ** The kernel selector *)

(** What building the kernel selector throws in the state [w], if it
    does. *)
Definition selector_throws (w : World) : option JsError :=
  Private.populateKernelSelect (sort_compares_first (services w))
    (getKernelSearch w).

(** ** What the context is told *)

(** The status a session connection tells the context of, by an event: the
    argument of its [statusChanged] signal, if the slot of the context is
    connected to it when it is emitted. *)
Definition told (e : Event) (sys : System) : list string :=
  match e with
  | Signalled sender (SigStatusChanged status) =>
      if bool_decide ((SessionConnection.obj sender, ChStatusChanged)
                        ∈ slots (world sys))
      then [status] else []
  | _ => []
  end.

(** The statuses the context is told of in the course of the events [es],
    oldest first. *)
Fixpoint observed (es : list Event) (sys : System) : list string :=
  match es with
  | [] => []
  | e :: es => told e sys ++ observed es (step sys e)
  end.

(** A run that leaves the busy lease, the statuses emitted and the disposal
    as they are. *)
Definition GS (w0 w : World) : Prop := busy_view w = busy_view w0.

(** A call of [dispose()]. *)
Definition is_dispose (e : Event) : bool :=
  match e with Invoke CallDispose => true | _ => false end.

(** ** The call that begins the startup *)

(** The suspended methods a run leaves behind: its own suspension, under
    the identity [id], and what it detached, under new identities from [n]
    on. *)
Fixpoint spawned (id : nat) (caller : bool) (st : Step Value) (n : nat)
    : list Task :=
  match st with
  | Done _ _ => []
  | Susp _ q k =>
      [{| task_id := id; task_caller := caller; task_request := q;
          task_resume := k |}]
  | Fork q k rest =>
      {| task_id := n; task_caller := false; task_request := q;
         task_resume := λ r w, bindS (k r w) (λ _, mret VUndefined) |}
      :: spawned id caller rest (S n)
  end.

(** The identities in use: those of the suspended methods differ, and
    all are below the next one. *)
Definition ids_ok (sys : System) : Prop :=
  NoDup (map task_id (pending sys)) ∧
  Forall (λ t, (task_id t < next_task sys)%nat) (pending sys) ∧
  Forall (λ x : nat * (Value + JsError), (x.1 < next_task sys)%nat)
    (settled sys).

(** The startup was begun by the call [id]: either it still runs, in the
    suspended method of that identity, and the call has not settled; or it
    has ended, and no suspended method has a part in it. *)
Definition Startup (id : nat) (sys : System) : Prop :=
  ids_ok sys ∧ (id < next_task sys)%nat ∧
  ((∃ l1 t l2, pending sys = l1 ++ t :: l2 ∧ task_id t = id ∧
      task_owner t ∧ Forall task_quiet (l1 ++ l2) ∧
      ready_view (world sys) = starting_view ∧
      ∀ r, (id, r) ∉ settled sys)
   ∨ (Forall task_quiet (pending sys) ∧ nonfresh (world sys) ∧
      view_ok (world sys))).

(** ** The read of [session.kernel.status] *)

(** Whether an event hands the context the very error that the read of
    [session.kernel.status] throws: a promise rejected with it, or
    [connectTo] set to throw it. *)
Definition supplies_fault (e : Event) : bool :=
  match e with
  | Settle _ (Rejected err) => bool_decide (err = status_of_null)
  | ConnectToThrows (Some err) => bool_decide (err = status_of_null)
  | _ => false
  end.

(** What a resumed method is handed: a response and a state that do not
    supply that error. *)
Definition relyE (r : Response) (w' : World) : Prop :=
  r ≠ Rejected status_of_null ∧
  connectTo_throws (services w') ≠ Some status_of_null.

(** A run leaves what [connectTo] throws as it is. *)
Definition GE (w0 w : World) : Prop :=
  connectTo_throws (services w) = connectTo_throws (services w0).

(** A run that, handed no such error, ends with an outcome and in a state
    that satisfy [Q]. *)
Definition JE {A : Type} (w0 : World) (st : Step A)
    (Q : A + JsError → World → Prop) : Prop :=
  J (λ _ w0 _ w, GE w0 w) (λ _ _ _, True) (λ _ _ _ r w', relyE r w')
    (λ p _ _, p) tt (λ _, True) (λ _ r w', relyE r w') tt w0 st (λ _, Q).

(** The outcome is not the error of the read. *)
Definition sound {A : Type} (r : A + JsError) (_ : World) : Prop :=
  r ≠ inr status_of_null.

(** When the outcome is the error of the read, the session that is
    attached in the end has no kernel. *)
Definition sound_or_broken {A : Type} (r : A + JsError) (w : World) : Prop :=
  r = inr status_of_null → ¬ kernel_invariant w.

(** A suspended method: what its client is told is [sound_or_broken]. *)
Definition task_E (t : Task) : Prop :=
  ∀ r w', relyE r w' →
    JE w' (task_resume t r w')
      (if task_caller t then sound_or_broken else T).

(** * Properties *)

Lemma truthy_Some s : Js.truthy (Some s) = true ↔ s ≠ "".
Proof.
  simpl. destruct (String.eqb_spec s ""); simpl; split; congruence.
Qed.

Lemma seq_opt_true a b : Js.seq_opt a b = true ↔ b = Some a.
Proof.
  destruct b as [s|]; simpl; [|split; congruence].
  destruct (String.eqb_spec a s); split; congruence.
Qed.

Lemma exact_match_spec keys name :
  Private.exact_match keys name = true ↔ ∃ n, name = Some n ∧ n ∈ keys.
Proof.
  induction keys as [|k keys IH]; simpl.
  - split; [congruence|]. intros (n & _ & H). by apply elem_of_nil in H.
  - destruct (Js.seq_opt k name) eqn:E.
    + apply seq_opt_true in E. split; [|done]. intros _. exists k. split; [done|]. left.
    + rewrite IH. split.
      * intros (n & ? & ?). exists n. split; [done|]. by right.
      * intros (n & -> & [->|?]%elem_of_cons); [|eauto].
        assert (Js.seq_opt k (Some k) = true) by (by apply seq_opt_true). congruence.
Qed.

Lemma language_matches_spec entries language n :
  n ∈ Private.language_matches entries language ↔
  ∃ sp, (n, sp) ∈ entries ∧ KernelSpec.language sp = language.
Proof.
  induction entries as [|[k sp] entries IH]; simpl.
  - split; [by intros ?%elem_of_nil|]. intros (? & ?%elem_of_nil & _). done.
  - destruct (String.eqb_spec language (KernelSpec.language sp)) as [E|E].
    + rewrite elem_of_cons, IH. split.
      * intros [->|(sp' & ? & ?)]; [exists sp; split; [left|done]|exists sp'; split; [by right|done]].
      * intros (sp' & [[= -> ->]|?]%elem_of_cons & ?); [by left|right; eauto].
    + rewrite IH. split.
      * intros (sp' & ? & ?). exists sp'. split; [by right|done].
      * intros (sp' & [[= -> ->]|?]%elem_of_cons & ?); [congruence|eauto].
Qed.

Lemma language_matches_NoDup entries language :
  NoDup entries.*1 → NoDup (Private.language_matches entries language).
Proof.
  induction entries as [|[k sp] entries IH]; simpl; [constructor|].
  intros [Hk Hnd]%NoDup_cons. destruct (String.eqb _ _); [|by apply IH].
  apply NoDup_cons. split; [|by apply IH].
  intros (sp' & Hin & _)%language_matches_spec. apply Hk.
  apply list_elem_of_fmap. by exists (k, sp').
Qed.

Lemma language_matches_map (C : KernelSpec.ISpecModels) (l n : string) :
  n ∈ Private.language_matches (map_to_list (KernelSpec.kernelspecs C)) l ↔
  matches C l n.
Proof.
  rewrite language_matches_spec. unfold matches.
  split; intros (sp & H & ?); exists sp; split; try done;
    by apply elem_of_map_to_list.
Qed.

Lemma singleton_list {A} (l : list A) (x : A) :
  NoDup l → x ∈ l → (∀ y, y ∈ l → y = x) → l = [x].
Proof.
  intros Hnd Hx Hall. destruct l as [|a l]; [by apply elem_of_nil in Hx|].
  assert (a = x) as -> by (apply Hall; left).
  destruct l as [|b l]; [done|].
  assert (b = x) as -> by (apply Hall; right; left).
  apply NoDup_cons in Hnd as [Hn _]. exfalso. apply Hn. left.
Qed.

(** C3.  When a kernel may be started, the name is unset or is not the name
    of a spec, and the language is set: if exactly one spec of the catalog
    has that language, [getDefaultKernel] returns its name; if none or two
    or more have it, [getDefaultKernel] returns the fallback, which is the
    default of the catalog when [autoStartDefault] is truthy and [null]
    otherwise. *)
Theorem getDefaultKernel_language (C : KernelSpec.ISpecModels)
    (P : ISessionContext.IKernelPreference) (l : string) :
  ISessionContext.shouldStart P ≠ Some false →
  ISessionContext.canStart P ≠ Some false →
  (ISessionContext.name P = None ∨
   ∃ n, ISessionContext.name P = Some n ∧ KernelSpec.kernelspecs C !! n = None) →
  ISessionContext.language P = Some l → l ≠ "" →
  (∀ e, matches C l e → (∀ e', matches C l e' → e' = e) →
        Private.getDefaultKernel (Some C) P = Some e) ∧
  ((∀ e, ¬ matches C l e) →
        Private.getDefaultKernel (Some C) P = fallback C P) ∧
  (∀ e1 e2, e1 ≠ e2 → matches C l e1 → matches C l e2 →
        Private.getDefaultKernel (Some C) P = fallback C P).
Proof.
  intros Hs Hc Hname Hlang Hl.
  assert (Private.getDefaultKernel (Some C) P =
    match Private.language_matches (map_to_list (KernelSpec.kernelspecs C)) l with
    | [specName] => Some specName
    | _ => fallback C P
    end) as ->.
  { unfold Private.getDefaultKernel, fallback.
    destruct (ISessionContext.shouldStart P) as [[]|]; try done;
    destruct (ISessionContext.canStart P) as [[]|]; try done; simpl;
    rewrite Hlang.
    all: assert (Js.truthy (Some l) = true) as -> by (by apply truthy_Some).
    all: rewrite andb_false_r; simpl.
    all: destruct (Private.exact_match _ _) eqn:E; [|done].
    all: apply exact_match_spec in E as (n & Hn & Hin).
    all: destruct Hname as [?|(n' & ? & Hnone)]; [congruence|].
    all: assert (n' = n) as -> by congruence.
    all: apply list_elem_of_fmap in Hin as ([k sp] & -> & Hin).
    all: apply elem_of_map_to_list in Hin; simpl in *; congruence. }
  pose proof (language_matches_NoDup (map_to_list (KernelSpec.kernelspecs C)) l
                (NoDup_fst_map_to_list _)) as Hnd.
  split; [|split].
  - intros e He Huniq.
    rewrite (singleton_list _ e Hnd); [done| |].
    + by apply language_matches_map.
    + intros y Hy. apply Huniq. by apply language_matches_map.
  - intros Hnone.
    destruct (Private.language_matches _ _) as [|a t] eqn:E; [done|].
    exfalso. apply (Hnone a). apply language_matches_map. rewrite E. left.
  - intros e1 e2 Hne H1 H2.
    apply language_matches_map in H1, H2.
    destruct (Private.language_matches _ _) as [|a [|b t]]; [done| |done].
    apply list_elem_of_singleton in H1, H2. congruence.
Qed.

Create HintDb run.
#[export] Hint Unfold KernelSelector createSelectorNode : run.
#[export] Hint Unfold mbind mret Async_bind Async_ret call effect assign
  modify gets get await throw try_catch void when new_obj isDisposed : run.
Ltac run := repeat progress (autounfold with run; cbn).

(** What a call of [dispose()] does, on a disposed context and on one that
    is not. *)
Lemma dispose_first_and_later (w : World) :
  (_isDisposed (this w) = true → dispose w = Done w (inl tt)) ∧
  (_isDisposed (this w) = false →
    let w1 := landing (dispose w) in
    outcome (dispose w) = Some (inl tt) ∧
    _isDisposed (this w1) = true ∧
    _session (this w1) = None ∧
    _busyDisposable (this w1) = None ∧
    slots w1 = [] ∧
    (∃ d, trace w1 = trace w ++ d ∧
          occurrences (Emit Disposed) d = 1 ∧
          filter is_LeaseDispose d =
            match _busyDisposable (this w) with
            | Some lease => [LeaseDispose lease]
            | None => []
            end) ∧
    dispose w1 = Done w1 (inl tt)).
Proof.
  split.
  - intros H. unfold dispose. run. by rewrite H.
  - intros H. unfold dispose, session_dispose, clearData. run. rewrite H. cbn.
    destruct (_session (this w)) as [s|] eqn:Es; cbn;
      [destruct (Js.truthy_bool _); cbn|];
      destruct (_dialog (this w)) eqn:Ed; cbn;
      destruct (_busyDisposable (this w)) eqn:Eb; cbn;
      rewrite ?H, ?Es, ?Ed, ?Eb; cbn;
      (repeat split; try done);
      eexists; (split; [rewrite <- ?(assoc_L (++)); reflexivity|]); done.
Qed.

(** C5.  [getDefaultKernel] returns [null] whenever the specs are absent,
    or [shouldStart === false], or [canStart === false], whatever the other
    fields of the preference. *)
Theorem getDefaultKernel_null (specs : option KernelSpec.ISpecModels)
    (P : ISessionContext.IKernelPreference) :
  specs = None ∨ ISessionContext.shouldStart P = Some false ∨
    ISessionContext.canStart P = Some false →
  Private.getDefaultKernel specs P = None.
Proof.
  unfold Private.getDefaultKernel.
  intros [->|[H|H]]; [done| |]; destruct specs; try done; rewrite H; simpl;
    [done|by rewrite orb_true_r].
Qed.

Lemma changeKernel_faults (w : World) (options : Kernel.IModel) (s : SessionConnection.t) :
  _isDisposed (this w) = false →
  _session (this w) = Some s → SessionConnection.kernel s = None →
  _changeKernel options w = Done w (inr status_of_null).
Proof.
  intros Hd Hs Hk. unfold _changeKernel. run. by rewrite Hd, Hs, Hk.
Qed.

Lemma getDefaultKernel_null_witness :
  ((None : option KernelSpec.ISpecModels) = None ∨
   ISessionContext.shouldStart (Example.by_language "python") = Some false ∨
   ISessionContext.canStart (Example.by_language "python") = Some false) ∧
  Private.getDefaultKernel None (Example.by_language "python") = None.
Proof.
  split; [by left|].
  apply (getDefaultKernel_null None (Example.by_language "python")).
  by left.
Defined.

(** The spec of the example catalog: only [ir] has the language [r]. *)
Lemma example_matches_r (e : string) :
  matches Example.catalog "r" e ↔ e = "ir".
Proof.
  unfold matches, Example.catalog. simpl. split.
  - intros (sp & H & Hl).
    destruct (decide (e = "python3")) as [->|?].
    { rewrite lookup_insert_eq in H. by injection H as <-. }
    rewrite lookup_insert_ne in H by done.
    destruct (decide (e = "python2")) as [->|?].
    { rewrite lookup_insert_eq in H. by injection H as <-. }
    rewrite lookup_insert_ne in H by done.
    destruct (decide (e = "ir")) as [->|?]; [done|].
    rewrite lookup_insert_ne in H by done. by rewrite lookup_empty in H.
  - intros ->. exists Example.ir. split; [|done].
    rewrite lookup_insert_ne by done. rewrite lookup_insert_ne by done.
    by rewrite lookup_insert_eq.
Qed.

Lemma getDefaultKernel_language_witness :
  Private.getDefaultKernel (Some Example.catalog) (Example.by_language "r")
  = Some "ir".
Proof.
  refine (proj1 (getDefaultKernel_language Example.catalog
            (Example.by_language "r") "r" _ _ _ _ _) "ir" _ _).
  - discriminate.
  - discriminate.
  - by left.
  - reflexivity.
  - discriminate.
  - by apply example_matches_r.
  - intros e' He'. by apply example_matches_r.
Defined.

(** C4.  With the catalog of the example (default [python3]; [python3] and
    [python2] of language [python], [ir] of language [r]) and the preference
    [{ language: 'python' }], two specs match the language, and
    [getDefaultKernel] returns the fallback.  [autoStartDefault] is not set
    and the test [autoStartDefault ? specs.default : null] takes what is
    not set for false: the result is [null], not ["python3"]. *)
Theorem getDefaultKernel_two_python :
  Private.getDefaultKernel (Some Example.catalog)
    (Example.by_language "python") = None.
Proof. vm_compute. reflexivity. Qed.

(** C8.  A ready context whose session lost its kernel, with [python3]
    recorded as the previous kernel name: [restart()] reaches
    [_changeKernel] with the session still attached, the read of
    [session.kernel.status] faults, and the call is rejected with that
    [TypeError]; no session is started. *)
Theorem restart_kernel_lost :
  let sys := run Example.kernel_lost
               (boot (Example.context0 (Example.by_name "python3"))
                     Example.services0) in
  _isReady (this (world sys)) = true ∧
  _isDisposed (this (world sys)) = false ∧
  session_kernel (_session (this (world sys))) = None ∧
  _prevKernelName (this (world sys)) = Some "python3" ∧
  settled sys = [(0, inl VUndefined); (2, inr status_of_null)] ∧
  length (filter is_start (trace (world sys))) = 1.
Proof. vm_compute. repeat split; reflexivity. Qed.

(** ** The judgment *)

Section Logic.
Context {Phase : Type}.
Variable G : Phase → World → Phase → World → Prop.
Variable susp_ok : Phase → World → Request → Prop.
Variable rely : Phase → World → Request → Response → World → Prop.
Variable next : Phase → Request → Response → Phase.
Variable detached : Phase.
Variable fork_ok : Request → Prop.
Variable fork_rely : Request → Response → World → Prop.

Abbreviation J := (J G susp_ok rely next detached fork_ok fork_rely).

Hypothesis G_trans : ∀ p1 w1 p2 w2 p3 w3,
  G p1 w1 p2 w2 → G p2 w2 p3 w3 → G p1 w1 p3 w3.

Lemma J_rebase {A} p0 w0 p w (st : Step A) Q :
  G p0 w0 p w → J p w st Q → J p0 w0 st Q.
Proof.
  intros HG. induction st as [w1 r|w1 q k IH|q k rest IH] using Step_induction; simpl.
  - intros (p1 & ? & ?). exists p1. eauto.
  - intros (p1 & ? & ? & ?). exists p1. eauto.
  - intros [? ?]. eauto.
Qed.

Lemma J_conseq {A} p0 w0 (st : Step A) (Q Q' : Phase → A + JsError → World → Prop) :
  (∀ p r w, Q p r w → Q' p r w) → J p0 w0 st Q → J p0 w0 st Q'.
Proof.
  intros HQ. revert p0 w0.
  induction st as [w1 r|w1 q k IH|q k rest IH] using Step_induction; simpl; intros p0 w0.
  - intros (p1 & ? & ?). exists p1. eauto.
  - intros (p1 & ? & ? & Hk). exists p1. repeat split; eauto.
  - intros [? ?]. eauto.
Qed.

Lemma J_bind {A B} p0 w0 (st : Step A) (f : A → Async B) Q1 Q2 :
  J p0 w0 st Q1 →
  (∀ p a w, Q1 p (inl a) w → J p w (f a w) Q2) →
  (∀ p e w, Q1 p (inr e) w → Q2 p (inr e) w) →
  J p0 w0 (bindS st f) Q2.
Proof.
  intros Hst Hf He. revert p0 w0 Hst.
  induction st as [w1 r|w1 q k IH|q k rest IH] using Step_induction; simpl; intros p0 w0.
  - intros (p1 & HG & HQ). destruct r as [a|e].
    + eapply J_rebase; eauto.
    + simpl. exists p1. eauto.
  - intros (p1 & ? & ? & Hk). exists p1. repeat split; eauto.
  - intros [? ?]. eauto.
Qed.

Lemma J_catch {A} p0 w0 (st : Step A) (h : JsError → Async A) Q1 Q2 :
  J p0 w0 st Q1 →
  (∀ p e w, Q1 p (inr e) w → J p w (h e w) Q2) →
  (∀ p a w, Q1 p (inl a) w → Q2 p (inl a) w) →
  J p0 w0 (catchS st h) Q2.
Proof.
  intros Hst Hf He. revert p0 w0 Hst.
  induction st as [w1 r|w1 q k IH|q k rest IH] using Step_induction; simpl; intros p0 w0.
  - intros (p1 & HG & HQ). destruct r as [a|e].
    + simpl. exists p1. eauto.
    + eapply J_rebase; eauto.
  - intros (p1 & ? & ? & Hk). exists p1. repeat split; eauto.
  - intros [? ?]. eauto.
Qed.
End Logic.

Lemma J_weaken {Phase A : Type} (G G' : Phase → World → Phase → World → Prop)
    susp_ok rely next detached fork_ok fork_rely
    (p0 : Phase) (w0 : World) (st : Step A) Q :
  (∀ p1 w1 p2 w2, G p1 w1 p2 w2 → G' p1 w1 p2 w2) →
  J G susp_ok rely next detached fork_ok fork_rely p0 w0 st Q →
  J G' susp_ok rely next detached fork_ok fork_rely p0 w0 st Q.
Proof.
  intros HG. revert A p0 w0 st Q.
  refine (fix IH A p0 w0 st Q {struct st} := _).
  destruct st as [w r|w q k|q k rest]; simpl.
  - intros (p & ? & ?). exists p. auto.
  - intros (p & ? & ? & Hk). exists p. split; [auto|]. split; [done|].
    intros r w' Hr. apply IH, Hk, Hr.
  - intros [[? Hk] Hrest]. split; [split; [done|]|].
    + intros r w' Hr. apply IH, Hk, Hr.
    + apply IH, Hrest.
Qed.

(** ** Resources: slots, leases, disposal *)

Arguments add_slot : simpl never.
Arguments Private.populateKernelSelect : simpl never.
Arguments drop_slots : simpl never.
Arguments _handleNewSession : simpl never.
Arguments _handleSessionError : simpl never.
Arguments _startSession : simpl never.
Arguments _changeKernel : simpl never.
Arguments shutdown : simpl never.
Arguments _selectKernel : simpl never.
Arguments _startIfNecessary : simpl never.
Arguments initialize : simpl never.
Arguments changeKernel : simpl never.
Arguments selectKernel : simpl never.
Arguments restartKernel : simpl never.
Arguments restart : simpl never.
Arguments dispose : simpl never.
Arguments connectTo : simpl never.

Ltac busy := unfold busy_view; cbn;
  rewrite ?filter_app; cbn; rewrite ?app_nil_r; reflexivity.


Section Resources.
Variable K : bool.

Lemma GB_refl p w : GB K p w p w.
Proof. unfold GB. split; [done|]. split; [lia|done]. Qed.

Lemma GB_trans p1 w1 p2 w2 p3 w3 :
  GB K p1 w1 p2 w2 → GB K p2 w2 p3 w3 → GB K p1 w1 p3 w3.
Proof.
  intros (? & ? & ?) (? & ? & ?). split; [congruence|]. split; [lia|auto].
Qed.

Lemma GB_views w0 w :
  busy_view w = busy_view w0 → slot_view w = slot_view w0 →
  (next_obj (services w0) ≤ next_obj (services w))%nat → GB K tt w0 tt w.
Proof.
  intros Hb Hs Hn. split; [done|]. split; [done|].
  unfold slot_view in Hs. injection Hs as Hse Hsl Hd Hr.
  unfold Islots, kernel_invariant.
  intros (H1 & H2 & H3 & H4). split_and!.
  - intros c Hc. rewrite Hsl in Hc. rewrite Hse. auto.
  - intros s Hs'. rewrite Hse in Hs'. specialize (H2 s Hs'). lia.
  - rewrite Hd, Hse. auto.
  - intros HK. destruct (H4 HK) as [H5 H6]. rewrite Hr. split; [|done].
    intros s Hs'. rewrite Hse in Hs'. auto.
Qed.

Lemma elem_of_add_slot (x c : nat * Channel) l :
  x ∈ add_slot c l ↔ x = c ∨ x ∈ l.
Proof.
  unfold add_slot. case_bool_decide.
  - split; [by right|]. by intros [->|?].
  - rewrite elem_of_app, list_elem_of_singleton. tauto.
Qed.

Lemma elem_of_drop_slots (x : nat * Channel) o l :
  x ∈ drop_slots o l ↔ x.1 ≠ o ∧ x ∈ l.
Proof. unfold drop_slots. by rewrite list_elem_of_filter. Qed.

Lemma busy_view_effect e w :
  busy_relevant e = false →
  busy_view (with_trace (λ t, t ++ [e]) w) = busy_view w.
Proof.
  intros He. unfold busy_view, with_trace. cbn [trace this].
  rewrite filter_app, filter_cons, filter_nil, He. cbn.
  by rewrite app_nil_r.
Qed.

Lemma hns_disposed (s : SessionConnection.t) (w : World) :
  _isDisposed (this w) = true →
  _handleNewSession s w = Done w (inr (Error "Disposed")).
Proof. intros H. unfold _handleNewSession. run. by rewrite H. Qed.

Lemma hns_live (s : SessionConnection.t) (w : World) :
  _isDisposed (this w) = false →
  ∃ w', _handleNewSession s w =
          Done w' (inl (SessionConnection.kernel s)) ∧
        busy_view w' = busy_view w ∧
        services w' = services w ∧
        ((SessionConnection.obj s < next_obj (services w))%nat →
         (K = true → is_Some (SessionConnection.kernel s)) →
         Islots K w → Islots K w').
Proof.
  intros Hd.
  unfold _handleNewSession, session_dispose, connect, _onPropertyChanged.
  run. rewrite Hd. cbn.
  destruct (_session (this w)) as [old|] eqn:Eo; cbn;
  destruct (negb (SessionConnection.path s =? _path (this w))%string); cbn;
  destruct (negb (SessionConnection.name s =? _name (this w))%string); cbn;
  destruct (negb (SessionConnection.type s =? _type (this w))%string); cbn;
  (eexists; split; [reflexivity|]);
  (split; [busy|]); (split; [done|]);
  intros Hfresh Hk;
  unfold Islots, kernel_invariant; cbn; rewrite ?Eo, ?Hd;
  intros (H1 & H2 & H3 & H4); split_and!;
  try (intros c Hc; exists s; split; [done|];
       repeat (apply elem_of_add_slot in Hc as [->|Hc]; [done|]);
       first [apply elem_of_drop_slots in Hc as [Hne Hc];
              destruct (H1 c Hc) as (s' & [= <-] & ?); done
             | destruct (H1 c Hc) as (s' & [=] & ?)]);
  try (by intros s' [= <-]); try done;
  try (intros HK; split; [intros s' [= <-]; auto|by apply H4]).
Qed.

Ltac jleaf := unfold JB; cbn; exists tt.

(** The detached error dialog. *)
Lemma handleSessionError_void {A} (err : JsError) (w0 w : World)
    (f : unit → Async A) Q :
  GB K tt w0 tt w →
  (∀ w1, GB K tt w0 tt w1 → JB K w0 (f tt w1) Q) →
  JB K w0 (bindS (voidS (_handleSessionError err w)) f) Q.
Proof.
  intros HG Hf. unfold _handleSessionError.
  destruct err; run; try (apply Hf; done).
  split.
  - split; [done|]. intros r w' _. destruct r as [v|e]; cbn.
    + split.
      * split; [done|]. intros r' w'' _.
        destruct r'; cbn; exists tt; (split; [|done]);
          apply GB_views; done.
      * exists tt. split; [|done]. apply GB_views; [busy|done|cbn; lia].
    + exists tt. split; [apply GB_refl|done].
  - apply Hf. eapply GB_trans; [exact HG|].
    apply GB_views; [busy|done|done].
Qed.


Lemma JB_done {A} (w0 w : World) (r : A + JsError) :
  GB K tt w0 tt w → JB K w0 (Done w r) T.
Proof. intros. exists tt. done. Qed.

Lemma JB_bind {A B} (w0 : World) (st : Step A) (f : A → Async B) :
  JB K w0 st T → (∀ a w, JB K w (f a w) T) → JB K w0 (bindS st f) T.
Proof.
  intros H1 H2. unfold JB.
  eapply J_bind; [apply GB_trans|exact H1| |done].
  intros [] a w _. apply H2.
Qed.

Lemma JB_catch {A} (w0 : World) (st : Step A) (h : JsError → Async A) :
  JB K w0 st T → (∀ e w, JB K w (h e w) T) → JB K w0 (catchS st h) T.
Proof.
  intros H1 H2. unfold JB.
  eapply J_catch; [apply GB_trans|exact H1| |done].
  intros [] e w _. apply H2.
Qed.

Lemma JB_rebase {A} (w0 w : World) (st : Step A) :
  GB K tt w0 tt w → JB K w st T → JB K w0 st T.
Proof.
  intros HG H. unfold JB. eapply J_rebase; [apply GB_trans|exact HG|exact H].
Qed.

Lemma JB_throw_after_error {A} (err : JsError) (w0 w : World) :
  GB K tt w0 tt w →
  JB K w0 (bindS (voidS (_handleSessionError err w))
               (λ _ w1, Done w1 (inr err) : Step A)) T.
Proof.
  intros. apply handleSessionError_void; [done|].
  intros. by apply JB_done.
Qed.

Lemma startSession_B (model : Kernel.IModel) (w : World) :
  JB K w (_startSession model w) T.
Proof.
  unfold _startSession. run.
  destruct (_isDisposed (this w)) eqn:Hd; cbn.
  { apply JB_done, GB_refl. }
  unfold JB. cbn.
  exists tt. split; [apply GB_views; [busy|done|done]|]. split; [done|].
  intros r w' Hok. destruct r as [v|e]; cbn.
  - destruct v; cbn; try (apply JB_throw_after_error, GB_refl).
    destruct (_isDisposed (this w')) eqn:Hd'.
    + rewrite hns_disposed by done. cbn.
      apply JB_throw_after_error. apply GB_views; [busy|done|cbn; lia].
    + edestruct (hns_live
        (SessionConnection.of_model (next_obj (services w')) m)
        (with_services (set_next_obj (S (next_obj (services w')))) w'))
        as (w2 & -> & Hb & Hs & HI); [done|]. cbn.
      apply JB_done. split; [by rewrite Hb|]. split.
      * rewrite Hs. cbn. lia.
      * intros HIw. apply HI; cbn; [lia| |].
        -- intros HK. by apply (Hok HK m).
        -- destruct HIw as (H1 & H2 & H3 & H4). split_and!; try done.
           intros s Hs'. specialize (H2 s Hs'). cbn. lia.
  - apply JB_throw_after_error, GB_refl.
Qed.

Ltac frame := first [apply GB_refl | apply GB_views; [busy|done|cbn; lia]].
Ltac leaf := apply JB_done; frame.
Ltac susp := unfold JB; cbn; exists tt; (split; [frame|]); (split; [done|]).

Lemma changeKernel_B (options : Kernel.IModel) (w : World) :
  JB K w (_changeKernel options w) T.
Proof.
  unfold _changeKernel. run.
  destruct (_isDisposed (this w)) eqn:Hd; cbn; [leaf|].
  destruct (_session (this w)) as [s|] eqn:Es; cbn;
    [|apply startSession_B].
  destruct (SessionConnection.kernel s) as [k|]; cbn; [|leaf].
  destruct (negb _); cbn; [|apply startSession_B].
  susp. intros r w' _. destruct r as [v|e]; cbn; [|leaf].
  destruct v; cbn; leaf.
Qed.

Lemma shutdown_B (w : World) : JB K w (shutdown w) T.
Proof.
  unfold shutdown. run.
  destruct (_session (this w)) as [s|]; cbn; [|leaf].
  susp. intros r w' _. destruct r; cbn; leaf.
Qed.

Lemma selectKernel_B (cancelable : bool) (w : World) :
  JB K w (_selectKernel cancelable w) T.
Proof.
  unfold _selectKernel. run.
  destruct (_isDisposed (this w)) eqn:Hd; cbn; [leaf|].
  destruct (Private.populateKernelSelect _ _); cbn; [leaf|].
  susp. intros r w' _. destruct r as [v|e]; cbn; [|leaf].
  destruct v as [| | | | |accept value]; cbn; try leaf.
  destruct (_isDisposed (this w') || negb accept); cbn; [leaf|].
  destruct value as [model|]; cbn.
  - destruct (_session (this w')); cbn;
      (eapply JB_rebase; [|apply JB_bind; [apply changeKernel_B|]];
       [frame|intros; leaf]).
  - destruct (_session (this w')); cbn; [|leaf].
    eapply JB_rebase; [|apply shutdown_B]. frame.
Qed.

Lemma startIfNecessary_B (w : World) : JB K w (_startIfNecessary w) T.
Proof.
  unfold _startIfNecessary. run.
  destruct (_ || _); cbn; [leaf|].
  assert (∀ started w1, JB K w1
    ((if started : bool then mret () else _selectKernel false) w1) T) as Hk.
  { intros [] w1; [leaf|apply selectKernel_B]. }
  destruct (Js.truthy (ISessionContext.id _)); cbn.
  - apply JB_bind; [|exact Hk].
    apply JB_catch; [|intros; leaf].
    apply JB_bind; [apply changeKernel_B|intros; leaf].
  - destruct (Js.truthy (Private.getDefaultKernel _ _)); cbn.
    + apply JB_bind; [|exact Hk].
      apply JB_catch; [|intros; leaf].
      apply JB_bind; [apply changeKernel_B|intros; leaf].
    + apply selectKernel_B.
Qed.

Lemma initialize_B (w : World) : JB K w (initialize w) T.
Proof.
  unfold initialize. run.
  destruct (_ || _); cbn.
  { susp. intros r w' _. destruct r; cbn; leaf. }
  susp. intros r w' _. destruct r as [v|e]; cbn; [|leaf].
  assert (∀ w1, JB K w1 ((_startIfNecessary;;
     assign (set_isReady true);; effect ReadyResolve;;
     assign (set_ready true)) w1) T) as Hk.
  { intros w1. run. apply JB_bind; [apply startIfNecessary_B|].
    intros; leaf. }
  destruct (List.find _ _) as [model|] eqn:Ef; cbn; [|exact (Hk w')].
  unfold connectTo. run.
  destruct (connectTo_throws (services w')) as [err|]; cbn.
  { apply JB_bind; [apply JB_throw_after_error; frame|].
    intros _ w1. exact (Hk w1). }
  destruct (_isDisposed (this w')) eqn:Hd'.
  - rewrite hns_disposed by done. cbn.
    apply JB_bind; [apply JB_throw_after_error; frame|].
    intros _ w1. exact (Hk w1).
  - edestruct (hns_live
      (SessionConnection.of_model (next_obj (services w')) model)
      (with_trace (λ t, t ++ [ConnectTo model])
         (with_services (set_next_obj (S (next_obj (services w')))) w')))
      as (w2 & Heq & Hb & Hs & HI); [done|].
    assert (GB K tt w' tt w2) as HG.
    { split; [rewrite Hb; busy|]. split; [rewrite Hs; cbn; lia|].
      intros HIw. apply HI; cbn; [lia| |].
      - intros HK. destruct HIw as (_ & _ & _ & H4).
        destruct (H4 HK) as [_ Hall].
        rewrite Forall_forall in Hall. apply Hall.
        apply find_some in Ef as [Hin _]. by apply list_elem_of_In.
      - destruct HIw as (H1 & H2 & H3 & H4). split_and!; try done.
        intros s Hs'. specialize (H2 s Hs'). cbn. lia. }
    match goal with
    | |- context [_handleNewSession ?a ?b] =>
        replace (_handleNewSession a b) with
          (Done w2 (inl (SessionConnection.kernel
             (SessionConnection.of_model (next_obj (services w')) model))))
    end.
    cbn. eapply JB_rebase; [exact HG|exact (Hk w2)].
Qed.

Lemma after_initialize_B {A} (rest : Async A) (w : World) :
  (∀ w1, JB K w1 (rest w1) T) →
  JB K w ((initialize;; rest) w) T.
Proof.
  intros H. run. apply JB_bind; [apply initialize_B|]. intros _ w1. apply H.
Qed.

Lemma public_changeKernel_B (options : Kernel.IModel) (w : World) :
  JB K w (changeKernel options w) T.
Proof.
  unfold changeKernel. apply after_initialize_B. intros w1. run.
  destruct (_isDisposed (this w1)); cbn; [leaf|apply changeKernel_B].
Qed.

Lemma public_selectKernel_B (w : World) : JB K w (selectKernel w) T.
Proof.
  unfold selectKernel. apply after_initialize_B. intros w1. run.
  destruct (_isDisposed (this w1)); cbn; [leaf|apply selectKernel_B].
Qed.

Lemma restartKernel_B (kernel : KernelConnection.t) (w : World) :
  JB K w (restartKernel kernel w) T.
Proof.
  unfold restartKernel. run.
  susp. intros r w' _. destruct r as [v|e]; cbn; [|leaf].
  destruct v as [| | | | |accept value]; cbn; try leaf.
  destruct (bool_decide _); cbn; [leaf|].
  destruct accept; cbn; [|leaf].
  susp. intros r w'' _. destruct r; cbn; leaf.
Qed.

Lemma restart_B (w : World) : JB K w (restart w) T.
Proof.
  unfold restart. apply after_initialize_B. intros w1. run.
  destruct (_isDisposed (this w1)); cbn; [leaf|].
  destruct (session_kernel _); cbn; [apply restartKernel_B|].
  destruct (Js.truthy _); cbn; [|leaf].
  apply JB_bind; [apply public_changeKernel_B|]. intros; leaf.
Qed.

(** Every call but [dispose()]. *)
Lemma invoke_B (c : Call) (w : World) :
  c ≠ CallDispose → JB K w (invoke c w) T.
Proof.
  intros Hc. destruct c; try done; unfold invoke, returning; run.
  - apply JB_bind; [apply initialize_B|intros; leaf].
  - apply JB_bind; [apply public_changeKernel_B|intros; leaf].
  - apply JB_bind; [apply public_selectKernel_B|intros; leaf].
  - apply JB_bind; [apply shutdown_B|intros; leaf].
  - apply JB_bind; [apply restart_B|intros; leaf].
  - unfold set_kernelPreference_. run. leaf.
Qed.
End Resources.

Lemma occurrences_app (e : Effect) (t1 t2 : list Effect) :
  occurrences e (t1 ++ t2) = occurrences e t1 + occurrences e t2.
Proof. unfold occurrences. by rewrite filter_app, length_app. Qed.

Lemma occurrences_filter (e : Effect) (t : list Effect) :
  busy_relevant e = true →
  occurrences e (filter busy_relevant t) = occurrences e t.
Proof.
  intros He. unfold occurrences. induction t as [|x t IH]; [done|].
  rewrite !filter_cons. destruct (decide (busy_relevant x)) as [Hx|Hx].
  - rewrite filter_cons. destruct (decide (x = e)); cbn; by rewrite IH.
  - destruct (decide (x = e)) as [->|]; [|done].
    rewrite He in Hx. by destruct Hx.
Qed.

Lemma last_status_filter (t : list Effect) :
  last_status (filter busy_relevant t) = last_status t.
Proof.
  unfold last_status. f_equal. induction t as [|x t IH]; [done|].
  rewrite filter_cons. destruct (decide (busy_relevant x)) as [Hx|Hx]; cbn.
  - by rewrite IH.
  - rewrite IH. destruct x as [[]| | | | | | | | | | |]; try done.
    all: cbn in Hx; by destruct Hx.
Qed.

Lemma elem_of_filter_busy (l : option nat) (t : list Effect) :
  SetBusy l ∈ filter busy_relevant t ↔ SetBusy l ∈ t.
Proof. rewrite list_elem_of_filter. cbn. tauto. Qed.

Lemma Ilease_frame (w0 w : World) :
  busy_view w = busy_view w0 →
  (next_obj (services w0) ≤ next_obj (services w))%nat →
  Ilease w0 → Ilease w.
Proof.
  unfold busy_view. intros [= Ht Hb Hd Hs] Hn (H1 & H2 & H3 & H4 & H5).
  unfold Ilease, held, always_leases.
  rewrite <- (last_status_filter (trace w)), Ht, last_status_filter.
  rewrite Hb, Hd, Hs. split_and!; [apply H1|apply H1| | | |].
  - intros l.
    rewrite <- (occurrences_filter (SetBusy (Some l)) (trace w)) by done.
    rewrite <- (occurrences_filter (LeaseDispose l) (trace w)) by done.
    rewrite Ht, !occurrences_filter by done. apply H2.
  - intros l Hl. apply (proj2 (elem_of_filter_busy _ _)) in Hl.
    rewrite Ht in Hl. apply (proj1 (elem_of_filter_busy _ _)) in Hl.
    specialize (H3 l Hl). lia.
  - intros l.
    rewrite <- (occurrences_filter (SetBusy (Some l)) (trace w)) by done.
    rewrite Ht, occurrences_filter by done. apply H4.
  - rewrite <- (occurrences_filter (Emit Disposed) (trace w)) by done.
    rewrite Ht, occurrences_filter by done. apply H5.
Qed.

Lemma occurrences_snoc (e x : Effect) (t : list Effect) :
  occurrences e (t ++ [x]) =
  occurrences e t + (if decide (x = e) then 1 else 0).
Proof.
  rewrite occurrences_app. f_equal. unfold occurrences.
  rewrite filter_cons, filter_nil. by destruct (decide (x = e)).
Qed.

Lemma last_status_snoc (x : Effect) (t : list Effect) :
  last_status (t ++ [x]) =
  match status_of x with Some s => Some s | None => last_status t end.
Proof.
  unfold last_status. rewrite omap_app. cbn.
  destruct (status_of x); cbn; [by rewrite last_snoc|by rewrite app_nil_r].
Qed.

Arguments occurrences : simpl never.
Arguments last_status : simpl never.

Lemma occurrences_zero (e : Effect) (t : list Effect) :
  e ∉ t → occurrences e t = 0.
Proof.
  intros H. unfold occurrences. induction t as [|x t IH]; [done|].
  rewrite filter_cons. apply not_elem_of_cons in H as [? ?].
  destruct (decide (x = e)); [congruence|auto].
Qed.

Arguments _onStatusChanged : simpl never.

Lemma GB_GI K p0 w0 p w : GB K p0 w0 p w → GI K p0 w0 p w.
Proof.
  intros (Hb & Hn & Hs). split.
  - intros [H1 H2]. split; [auto|]. by eapply Ilease_frame.
  - unfold busy_view in Hb. by injection Hb.
Qed.

Lemma GI_refl K p w : GI K p w p w.
Proof. by split. Qed.

Lemma occurrences_snoc_ne (e x : Effect) (t : list Effect) :
  x ≠ e → occurrences e (t ++ [x]) = occurrences e t.
Proof.
  intros. rewrite occurrences_snoc. destruct (decide (x = e)); [done|lia].
Qed.

Ltac occ := rewrite ?last_status_snoc;
  repeat first [ rewrite occurrences_snoc_ne by discriminate
               | rewrite occurrences_snoc ];
  cbn; repeat case_decide; simplify_eq; try lia.

Lemma dispose_landing K (w : World) :
  _isDisposed (this w) = false →
  Iall K w → Iall K (landing (dispose w)).
Proof.
  intros Hd [(S1 & S2 & S3 & S4) (L1 & L2 & L3 & L4 & L5)].
  unfold dispose, session_dispose, clearData. run. rewrite Hd. cbn.
  rewrite Hd in L5.
  destruct (_session (this w)) as [s|] eqn:Es; cbn;
    [destruct (Js.truthy_bool _); cbn|];
    destruct (_dialog (this w)) eqn:Ed; cbn;
    destruct (_busyDisposable (this w)) as [lease|] eqn:Eb; cbn;
    rewrite ?Hd, ?Es, ?Ed, ?Eb; cbn.
  all: split.
  all: try (unfold Islots, kernel_invariant; cbn; rewrite ?Es; split_and!;
            [by intros c ?%elem_of_nil|by intros ? [=]|done
            |intros HK; split; [by intros ? [=]|by apply S4]]).
  all: unfold Ilease, held; cbn; rewrite ?Eb; split_and!.
  all: clear S1 S2 S3 S4 L1.
  all: lazymatch goal with
       | |- is_Some None → _ => by intros [? [=]]
       | |- always_leases _ → _ => by intros _ _ _ [=]
       | |- ∀ l, occurrences _ _ = _ =>
           intros l; specialize (L2 l); unfold held in L2; rewrite Eb in L2;
           occ
       | |- ∀ l, _ ∈ _ → _ =>
           intros l Hl; apply L3;
           repeat (apply elem_of_app in Hl
                     as [Hl|Hl%list_elem_of_singleton]; [|discriminate]);
           exact Hl
       | |- ∀ l, (occurrences _ _ <= 1)%nat =>
           intros l; specialize (L4 l); occ
       | |- occurrences _ _ = _ => occ
       end.
Qed.

Lemma refresh_I K (sender : SessionConnection.t) (w : World) :
  Iall K w → (K = true → is_Some (SessionConnection.kernel sender)) →
  Iall K (with_this (refresh sender) w).
Proof.
  destruct w as [c sv sl tr]. intros HI Hk.
  unfold with_this, refresh. cbn.
  destruct (_session c) as [cur|] eqn:Ec; [|done].
  destruct (Nat.eqb_spec (SessionConnection.obj cur)
              (SessionConnection.obj sender)) as [Ho|Ho]; [|done].
  destruct HI as [(S1 & S2 & S3 & S4) HL].
  split; [|by eapply Ilease_frame].
  unfold Islots, kernel_invariant in *. cbn in *. rewrite Ec in *.
  split_and!.
  - intros x Hx. exists sender. split; [done|].
    destruct (S1 x Hx) as (s & [= <-] & ->). done.
  - intros s [= <-]. rewrite <- Ho. by apply S2.
  - intros Hd. by specialize (S3 Hd).
  - intros HK. split; [intros s [= <-]; auto|by apply S4].
Qed.

Lemma onStatusChanged_I K (status : string) (w : World) :
  Iall K w → _isDisposed (this w) = false →
  ∃ w1, _onStatusChanged status w = Done w1 (inl tt) ∧ Iall K w1.
Proof.
  intros [HS ([L1 L1'] & L2 & L3 & L4 & L5)] Hd. unfold _onStatusChanged. run.
  assert (∀ w1, slot_view w1 = slot_view w →
            (next_obj (services w) ≤ next_obj (services w1))%nat →
            Islots K w1) as HS'.
  { intros w1 Hv Hn. unfold slot_view in Hv. injection Hv as E1 E2 E3 E4.
    destruct HS as (S1 & S2 & S3 & S4).
    unfold Islots, kernel_invariant. rewrite E1, E2, E3, E4. split_and!; auto.
    intros s Hs. specialize (S2 s Hs). lia. }
  assert (occurrences (SetBusy (Some (next_obj (services w)))) (trace w) = 0)
    as Hfresh by
    (apply occurrences_zero; intros Hin; specialize (L3 _ Hin); lia).
  destruct (_setBusy (this w)) as [setBusy|] eqn:Eb; cbn.
  - destruct (String.eqb_spec status "busy") as [->|Hne]; cbn;
      destruct (_busyDisposable (this w)) as [lease|] eqn:El; cbn;
      [|destruct (setBusy (next_obj (services w))) eqn:Ef; cbn| |];
      (eexists; split; [reflexivity|]); (split; [apply HS'; [done|cbn; lia]|]);
      unfold Ilease, held, always_leases; cbn; rewrite ?El, ?Eb, ?Hd;
      split_and!.
    all: lazymatch goal with
         | |- is_Some _ → _ ∧ _ =>
             first [ by intros [? [=]]
                   | intros _; rewrite ?last_status_snoc; cbn; by eauto ]
         | |- _ → _ → _ → _ → is_Some _ =>
             first [ by (intros; eexists)
                   | intros Ha; specialize (Ha _ (next_obj (services w)) eq_refl);
                     congruence
                   | intros _ _ Hl; rewrite ?last_status_snoc in Hl;
                     cbn in Hl; congruence ]
         | |- ∀ l, occurrences _ _ = _ =>
             intros l; specialize (L2 l); unfold held in L2;
             rewrite El in L2; specialize (L4 l); occ
         | |- ∀ l, _ ∈ _ → _ =>
             intros l Hl;
             rewrite !elem_of_app, !list_elem_of_singleton in Hl;
             intuition; simplify_eq; try lia;
             match goal with
             | H : SetBusy _ ∈ trace _ |- _ => specialize (L3 _ H); lia
             end
         | |- ∀ l, (occurrences _ _ <= 1)%nat =>
             intros l; specialize (L4 l); occ
         | |- occurrences _ _ = _ => rewrite Hd in L5; occ
         end.
  - eexists; split; [reflexivity|]. split; [apply HS'; [done|cbn; lia]|].
    unfold Ilease, held, always_leases; cbn; rewrite ?Eb, ?Hd. rewrite Hd in L5.
    assert (_busyDisposable (this w) = None) as El.
    { destruct (_busyDisposable (this w)) eqn:E; [|done].
      destruct (L1 (mk_is_Some _ _ eq_refl)) as [[? [=]] _]. }
    rewrite El. split_and!.
    + by intros [? [=]].
    + by intros _ [? [=]].
    + intros l. specialize (L2 l). unfold held in L2. rewrite El in L2. occ.
    + intros l Hl. rewrite !elem_of_app, !list_elem_of_singleton in Hl.
      destruct Hl as [Hl|[=]]. specialize (L3 l Hl). lia.
    + intros l. specialize (L4 l). occ.
    + occ.
Qed.


Lemma Iall_views K (w0 w : World) :
  busy_view w = busy_view w0 → slot_view w = slot_view w0 →
  (next_obj (services w0) ≤ next_obj (services w))%nat →
  Iall K w0 → Iall K w.
Proof.
  intros Hb Hs Hn. apply (GB_GI K tt w0 tt w). by apply GB_views.
Qed.

Lemma deliver_unfold (sender : SessionConnection.t) (s : Signal) (w : World) :
  deliver sender s w = deliver_connected sender s (with_this (refresh sender) w).
Proof. reflexivity. Qed.

Lemma deliver_connected_I K (sender : SessionConnection.t) (s : Signal)
    (wr : World) :
  Iall K wr →
  ∃ w1, deliver_connected sender s wr = Done w1 (inl tt) ∧ Iall K w1.
Proof.
  intros [HS HL]. unfold deliver_connected. run.
  case_bool_decide as Hin; cbn; [|by eexists].
  pose proof HS as (S1 & S2 & S3 & S4).
  destruct (S1 _ Hin) as (cur & Hcur & Hobj). cbn in Hobj.
  assert (_isDisposed (this wr) = false) as Hd.
  { destruct (_isDisposed (this wr)); [|done]. by rewrite S3 in Hcur. }
  destruct s; cbn.
  - unfold _onSessionDisposed, session_dispose. run. rewrite Hcur. cbn.
    eexists; split; [reflexivity|]. split; [|eapply Ilease_frame; [busy|done|done]].
    unfold Islots, kernel_invariant. cbn. split_and!; try done.
    + intros c Hc. apply elem_of_drop_slots in Hc as [Hne Hc].
      apply elem_of_drop_slots in Hc as [_ Hc].
      destruct (S1 c Hc) as (s' & Hs' & Hc'). congruence.
    + intros HK. split; [done|by apply S4].
  - unfold _onPropertyChanged. run.
    destruct p; cbn; (eexists; split; [reflexivity|]);
      (eapply Iall_views; [busy|done|done|done]).
  - unfold _onKernelChanged. run. eexists; split; [reflexivity|].
    eapply Iall_views; [busy|done|done|done].
  - destruct (onStatusChanged_I K status wr (conj HS HL) Hd) as (w1 & -> & ?).
    cbn. by eexists.
  - unfold _onConnectionStatusChanged. run. eexists; split; [reflexivity|].
    eapply Iall_views; [busy|done|done|done].
  - unfold _onIopubMessage. run. eexists; split; [reflexivity|].
    eapply Iall_views; [busy|done|done|done].
  - unfold _onUnhandledMessage. run. eexists; split; [reflexivity|].
    eapply Iall_views; [busy|done|done|done].
Qed.

Lemma deliver_setBusy (sender : SessionConnection.t) (s : Signal)
    (w w1 : World) r :
  deliver sender s w = Done w1 r →
  _setBusy (this w1) = _setBusy (this w).
Proof.
  unfold deliver, slot, _onSessionDisposed, session_dispose,
    _onPropertyChanged, _onKernelChanged, _onStatusChanged,
    _onConnectionStatusChanged, _onIopubMessage, _onUnhandledMessage.
  run.
  assert (_setBusy (refresh sender (this w)) = _setBusy (this w)) as Hr.
  { unfold refresh. destruct (_session (this w)); [|done].
    by destruct (Nat.eqb _ _). }
  case_bool_decide; cbn; [|by intros [= <- _]].
  destruct s; cbn; try (by intros [= <- _]).
  - destruct (_session (refresh sender (this w))); cbn; by intros [= <- _].
  - destruct p; cbn; by intros [= <- _].
  - destruct (_setBusy (refresh sender (this w))) eqn:Eb; cbn;
      [|by intros [= <- _]; cbn; congruence].
    destruct (String.eqb status "busy"); cbn;
      destruct (_busyDisposable (refresh sender (this w))); cbn;
      intros [= <- _]; cbn; congruence.
Qed.

Lemma deliver_I K (sender : SessionConnection.t) (s : Signal) (w : World) :
  Iall K w → (K = true → is_Some (SessionConnection.kernel sender)) →
  ∃ w1, deliver sender s w = Done w1 (inl tt) ∧ Iall K w1 ∧
        _setBusy (this w1) = _setBusy (this w).
Proof.
  intros HI Hk.
  destruct (deliver_connected_I K sender s (with_this (refresh sender) w))
    as (w1 & Heq & ?); [by apply refresh_I|].
  rewrite <- deliver_unfold in Heq.
  exists w1. split_and!; [done|done|]. by eapply deliver_setBusy.
Qed.

Lemma GI_trans K p1 w1 p2 w2 p3 w3 :
  GI K p1 w1 p2 w2 → GI K p2 w2 p3 w3 → GI K p1 w1 p3 w3.
Proof. unfold GI. intros [? ?] [? ?]. split; [auto|congruence]. Qed.

Lemma JB_JI K {A} (w : World) (st : Step A) : JB K w st T → JI K w st.
Proof.
  unfold JB, JI. intros H. eapply J_conseq; [|eapply J_weaken; [|exact H]].
  - done.
  - intros [] ? [] ?. apply GB_GI.
Qed.

Lemma dispose_JI K (w : World) : JI K w (dispose w).
Proof.
  destruct (_isDisposed (this w)) eqn:Hd.
  { unfold dispose. run. rewrite Hd. cbn. exists tt. split; [apply GI_refl|done]. }
  pose proof (dispose_landing K w Hd) as HL. revert HL.
  unfold dispose, session_dispose, clearData. run. rewrite Hd. cbn.
  destruct (_session (this w)) as [s|] eqn:Es; cbn;
    [destruct (Js.truthy_bool _); cbn|];
    destruct (_dialog (this w)) eqn:Ed; cbn;
    destruct (_busyDisposable (this w)) as [lease|] eqn:Eb; cbn;
    rewrite ?Hd, ?Es, ?Ed, ?Eb; cbn; intros HL.
  all: try (exists tt; split; [split; [exact HL|done]|done]).
  all: split; [|exists tt; split; [split; [exact HL|done]|done]].
  all: split; [done|]; intros r w' _; destruct r; cbn; exists tt;
    (split; [|done]); (apply GB_GI; apply GB_views; [busy|done|done]).
Qed.

Lemma invoke_JI K (c : Call) (w : World) : JI K w (invoke c w).
Proof.
  destruct c; try (by apply JB_JI, invoke_B).
  unfold invoke, returning. run. unfold JI.
  eapply J_bind; [apply GI_trans|apply dispose_JI| |done].
  intros [] a w1 _. exists tt. split; [apply GI_refl|done].
Qed.

Lemma JI_returning K {A} (w : World) (st : Step A) (f : A → Async Value) :
  JI K w st → (∀ a w1, f a w1 = Done w1 (inl VUndefined)) →
  JI K w (bindS st f).
Proof.
  intros H Hf. unfold JI. eapply J_bind; [apply GI_trans|exact H| |done].
  intros [] a w1 _. rewrite Hf. exists tt. split; [apply GI_refl|done].
Qed.

Lemma install_I K (st : Step Value) :
  ∀ id caller sys w0,
    JI K w0 st → Iall K w0 → Forall (task_ok K) (pending sys) →
    SysI K (_setBusy (this w0)) (install id caller st sys).
Proof.
  induction st as [w r|w q k IH|q k rest IH] using Step_induction;
    intros id caller sys w0 HJ HI Hp; cbn.
  - destruct HJ as ([] & [HG Hb] & _). split; [by apply HG|done].
  - destruct HJ as ([] & [HG Hb] & _ & Hk). split; [by apply HG|].
    split; [done|]. cbn.
    apply Forall_app. split; [done|]. apply Forall_singleton.
    intros r w' Hr. cbn. by apply Hk.
  - destruct HJ as [[_ Hk] Hrest]. eapply IH; [exact Hrest|exact HI|]. cbn.
    apply Forall_app. split; [done|]. apply Forall_singleton.
    intros r w' Hr. cbn. apply JI_returning; [by apply Hk|done].
Qed.

Lemma take_Some (id : nat) (l : list Task) t rest :
  take id l = Some (t, rest) → t ∈ l ∧ rest ⊆ l.
Proof.
  revert t rest. induction l as [|x l IH]; intros t rest; cbn; [done|].
  destruct (Nat.eqb (task_id x) id).
  - intros [= -> ->]. split; [left|]. intros y Hy. by right.
  - destruct (take id l) as [[t' l']|] eqn:E; cbn; [|done].
    intros [= -> <-]. destruct (IH _ _ eq_refl) as [Ht Hsub].
    split; [by right|]. intros y [->|Hy]%elem_of_cons; [left|right; auto].
Qed.

Lemma step_I K setBusy (sys : System) (e : Event) :
  SysI K setBusy sys → okE K e → SysI K setBusy (step sys e).
Proof.
  intros (HI & <- & Hp) He. destruct e as [c|id r|sender s|l|sp|err|k|b]; cbn.
  - eapply install_I; [apply invoke_JI|exact HI|done].
  - destruct (take id (pending sys)) as [[t rest]|] eqn:Et; [|done].
    destruct (fits _ _ _); [|done].
    apply take_Some in Et as [Ht Hsub].
    rewrite Forall_forall in Hp.
    eapply install_I; [by apply (Hp t Ht)|exact HI|].
    cbn. apply Forall_forall. intros x Hx. apply Hp. by apply Hsub.
  - destruct (deliver_I K sender s (world sys) HI He) as (w1 & Hd & HI1 & Hb).
    unfold returning. run. rewrite Hd. cbn. by split_and!.
  - split; [|done]. destruct HI as [(S1 & S2 & S3 & S4) HL].
    split; [|by eapply Ilease_frame].
    unfold Islots, kernel_invariant in *. cbn. split_and!; try done.
    intros HK. split; [by apply S4|by apply He].
  - split; [|done]. eapply Iall_views; [..|exact HI]; done.
  - split; [|done]. eapply Iall_views; [..|exact HI]; done.
  - split; [|done]. eapply Iall_views; [..|exact HI]; done.
  - split; [|done]. eapply Iall_views; [..|exact HI]; done.
Qed.

Lemma run_I K b (es : list Event) (sys : System) :
  SysI K b sys → Forall (okE K) es → SysI K b (run es sys).
Proof.
  revert sys. induction es as [|e es IH]; intros sys HS He; [done|].
  apply Forall_cons in He as [He Hes]. cbn. apply IH; [|done].
  by apply step_I.
Qed.

Lemma boot_I K (path name type : option string)
    (preference : option ISessionContext.IKernelPreference)
    (setBusy : option (nat → bool)) (uuid : string) (e : Services) :
  (K = true → Forall has_kernel (running e)) →
  SysI K setBusy
    (boot (new_SessionContext path name type preference setBusy uuid) e).
Proof.
  intros HK. split; [|done]. split.
  - unfold Islots, kernel_invariant. cbn. split_and!; try done.
    + by intros c ?%elem_of_nil.
    + intros HK'. split; [done|by apply HK].
  - unfold Ilease, held, last_status. cbn. split_and!; try done.
    + by intros l ?%elem_of_nil.
    + intros l. unfold occurrences. cbn. lia.
Qed.

(** ** The busy lease and the attached connection, after any events *)

Lemma okE_false (es : list Event) : Forall (okE false) es.
Proof.
  apply Forall_forall. intros e _. destruct e; cbn; try done.
  all: unfold okK; by intros.
Qed.

Lemma started_I path name type preference setBusy uuid e es :
  SysI false setBusy (started path name type preference setBusy uuid e es).
Proof.
  apply run_I; [|apply okE_false]. apply boot_I. by intros.
Qed.

Lemma handleNewSession_trace (s : SessionConnection.t) (w : World) :
  (∀ c, c ∈ slots w →
     ∃ s0, _session (this w) = Some s0 ∧ c.1 = SessionConnection.obj s0) →
  _isDisposed (this w) = false →
  ∃ w', _handleNewSession s w = Done w' (inl (SessionConnection.kernel s)) ∧
    _session (this w') = Some s ∧
    (∀ c, c ∈ slots w' → c.1 = SessionConnection.obj s) ∧
    trace w' = trace w ++ detach (_session (this w)) ++ attach s ++
               renamed s (this w) ++
               [Emit (KernelChanged None (SessionConnection.kernel s))].
Proof.
  intros Hinv Hd. unfold _handleNewSession, session_dispose, connect,
    _onPropertyChanged, renamed. run. rewrite Hd. cbn.
  assert (Hslots : ∀ l : list (nat * Channel),
    ∀ c, c ∈ add_slot (SessionConnection.obj s, ChUnhandledMessage)
      (add_slot (SessionConnection.obj s, ChIopubMessage)
      (add_slot (SessionConnection.obj s, ChConnectionStatusChanged)
      (add_slot (SessionConnection.obj s, ChStatusChanged)
      (add_slot (SessionConnection.obj s, ChKernelChanged)
      (add_slot (SessionConnection.obj s, ChPropertyChanged)
      (add_slot (SessionConnection.obj s, ChDisposed) l)))))) →
      c ∈ l ∨ c.1 = SessionConnection.obj s).
  { intros l c Hc.
    repeat (apply elem_of_add_slot in Hc as [->|Hc]; [by right|]).
    by left. }
  destruct (_session (this w)) as [old|] eqn:Es; cbn;
    destruct (String.eqb (SessionConnection.path s) (_path (this w))); cbn;
    destruct (String.eqb (SessionConnection.name s) (_name (this w))); cbn;
    destruct (String.eqb (SessionConnection.type s) (_type (this w))); cbn.
  all: eexists; split_and!; [reflexivity|reflexivity| |
    cbn; rewrite <- ?app_assoc; reflexivity].
  all: cbn; intros c [Hc|Hc]%Hslots; [|done]; exfalso.
  all: try (apply elem_of_drop_slots in Hc as [Hne Hc]).
  all: destruct (Hinv c Hc) as (s0 & E0 & E1); congruence.
Qed.

Lemma deliver_stale (sender : SessionConnection.t) (sig : Signal) (w : World) :
  (∀ c, c ∈ slots w →
     ∃ s0, _session (this w) = Some s0 ∧ c.1 = SessionConnection.obj s0) →
  (∀ s, _session (this w) = Some s →
        SessionConnection.obj s ≠ SessionConnection.obj sender) →
  deliver sender sig w = Done w (inl tt).
Proof.
  intros Hinv Hne.
  assert (Hr : refresh sender (this w) = this w).
  { unfold refresh. destruct (_session (this w)) as [s|] eqn:Es; [|done].
    destruct (Nat.eqb_spec (SessionConnection.obj s)
                (SessionConnection.obj sender)); [|done].
    by destruct (Hne s). }
  rewrite deliver_unfold. unfold with_this. rewrite Hr.
  destruct w as [c e sl t]; cbn in *. unfold deliver_connected. run.
  case_bool_decide as Hin; [|done].
  destruct (Hinv _ Hin) as (s0 & E0 & E1). cbn in E1.
  by destruct (Hne s0 E0).
Qed.

(** C9.  After any events, in the state [w] of a context:
    - every connected slot is a slot of the attached connection, so no
      slot of a connection that was replaced or detached remains;
    - a signal of any connection other than the attached one changes
      nothing: no handler runs and nothing is emitted;
    - the attached connection was made before any connection made later,
      so a later connection is a different object;
    - attaching a connection [s] (in a context that is not disposed)
      disposes the outgoing connection first, then connects the seven
      signals of [s], then reports renamed properties, and then emits
      [kernelChanged] with [oldValue] null and the kernel of [s]; after
      it, every connected slot is a slot of [s]. *)
Theorem replaced_connection_is_silent (path name type : option string)
    (preference : option ISessionContext.IKernelPreference)
    (setBusy : option (nat → bool)) (uuid : string) (e : Services) (es : list Event) :
  let sys := started path name type preference setBusy uuid e es in
  let w := world sys in
  (∀ c, c ∈ slots w →
     ∃ s, _session (this w) = Some s ∧ c.1 = SessionConnection.obj s) ∧
  (∀ sender sig,
     (∀ s, _session (this w) = Some s →
           SessionConnection.obj s ≠ SessionConnection.obj sender) →
     world (step sys (Signalled sender sig)) = w ∧
     pending (step sys (Signalled sender sig)) = pending sys) ∧
  (∀ s, _session (this w) = Some s →
        (SessionConnection.obj s < next_obj (services w))%nat) ∧
  (∀ s, _isDisposed (this w) = false →
     ∃ w', _handleNewSession s w =
             Done w' (inl (SessionConnection.kernel s)) ∧
       _session (this w') = Some s ∧
       (∀ c, c ∈ slots w' → c.1 = SessionConnection.obj s) ∧
       trace w' = trace w ++ detach (_session (this w)) ++ attach s ++
                  renamed s (this w) ++
                  [Emit (KernelChanged None (SessionConnection.kernel s))]).
Proof.
  intros sys w.
  destruct (started_I path name type preference setBusy uuid e es)
    as ([(S1 & S2 & _) _] & _). fold sys in S1, S2. fold w in S1, S2.
  split_and!.
  - exact S1.
  - intros sender sig Hne. cbn. unfold returning, mbind, Async_bind.
    fold w. by rewrite (deliver_stale sender sig w S1 Hne).
  - exact S2.
  - intros s Hd. by apply handleNewSession_trace.
Qed.

(** ** Readiness: the startup of [initialize()] *)

Arguments JQ {A} w0 st : simpl never.

Ltac ready := first [reflexivity | unfold ready_view; cbn;
  rewrite ?filter_app; cbn; rewrite ?app_nil_r; reflexivity].

Lemma GR_trans p1 w1 p2 w2 p3 w3 :
  GR p1 w1 p2 w2 → GR p2 w2 p3 w3 → GR p1 w1 p3 w3.
Proof.
  destruct p1, p2, p3; cbn; try done; try congruence.
  all: intros [? ?] [? ?]; done.
Qed.

Lemma JQ_done {A} (w0 w : World) (r : A + JsError) :
  ready_view w = ready_view w0 → JQ w0 (Done w r).
Proof. intros. exists false. done. Qed.

Lemma JQ_bind {A B} (w0 : World) (st : Step A) (f : A → Async B) :
  JQ w0 st → (∀ a w, JQ w (f a w)) → JQ w0 (bindS st f).
Proof.
  intros H1 H2. unfold JQ, JR.
  eapply J_bind; [apply GR_trans|exact H1| |done].
  intros p a w ->. apply H2.
Qed.

Lemma JQ_catch {A} (w0 : World) (st : Step A) (h : JsError → Async A) :
  JQ w0 st → (∀ e w, JQ w (h e w)) → JQ w0 (catchS st h).
Proof.
  intros H1 H2. unfold JQ, JR.
  eapply J_catch; [apply GR_trans|exact H1| |done].
  intros p e w ->. apply H2.
Qed.

Lemma JQ_rebase {A} (w0 w : World) (st : Step A) :
  ready_view w = ready_view w0 → JQ w st → JQ w0 st.
Proof.
  intros HG H. unfold JQ, JR.
  eapply J_rebase; [apply GR_trans| |exact H]. exact HG.
Qed.

Lemma hns_ready (s : SessionConnection.t) (w : World) :
  ∃ w' r, _handleNewSession s w = Done w' r ∧ ready_view w' = ready_view w.
Proof.
  unfold _handleNewSession, session_dispose, connect, _onPropertyChanged.
  run. destruct (_isDisposed (this w)); cbn; [by eexists _, _|].
  destruct (_session (this w)) as [old|]; cbn;
  destruct (negb (SessionConnection.path s =? _path (this w))%string); cbn;
  destruct (negb (SessionConnection.name s =? _name (this w))%string); cbn;
  destruct (negb (SessionConnection.type s =? _type (this w))%string); cbn;
  (eexists _, _; split; [reflexivity|ready]).
Qed.

Lemma JQ_susp {A} (w0 w : World) (q : Request)
    (k : Response → World → Step A) :
  ready_view w = ready_view w0 →
  (∀ r w', quiet_rely q r w' → JQ w' (k r w')) →
  JQ w0 (Susp w q k).
Proof. intros HG Hk. exists false. split; [exact HG|]. split; [done|exact Hk]. Qed.

Lemma JQ_fork {A} (w0 : World) (q : Request)
    (k : Response → World → Step unit) (rest : Step A) :
  (∀ r w', quiet_rely q r w' → JQ w' (k r w')) → JQ w0 rest →
  JQ w0 (Fork q k rest).
Proof.
  intros Hk Hrest. split; [|exact Hrest]. split; [done|].
  intros r w' Hr. eapply J_conseq; [|exact (Hk r w' Hr)]. done.
Qed.

Ltac qleaf := apply JQ_done; ready.
Ltac qsusp := apply JQ_susp; [ready|].

(** The detached error dialog. *)
Lemma handleSessionError_quiet {A} (err : JsError) (w0 w : World)
    (f : unit → Async A) :
  ready_view w = ready_view w0 →
  (∀ w1, ready_view w1 = ready_view w0 → JQ w0 (f tt w1)) →
  JQ w0 (bindS (voidS (_handleSessionError err w)) f).
Proof.
  intros HG Hf. unfold _handleSessionError.
  destruct err; run; try (apply Hf; done).
  apply JQ_fork.
  - intros r w' _. destruct r as [v|e]; cbn; [|qleaf].
    apply JQ_fork; [|qleaf].
    intros r' w'' _. destruct r'; cbn; qleaf.
  - apply Hf. rewrite <- HG. ready.
Qed.

Lemma JQ_throw_after_error {A} (err : JsError) (w0 w : World) :
  ready_view w = ready_view w0 →
  JQ w0 (bindS (voidS (_handleSessionError err w))
               (λ _ w1, Done w1 (inr err) : Step A)).
Proof.
  intros. apply handleSessionError_quiet; [done|].
  intros. by apply JQ_done.
Qed.

Lemma startSession_quiet (model : Kernel.IModel) (w : World) :
  JQ w (_startSession model w).
Proof.
  unfold _startSession. run.
  destruct (_isDisposed (this w)) eqn:Hd; cbn; [qleaf|].
  qsusp. intros r w' _. destruct r as [v|e]; cbn.
  - destruct v; cbn; try (apply JQ_throw_after_error; ready).
    match goal with |- context [_handleNewSession ?a ?b] =>
      destruct (hns_ready a b) as (w2 & r & -> & Hv) end.
    destruct r as [k|e]; cbn.
    + apply JQ_done. rewrite Hv. ready.
    + apply JQ_throw_after_error. rewrite Hv. ready.
  - apply JQ_throw_after_error; ready.
Qed.

Lemma changeKernel_quiet (options : Kernel.IModel) (w : World) :
  JQ w (_changeKernel options w).
Proof.
  unfold _changeKernel. run.
  destruct (_isDisposed (this w)) eqn:Hd; cbn; [qleaf|].
  destruct (_session (this w)) as [s|] eqn:Es; cbn;
    [|apply startSession_quiet].
  destruct (SessionConnection.kernel s) as [k|]; cbn; [|qleaf].
  destruct (negb _); cbn; [|apply startSession_quiet].
  qsusp. intros r w' _. destruct r as [v|e]; cbn; [|qleaf].
  destruct v; cbn; qleaf.
Qed.

Lemma shutdown_quiet (w : World) : JQ w (shutdown w).
Proof.
  unfold shutdown. run.
  destruct (_session (this w)) as [s|]; cbn; [|qleaf].
  qsusp. intros r w' _. destruct r; cbn; qleaf.
Qed.

Lemma selectKernel_quiet (cancelable : bool) (w : World) :
  JQ w (_selectKernel cancelable w).
Proof.
  unfold _selectKernel. run.
  destruct (_isDisposed (this w)) eqn:Hd; cbn; [qleaf|].
  destruct (Private.populateKernelSelect _ _); cbn; [qleaf|].
  qsusp. intros r w' _. destruct r as [v|e]; cbn; [|qleaf].
  destruct v as [| | | | |accept value]; cbn; try qleaf.
  destruct (_isDisposed (this w') || negb accept); cbn; [qleaf|].
  destruct value as [model|]; cbn.
  - destruct (_session (this w')); cbn;
      (eapply JQ_rebase; [|apply JQ_bind; [apply changeKernel_quiet|]];
       [ready|intros; qleaf]).
  - destruct (_session (this w')); cbn; [|qleaf].
    eapply JQ_rebase; [|apply shutdown_quiet]. ready.
Qed.

Lemma startIfNecessary_quiet (w : World) : JQ w (_startIfNecessary w).
Proof.
  unfold _startIfNecessary. run.
  destruct (_ || _); cbn; [qleaf|].
  assert (∀ started w1, JQ w1
    ((if started : bool then mret () else _selectKernel false) w1)) as Hk.
  { intros [] w1; [qleaf|apply selectKernel_quiet]. }
  destruct (Js.truthy (ISessionContext.id _)); cbn.
  - apply JQ_bind; [|exact Hk].
    apply JQ_catch; [|intros; qleaf].
    apply JQ_bind; [apply changeKernel_quiet|intros; qleaf].
  - destruct (Js.truthy (Private.getDefaultKernel _ _)); cbn.
    + apply JQ_bind; [|exact Hk].
      apply JQ_catch; [|intros; qleaf].
      apply JQ_bind; [apply changeKernel_quiet|intros; qleaf].
    + apply selectKernel_quiet.
Qed.

Lemma restartKernel_quiet (kernel : KernelConnection.t) (w : World) :
  JQ w (restartKernel kernel w).
Proof.
  unfold restartKernel. run.
  qsusp. intros r w' _. destruct r as [v|e]; cbn; [|qleaf].
  destruct v as [| | | | |accept value]; cbn; try qleaf.
  destruct (bool_decide _); cbn; [qleaf|].
  destruct accept; cbn; [|qleaf].
  qsusp. intros r w'' _. destruct r; cbn; qleaf.
Qed.

(** A run of no part in the startup, taken up by the startup. *)
Lemma JQ_owner {A} (st : Step A) (w0 : World) :
  JQ w0 st → ready_view w0 = starting_view →
  JR true w0 st (λ p r w,
    ready_view w = starting_view ∧
    match r with
    | inl _ => p = true
    | inr _ => p = false
    end).
Proof.
  revert w0. unfold JQ, JR.
  induction st as [w r|w q k IH|q k rest IH] using Step_induction;
    cbn; intros w0.
  - intros ([|] & HG & _) Hv; [done|]. cbn in HG.
    destruct r; [exists true|exists false]; cbn; rewrite HG, Hv; auto.
  - intros ([|] & HG & _ & Hk) Hv; [done|]. cbn in HG, Hk.
    exists true. cbn. rewrite HG, Hv. split; [auto|]. split; [done|].
    intros r w' Hr. apply IH; [|done]. apply Hk.
    intros _. unfold nonfresh. unfold ready_view, starting_view in Hr.
    injection Hr as -> _ _ _. done.
  - intros [Hf Hrest] Hv. split; [exact Hf|]. by apply IH.
Qed.

Lemma initialize_coalesced (w : World) :
  nonfresh w →
  ∃ k, initialize w = Susp w ReadyPromise k ∧
    ∀ r w', k r w' =
      Done w' match r with Resolved _ => inl tt | Rejected e => inr e end.
Proof.
  unfold nonfresh. intros H. unfold initialize. run. rewrite H. cbn.
  eexists. split; [reflexivity|]. by intros [v|e] w'.
Qed.

Lemma initialize_quiet (w : World) :
  nonfresh w → JR false w (initialize w) after_initialize.
Proof.
  intros H. destruct (initialize_coalesced w H) as (k & -> & Hk).
  exists false. split; [done|]. split; [done|].
  intros r w' Hr. rewrite Hk. exists false. split; [done|].
  split; [done|]. intros a Ha. by apply Hr.
Qed.

(** Attaching to the running session of the same path. *)
Lemma attach_quiet (w : World) :
  JQ w
    (match List.find
             (λ item, String.eqb (Session.path item) (_path (this w)))
             (running (services w)) with
     | Some model =>
         try_catch
           (session ← connectTo model;
            _handleNewSession session;; mret tt)
           (λ err, void (_handleSessionError err);; throw err)
     | None => mret tt
     end w).
Proof.
  destruct (List.find _ _) as [model|]; [|qleaf].
  unfold connectTo. run.
  destruct (connectTo_throws (services w)) as [err|]; cbn.
  { apply JQ_throw_after_error. ready. }
  match goal with |- context [_handleNewSession ?a ?b] =>
    destruct (hns_ready a b) as (w2 & r & -> & Hv) end.
  destruct r as [k|e]; cbn.
  - apply JQ_done. rewrite Hv. ready.
  - apply JQ_throw_after_error. rewrite Hv. ready.
Qed.

(** The startup, however its promises settle: when it completes, the
    context is ready; when it is rejected, the context is left
    initializing, not ready, with the ready promise not resolved. *)
Lemma initialize_ends (w : World) :
  ready_view w = fresh_view → JR true w (initialize w) startup_ends.
Proof.
  intros Hv. pose proof Hv as Hv'.
  unfold ready_view, fresh_view in Hv'. injection Hv' as Hi Hr Hp Ht.
  unfold initialize. run. rewrite Hi, Hr. cbn.
  exists true. split.
  { split; [by left|]. unfold ready_view, starting_view. cbn.
    by rewrite Hr, Hp, Ht. }
  split; [done|]. intros r w' Hw'. cbn in Hw'.
  destruct r as [v|e]; cbn.
  2:{ exists false. split; [|done]. cbn. auto. }
  unfold JR. eapply J_bind; [apply GR_trans| | |].
  - apply JQ_owner; [apply attach_quiet|exact Hw'].
  - cbn. intros p _ w1 [Hw1 ->]. run.
    eapply J_bind; [apply GR_trans| | |].
    + apply JQ_owner; [apply startIfNecessary_quiet|exact Hw1].
    + cbn. intros p _ w2 [Hw2 ->].
      unfold ready_view, starting_view in Hw2.
      injection Hw2 as Hi2 Hr2 Hp2 Ht2.
      assert (ready_view
        (with_this (set_ready true)
           (with_trace (λ t, t ++ [ReadyResolve])
              (with_this (set_isReady true) w2))) = ready_done_view) as Hd.
      { unfold ready_view, ready_done_view. cbn.
        rewrite Hi2, filter_app, Ht2. done. }
      exists false. split.
      * cbn. split; [right; unfold ready_view, starting_view; congruence|].
        by right.
      * done.
    + cbn. intros p e w2 [Hw2 ->]. done.
  - cbn. intros p e w1 [Hw1 ->]. done.
Qed.

Lemma initialize_startup (w : World) :
  ready_view w = fresh_view → JR true w (initialize w) made_ready.
Proof.
  intros Hv. unfold JR. eapply J_conseq; [|by apply initialize_ends].
  intros p r w1 [-> Hr]. split; [done|]. by intros a ->.
Qed.

Lemma initialize_owner (w : World) :
  ready_view w = fresh_view → JR true w (initialize w) after_initialize.
Proof.
  intros Hv. unfold JR. eapply J_conseq; [|by apply initialize_startup].
  intros p r w1 [-> Hr]. split; [done|]. intros a Ha.
  specialize (Hr a Ha). unfold nonfresh.
  unfold ready_view, ready_done_view in Hr. injection Hr as -> _ _ _. done.
Qed.

(** A method that begins with [await this.initialize()]. *)
Lemma after_initialize_R {A} (p : bool) (rest : Async A) (w : World) :
  (if p then ready_view w = fresh_view else nonfresh w) →
  (∀ w1, nonfresh w1 → JQ w1 (rest w1)) →
  JR p w ((initialize;; rest) w) (λ p _ _, p = false).
Proof.
  intros Hp Hrest. run. unfold JR.
  eapply J_bind; [apply GR_trans| | |].
  - destruct p; [by apply initialize_owner|by apply initialize_quiet].
  - cbn. intros p' a w1 [-> Hn]. apply Hrest. by apply (Hn a).
  - cbn. by intros p' e w1 [-> _].
Qed.

Lemma public_changeKernel_R (p : bool) (options : Kernel.IModel) (w : World) :
  (if p then ready_view w = fresh_view else nonfresh w) →
  JR p w (changeKernel options w) (λ p _ _, p = false).
Proof.
  intros Hp. unfold changeKernel. apply after_initialize_R; [done|].
  intros w1 _. run.
  destruct (_isDisposed (this w1)); cbn; [qleaf|apply changeKernel_quiet].
Qed.

Lemma public_selectKernel_R (p : bool) (w : World) :
  (if p then ready_view w = fresh_view else nonfresh w) →
  JR p w (selectKernel w) (λ p _ _, p = false).
Proof.
  intros Hp. unfold selectKernel. apply after_initialize_R; [done|].
  intros w1 _. run.
  destruct (_isDisposed (this w1)); cbn; [qleaf|apply selectKernel_quiet].
Qed.

Lemma restart_R (p : bool) (w : World) :
  (if p then ready_view w = fresh_view else nonfresh w) →
  JR p w (restart w) (λ p _ _, p = false).
Proof.
  intros Hp. unfold restart. apply after_initialize_R; [done|].
  intros w1 Hn. run.
  destruct (_isDisposed (this w1)); cbn; [qleaf|].
  destruct (session_kernel _); cbn; [apply restartKernel_quiet|].
  destruct (Js.truthy _); cbn; [|qleaf].
  apply JQ_bind; [|intros; qleaf].
  by apply (public_changeKernel_R false).
Qed.

Lemma dispose_quiet (w : World) : JQ w (dispose w).
Proof.
  unfold dispose, session_dispose, clearData. run.
  destruct (_isDisposed (this w)) eqn:Hd; cbn; [qleaf|].
  destruct (_session (this w)) as [s|] eqn:Es; cbn;
    [destruct (Js.truthy_bool _); cbn|];
    destruct (_dialog (this w)) eqn:Ed; cbn;
    destruct (_busyDisposable (this w)) as [lease|] eqn:Eb; cbn;
    rewrite ?Hd, ?Es, ?Ed, ?Eb; cbn.
  all: try qleaf.
  all: apply JQ_fork; [|qleaf].
  all: intros r w' _; destruct r; cbn; qleaf.
Qed.

Lemma deliver_quiet (sender : SessionConnection.t) (s : Signal) (w : World) :
  ∃ w1, deliver sender s w = Done w1 (inl tt) ∧
        ready_view w1 = ready_view w.
Proof.
  rewrite deliver_unfold.
  assert (ready_view (with_this (refresh sender) w) = ready_view w) as <-.
  { unfold refresh, ready_view. cbn. destruct (_session (this w)); [|done].
    by destruct (Nat.eqb _ _). }
  generalize (with_this (refresh sender) w). clear w. intros w.
  unfold deliver_connected. run.
  case_bool_decide; cbn; [|by eexists].
  destruct s; cbn.
  - unfold _onSessionDisposed, session_dispose. run.
    destruct (_session (this w)); cbn; eexists; (split; [reflexivity|ready]).
  - unfold _onPropertyChanged. run.
    destruct p; cbn; eexists; (split; [reflexivity|ready]).
  - unfold _onKernelChanged. run. eexists; (split; [reflexivity|ready]).
  - unfold _onStatusChanged. run.
    destruct (_setBusy (this w)); cbn;
      [destruct (String.eqb status "busy"); cbn;
       destruct (_busyDisposable (this w)); cbn|];
      eexists; (split; [reflexivity|ready]).
  - unfold _onConnectionStatusChanged. run.
    eexists; (split; [reflexivity|ready]).
  - unfold _onIopubMessage. run. eexists; (split; [reflexivity|ready]).
  - unfold _onUnhandledMessage. run. eexists; (split; [reflexivity|ready]).
Qed.

Lemma invoke_R (p : bool) (c : Call) (w : World) :
  (if p then ready_view w = fresh_view ∧ starts c = true
   else nonfresh w ∨ starts c = false) →
  JR p w (invoke c w) (λ p _ _, p = false).
Proof.
  intros Hp.
  assert (starts c = true →
          if p then ready_view w = fresh_view else nonfresh w) as Hs.
  { intros Hc. destruct p; [apply Hp|]. destruct Hp as [?|Hp]; [done|congruence]. }
  assert (∀ {A} (f : A → Value) (m : Async A),
    JR p w (m w) (λ p _ _, p = false) →
    JR p w (returning f m w) (λ p _ _, p = false)) as Hret.
  { intros A f m Hm. unfold returning. run. unfold JR.
    eapply J_bind; [apply GR_trans|exact Hm| |done].
    cbn. intros p' a w1 ->. by exists false. }
  destruct c; cbn [invoke]; apply Hret.
  - unfold JR. eapply J_conseq; [|destruct p;
      [apply initialize_owner|apply initialize_quiet]; by apply Hs].
    by intros ? ? ? [? _].
  - apply public_changeKernel_R. by apply Hs.
  - apply public_selectKernel_R. by apply Hs.
  - destruct p; [by destruct Hp|]. apply shutdown_quiet.
  - apply restart_R. by apply Hs.
  - destruct p; [by destruct Hp|]. apply dispose_quiet.
  - destruct p; [by destruct Hp|]. unfold set_kernelPreference_. run.
    by exists false.
Qed.

(** ** The pool of suspended methods *)

Lemma JQ_intro {A} (st : Step A) (w0 : World) :
  JR false w0 st (λ _ _ _, True) → JQ w0 st.
Proof.
  revert w0. unfold JQ, JR.
  induction st as [w r|w q k IH|q k rest IH] using Step_induction;
    cbn; intros w0.
  - intros ([|] & HG & _); [done|]. by exists false.
  - intros ([|] & HG & _ & Hk); [done|]. exists false.
    split; [done|]. split; [done|]. intros r w' Hr. by apply IH, Hk.
  - intros [Hf Hrest]. split; [exact Hf|]. by apply IH.
Qed.

Lemma Pool_snoc_quiet (own : bool) (l : list Task) (t : Task) :
  Pool own l → task_quiet t → Pool own (l ++ [t]).
Proof.
  destruct own; cbn.
  - intros (l1 & t0 & l2 & -> & Ht0 & H1 & H2) Ht.
    exists l1, t0, (l2 ++ [t]). split; [by rewrite <- app_assoc|].
    split; [done|]. split; [done|]. apply Forall_app. by split; [|apply Forall_singleton].
  - intros Hl Ht. apply Forall_app. by split; [|apply Forall_singleton].
Qed.

Lemma Pool_snoc_owner (l : list Task) (t : Task) :
  Pool false l → task_owner t → Pool true (l ++ [t]).
Proof.
  cbn. intros Hl Ht. exists l, t, []. by split_and!.
Qed.

Lemma take_quiet (id : nat) (l : list Task) t rest :
  Forall task_quiet l → take id l = Some (t, rest) →
  task_quiet t ∧ Forall task_quiet rest.
Proof.
  intros Hl [Ht Hsub]%take_Some. rewrite Forall_forall in Hl.
  split; [by apply Hl|]. apply Forall_forall. intros x Hx. by apply Hl, Hsub.
Qed.

Lemma take_app (id : nat) (l1 l2 : list Task) :
  take id (l1 ++ l2) =
    match take id l1 with
    | Some (t, rest) => Some (t, rest ++ l2)
    | None => '(t, rest) ← take id l2; Some (t, l1 ++ rest)
    end.
Proof.
  induction l1 as [|x l1 IH]; cbn.
  - by destruct (take id l2) as [[? ?]|].
  - destruct (Nat.eqb (task_id x) id); [done|]. rewrite IH.
    destruct (take id l1) as [[? ?]|]; cbn; [done|].
    by destruct (take id l2) as [[? ?]|].
Qed.

Lemma Pool_take (own : bool) (id : nat) (l : list Task) t rest :
  Pool own l → take id l = Some (t, rest) →
  (task_quiet t ∧ Pool own rest) ∨
  (own = true ∧ task_owner t ∧ Pool false rest).
Proof.
  destruct own; cbn.
  - intros (l1 & t0 & l2 & -> & Ht0 & H1 & H2). rewrite take_app.
    destruct (take id l1) as [[t1 r1]|] eqn:E1.
    + intros [= -> <-]. left. destruct (take_quiet _ _ _ _ H1 E1) as [? ?].
      split; [done|]. by exists r1, t0, l2.
    + cbn. destruct (Nat.eqb (task_id t0) id).
      * intros [= <- <-]. right. split_and!; [done..|].
        apply Forall_app. by split.
      * destruct (take id l2) as [[t2 r2]|] eqn:E2; cbn; [|done].
        intros [= -> <-]. left.
        destruct (take_quiet _ _ _ _ H2 E2) as [? ?].
        split; [done|]. by exists l1, t0, r2.
  - intros Hl Ht. left. by eapply take_quiet.
Qed.

Lemma readyState_view (w0 w : World) :
  ready_view w = ready_view w0 → readyState (this w) = readyState (this w0).
Proof.
  unfold ready_view, readyState. by intros [= -> -> _ _].
Qed.

Lemma advances_refl (a : ReadyState) : advances a a.
Proof. unfold advances. lia. Qed.

Lemma advances_trans (a b c : ReadyState) :
  advances a b → advances b c → advances a c.
Proof. unfold advances. lia. Qed.

Lemma GR_advances (p0 p : bool) (w0 w : World) :
  GR p0 w0 p w →
  advances (readyState (this w0)) (readyState (this w)).
Proof.
  unfold advances, readyState, ready_view, fresh_view, starting_view,
    ready_done_view.
  destruct p0, p; cbn; try done.
  - intros [[[= -> -> _ _]|[= -> -> _ _]] [= -> -> _ _]]; cbn; lia.
  - intros [[[= -> -> _ _]|[= -> -> _ _]]
      [[= -> -> _ _]|[= -> -> _ _]]]; cbn; lia.
  - intros [= -> -> _ _]. lia.
Qed.

Lemma GR_view_ok (p0 p : bool) (w0 w : World) :
  GR p0 w0 p w → view_ok w0 → view_ok w.
Proof.
  unfold view_ok. destruct p0, p; cbn; try done.
  - intros [_ ->] _. auto.
  - intros [_ [->| ->]] _; auto.
  - by intros ->.
Qed.

Lemma install_R (st : Step Value) :
  ∀ id caller sys p w0 own,
    JR p w0 st (λ _ _ _, True) → view_ok w0 → Pool own (pending sys) →
    (p = true → own = false) →
    (own = true → ready_view w0 = starting_view) →
    ∃ own', SysR own' (install id caller st sys) ∧
      advances (readyState (this w0))
               (readyState (this (world (install id caller st sys)))) ∧
      (p = false → own' = own ∧
         ready_view (world (install id caller st sys)) = ready_view w0) ∧
      (is_Some (outcome st) → own = false → own' = false).
Proof.
  unfold JR.
  induction st as [w r|w q k IH|q k rest IH] using Step_induction;
    intros id caller sys p w0 own HJ Hv Hp Hpo Hov; cbn.
  - destruct HJ as (p' & HG & _). exists own.
    split; [|split; [by eapply GR_advances|split; [|done]]].
    + split; [done|]. split; [by eapply GR_view_ok|].
      intros ->. destruct p; [by specialize (Hpo eq_refl)|].
      destruct p'; [done|]. cbn in HG. cbn. rewrite HG. by apply Hov.
    + intros ->. destruct p'; [done|]. by split.
  - destruct HJ as (p' & HG & _ & Hk). cbn in Hk.
    destruct p'.
    + (* suspended in the startup *)
      destruct p; [|done]. specialize (Hpo eq_refl) as ->.
      exists true. split; [|split; [by eapply GR_advances|split; [done|]]].
      * split; [|split; [by eapply GR_view_ok|]].
        -- cbn [pending]. apply Pool_snoc_owner; [done|].
           intros r w' Hr. cbn. by apply Hk.
        -- intros _. by destruct HG as [_ ?].
      * by intros [? [=]].
    + exists own. split; [|split; [by eapply GR_advances|split; [|done]]].
      * split; [|split; [by eapply GR_view_ok|]].
        -- cbn [pending]. apply Pool_snoc_quiet; [done|].
           intros r w' Hr. cbn. by apply JQ_intro, Hk.
        -- intros ->. destruct p; [by specialize (Hpo eq_refl)|].
           cbn in HG. cbn. rewrite HG. by apply Hov.
      * intros ->. by split.
  - destruct HJ as [[_ Hk] Hrest].
    eapply IH; [exact Hrest|exact Hv| |exact Hpo|exact Hov].
    cbn [pending]. apply Pool_snoc_quiet; [done|].
    intros r w' Hr. cbn. apply JQ_bind; [by apply JQ_intro, Hk|].
    intros a w1. by apply JQ_done.
Qed.

Lemma view_cases (w : World) :
  view_ok w →
  (ready_view w = fresh_view ∧ ¬ nonfresh w) ∨
  (ready_view w ≠ fresh_view ∧ nonfresh w).
Proof.
  unfold nonfresh, view_ok.
  intros [H|[H|H]]; rewrite H; pose proof H as H';
    unfold ready_view in H'; injection H' as Hi Hr _ _; rewrite Hi, Hr;
    [left|right..]; done.
Qed.

Lemma fits_ready (w : World) (r : Response) :
  view_ok w → fits w ReadyPromise r = true → nonfresh w.
Proof.
  intros Hv Hf.
  assert (_ready (this w) = true) as Hr.
  { destruct r as [[]|]; done. }
  unfold nonfresh. destruct Hv as [H|[H|H]];
    unfold ready_view in H; injection H as Hi Hy Hp _; try congruence.
  by rewrite Hi.
Qed.

Lemma services_view (f : Services → Services) (w : World) :
  ready_view (with_services f w) = ready_view w.
Proof. done. Qed.

Lemma step_R (own : bool) (sys : System) (e : Event) :
  SysR own sys →
  ∃ own', SysR own' (step sys e) ∧
    advances (readyState (this (world sys)))
             (readyState (this (world (step sys e)))) ∧
    (own = false → nonfresh (world sys) →
       own' = false ∧
       ready_view (world (step sys e)) = ready_view (world sys)).
Proof.
  intros (Hp & Hv & Hov).
  assert (∀ id caller st p own0 sys0,
    JR p (world sys) st (λ _ _ _, True) →
    Pool own0 (pending sys0) →
    (if p then own0 = false ∧ (own = true ∨ ¬ nonfresh (world sys))
     else own0 = own) →
    ∃ own', SysR own' (install id caller st sys0) ∧
      advances (readyState (this (world sys)))
               (readyState (this (world (install id caller st sys0)))) ∧
      (own = false → nonfresh (world sys) →
         own' = false ∧
         ready_view (world (install id caller st sys0)) =
           ready_view (world sys))) as Hinst.
  { intros id caller st p own0 sys0 HJ Hrest Hcase.
    destruct (install_R st id caller sys0 p (world sys) own0)
      as (own' & HS & Ha & Hq & _); [done|done|done| | |].
    - intros ->. by destruct Hcase.
    - intros ->. destruct p; [by destruct Hcase|]. by apply Hov.
    - exists own'. split; [done|]. split; [done|].
      intros -> Hn. destruct p.
      + by destruct Hcase as [_ [?|?]].
      + subst own0. by apply Hq. }
  assert (∀ {A} p (st : Step A) Q,
    JR p (world sys) st Q → JR p (world sys) st (λ _ _ _, True)) as Hc.
  { intros A p st Q HJ. unfold JR. eapply J_conseq; [|exact HJ]. done. }
  destruct e as [c|id r|sender s|l|sp|err|k|b]; cbn [step].
  - destruct (view_cases _ Hv) as [[Hf Hn]|[Hf Hn]].
    + destruct (starts c) eqn:Hs.
      * apply (Hinst _ _ _ true false).
        -- eapply Hc. by apply invoke_R.
        -- destruct own; [|done]. specialize (Hov eq_refl).
           rewrite Hf in Hov. discriminate Hov.
        -- auto.
      * apply (Hinst _ _ _ false own); [|done|done].
        eapply Hc. apply invoke_R. by right.
    + apply (Hinst _ _ _ false own); [|done|done].
      eapply Hc. apply invoke_R. by left.
  - destruct (take id (pending sys)) as [[t rest]|] eqn:Et.
    2:{ exists own. split; [done|]. split; [apply advances_refl|done]. }
    destruct (fits _ _ _) eqn:Hfits.
    2:{ exists own. split; [done|]. split; [apply advances_refl|done]. }
    destruct (Pool_take _ _ _ _ _ Hp Et) as [[Ht Hrest]|(-> & Ht & Hrest)].
    + apply (Hinst _ _ _ false own); [|done|done].
      eapply Hc. apply Ht.
      intros Hq. rewrite Hq in Hfits. by eapply fits_ready.
    + apply (Hinst _ _ _ true false); [|done|auto].
      apply Ht. by apply Hov.
  - destruct (deliver_quiet sender s (world sys)) as (w1 & Hd & Hw1).
    unfold returning. run. rewrite Hd. cbn.
    exists own. split; [|split].
    + split; [done|]. split; cbn; [|by rewrite Hw1].
      unfold view_ok. by rewrite Hw1.
    + cbn. rewrite (readyState_view _ _ Hw1). apply advances_refl.
    + done.
  - exists own. split; [done|]. split; [apply advances_refl|done].
  - exists own. split; [done|]. split; [apply advances_refl|done].
  - exists own. split; [done|]. split; [apply advances_refl|done].
  - exists own. split; [done|]. split; [apply advances_refl|done].
  - exists own. split; [done|]. split; [apply advances_refl|done].
Qed.

Lemma run_R (es : list Event) :
  ∀ own sys, SysR own sys →
  ∃ own', SysR own' (run es sys) ∧
    advances (readyState (this (world sys)))
             (readyState (this (world (run es sys)))).
Proof.
  induction es as [|e es IH]; intros own sys HS; cbn.
  - exists own. split; [done|apply advances_refl].
  - destruct (step_R own sys e HS) as (own1 & HS1 & Ha1 & _).
    destruct (IH own1 _ HS1) as (own2 & HS2 & Ha2).
    exists own2. split; [done|]. by eapply advances_trans.
Qed.

Lemma boot_R (path name type : option string)
    (preference : option ISessionContext.IKernelPreference)
    (setBusy : option (nat → bool)) (uuid : string) (e : Services) :
  SysR false
    (boot (new_SessionContext path name type preference setBusy uuid) e).
Proof. split; [by apply Forall_nil|]. split; [by left|done]. Qed.

(** ** The sessions the startup makes *)

Lemma JC_creations {A} (st : Step A) :
  ∀ p w0 Q rs, JC p w0 st Q →
    (creations st rs ≤ if p then 0 else 1)%nat.
Proof.
  unfold JC.
  induction st as [w r|w q k IH|q k rest IH] using Step_induction;
    intros p w0 Q rs; cbn.
  - intros _. destruct p; lia.
  - intros (p' & -> & Hq & Hk). destruct rs as [|[r w'] rs]; [destruct p; lia|].
    specialize (IH r w' _ w' Q rs (Hk r w' I)).
    destruct p; cbn in *.
    + assert (creation q r = false) as ->; [|lia].
      specialize (Hq eq_refl). by destruct q.
    + destruct (creation q r); cbn in IH; lia.
  - intros [_ Hrest]. by eapply IH.
Qed.

Lemma JC_bind {A B} p0 w0 (st : Step A) (f : A → Async B) Q1 Q2 :
  JC p0 w0 st Q1 →
  (∀ p a w, Q1 p (inl a) w → JC p w (f a w) Q2) →
  (∀ p e w, Q1 p (inr e) w → Q2 p (inr e) w) →
  JC p0 w0 (bindS st f) Q2.
Proof. apply J_bind. congruence. Qed.

Lemma JC_catch {A} p0 w0 (st : Step A) (h : JsError → Async A) Q1 Q2 :
  JC p0 w0 st Q1 →
  (∀ p e w, Q1 p (inr e) w → JC p w (h e w) Q2) →
  (∀ p a w, Q1 p (inl a) w → Q2 p (inl a) w) →
  JC p0 w0 (catchS st h) Q2.
Proof. apply J_catch. congruence. Qed.

Lemma JC_done {A} p w0 w (r : A + JsError)
    (Q : bool → A + JsError → World → Prop) :
  Q p r w → JC p w0 (Done w r) Q.
Proof. intros. by exists p. Qed.

Lemma JC_susp {A} (p : bool) w0 w q (k : Response → World → Step A) Q :
  (p = true → is_StartNew q = false) →
  (∀ r w', JC (p || creation q r) w' (k r w') Q) →
  JC p w0 (Susp w q k) Q.
Proof. intros Hq Hk. exists p. split; [done|]. split; [done|]. intros. apply Hk. Qed.

Lemma JC_fork {A} (p : bool) w0 q (k : Response → World → Step unit)
    (rest : Step A) Q :
  JC p w0 rest Q → JC p w0 (Fork q k rest) Q.
Proof. intros H. split; [|exact H]. split; [done|]. by intros. Qed.

Arguments JC {A} p0 w0 st Q : simpl never.

(** The detached error dialog leaves the disposal flag alone. *)
Lemma handleSessionError_C {A} (p : bool) (err : JsError) (w0 w : World)
    (f : unit → Async A) Q :
  (∀ w1, _isDisposed (this w1) = _isDisposed (this w) →
         JC p w0 (f tt w1) Q) →
  JC p w0 (bindS (voidS (_handleSessionError err w)) f) Q.
Proof.
  intros Hf. unfold _handleSessionError.
  destruct err; run; try (apply Hf; done).
  apply JC_fork. by apply Hf.
Qed.

Lemma hns_disposed_C (s : SessionConnection.t) (w : World) :
  ∃ w' r, _handleNewSession s w = Done w' r ∧
    _isDisposed (this w') = _isDisposed (this w) ∧
    (∀ e, r = inr e → _isDisposed (this w) = true).
Proof.
  unfold _handleNewSession, session_dispose, connect, _onPropertyChanged.
  run. destruct (_isDisposed (this w)) eqn:Hd; cbn.
  { eexists _, _. split; [reflexivity|]. by rewrite Hd. }
  destruct (_session (this w)) as [old|]; cbn;
  destruct (negb (SessionConnection.path s =? _path (this w))%string); cbn;
  destruct (negb (SessionConnection.name s =? _name (this w))%string); cbn;
  destruct (negb (SessionConnection.type s =? _type (this w))%string); cbn;
  (eexists _, _; split; [reflexivity|]; split; [done|]; by intros e [=]).
Qed.

Lemma startSession_C (model : Kernel.IModel) (w0 w : World) :
  JC false w0 (_startSession model w) made_or_disposed.
Proof.
  unfold _startSession. run.
  destruct (_isDisposed (this w)) eqn:Hd; cbn; [by apply JC_done|].
  apply JC_susp; [done|]. intros r w'. destruct r as [v|e]; cbn.
  - destruct v; cbn;
      try (apply handleSessionError_C; intros; by apply JC_done).
    match goal with |- context [_handleNewSession ?a ?b] =>
      destruct (hns_disposed_C a b) as (w2 & r & -> & Hd2 & He) end.
    destruct r as [k|e]; cbn.
    + apply JC_done. by intros _ e [=].
    + apply handleSessionError_C. intros w1 Hw1. apply JC_done.
      intros _ e' _. rewrite Hw1, Hd2. by apply (He e).
  - apply handleSessionError_C; intros; by apply JC_done.
Qed.

Lemma changeKernel_C (options : Kernel.IModel) (w0 w : World) :
  JC false w0 (_changeKernel options w) made_or_disposed.
Proof.
  unfold _changeKernel. run.
  destruct (_isDisposed (this w)) eqn:Hd; cbn; [by apply JC_done|].
  destruct (_session (this w)) as [s|] eqn:Es; cbn;
    [|apply startSession_C].
  destruct (SessionConnection.kernel s) as [k|]; cbn; [|by apply JC_done].
  destruct (negb _); cbn; [|apply startSession_C].
  apply JC_susp; [done|]. intros r w'. destruct r as [v|e]; cbn;
    [|by apply JC_done].
  destruct v; cbn; by apply JC_done.
Qed.

Lemma shutdown_C (p : bool) (w0 w : World) :
  JC p w0 (shutdown w) (λ _ _ _, True).
Proof.
  unfold shutdown. run.
  destruct (_session (this w)) as [s|]; cbn; [|by apply JC_done].
  apply JC_susp; [done|]. intros r w'. destruct r; cbn; by apply JC_done.
Qed.

Lemma selectKernel_C (p cancelable : bool) (w0 w : World) :
  (p = true → _isDisposed (this w) = true) →
  JC p w0 (_selectKernel cancelable w) (λ _ _ _, True).
Proof.
  intros Hp. unfold _selectKernel. run.
  destruct (_isDisposed (this w)) eqn:Hd; cbn; [by apply JC_done|].
  destruct p; [by specialize (Hp eq_refl)|].
  destruct (Private.populateKernelSelect _ _); cbn; [by apply JC_done|].
  apply JC_susp; [done|]. intros r w'. destruct r as [v|e]; cbn;
    [|by apply JC_done].
  destruct v as [| | | | |accept value]; cbn; try by apply JC_done.
  destruct (_isDisposed (this w') || negb accept); cbn; [by apply JC_done|].
  destruct value as [model|]; cbn.
  - destruct (_session (this w')); cbn;
      (eapply JC_bind; [apply changeKernel_C|intros; by apply JC_done|done]).
  - destruct (_session (this w')); cbn; [|by apply JC_done].
    apply shutdown_C.
Qed.

Lemma startIfNecessary_C (w0 w : World) :
  JC false w0 (_startIfNecessary w) (λ _ _ _, True).
Proof.
  unfold _startIfNecessary. run.
  destruct (_ || _); cbn; [by apply JC_done|].
  assert (∀ options w1, JC false w0
    (bindS (catchS (bindS (_changeKernel options w1) (λ _, mret true))
                   (λ _, mret false))
           (λ started : bool,
              if started then mret () else _selectKernel false))
    (λ _ _ _, True)) as Hk.
  { intros options w1.
    eapply JC_bind with (Q1 := λ p r w2,
      match r with
      | inl false => p = true → _isDisposed (this w2) = true
      | _ => True
      end); [| |done].
    - eapply JC_catch; [| |].
      + eapply JC_bind; [apply changeKernel_C| |].
        * intros p a w2 _. apply JC_done with (Q := λ p r w,
            match r with
            | inl a => a = true
            | inr _ => p = true → _isDisposed (this w) = true
            end). done.
        * cbn. intros p e w2 H Hp. by apply (H Hp e).
      + cbn. intros p e w2 H. by apply JC_done.
      + by intros p a w2 ->.
    - intros p [] w2 H; [by apply JC_done|]. by apply selectKernel_C. }
  destruct (Js.truthy (ISessionContext.id _)); cbn; [apply Hk|].
  destruct (Js.truthy (Private.getDefaultKernel _ _)); cbn; [apply Hk|].
  by apply selectKernel_C.
Qed.

Lemma initialize_C (w0 w : World) :
  JC false w0 (initialize w) (λ _ _ _, True).
Proof.
  unfold initialize. run.
  destruct (_ || _); cbn.
  { apply JC_susp; [done|]. intros r w'. destruct r; cbn; by apply JC_done. }
  apply JC_susp; [done|]. intros r w'. destruct r as [v|e]; cbn;
    [|by apply JC_done].
  assert (∀ w00 w1, JC false w00 ((_startIfNecessary;;
     assign (set_isReady true);; effect ReadyResolve;;
     assign (set_ready true)) w1) (λ _ _ _, True)) as Hk.
  { intros w00 w1. run. eapply JC_bind; [apply startIfNecessary_C| |done].
    intros; by apply JC_done. }
  destruct (List.find _ _) as [model|]; cbn; [|exact (Hk w' w')].
  unfold connectTo. run.
  destruct (connectTo_throws (services w')) as [err|]; cbn.
  { eapply JC_bind with (Q1 := λ p r _, p = false ∧ ∃ e, r = inr e);
      [|by intros p a w1 [_ [e [=]]]|done].
    apply handleSessionError_C. intros. apply JC_done. eauto. }
  match goal with |- context [_handleNewSession ?a ?b] =>
    destruct (hns_disposed_C a b) as (w2 & r & -> & Hd2 & He) end.
  destruct r as [k|e]; cbn; [exact (Hk w' w2)|].
  eapply JC_bind with (Q1 := λ p r _, p = false ∧ ∃ e, r = inr e);
    [|by intros p a w1 [_ [e' [=]]]|done].
  apply handleSessionError_C. intros. apply JC_done. eauto.
Qed.

Lemma initialize_creations (w : World) (rs : list (Response * World)) :
  (creations (initialize w) rs ≤ 1)%nat.
Proof. exact (JC_creations _ false w _ rs (initialize_C w w)). Qed.

(** The bound is reached: the manager is ready, then [startNew] resolves. *)
Lemma initialize_creations_reached :
  let w := world (boot (Example.context0 (Example.by_name "python3"))
                       Example.services0) in
  let w1 := with_this (set_initializing true) w in
  creations (initialize w)
    [(Resolved VUndefined, w1); (Resolved (VSession Example.notebook), w1)]
  = 1.
Proof. by vm_compute. Qed.

(** ** What a run leaves *)

Lemma install_world (st : Step Value) :
  ∀ id caller sys, world (install id caller st sys) = landing st.
Proof.
  induction st as [w r|w q k IH|q k rest IH] using Step_induction;
    intros id caller sys; cbn; [done|done|apply IH].
Qed.

Lemma install_settled (st : Step Value) :
  ∀ id caller sys,
    settled (install id caller st sys) =
      settled sys ++
      match outcome st with
      | Some r => if caller : bool then [(id, r)] else []
      | None => []
      end.
Proof.
  induction st as [w r|w q k IH|q k rest IH] using Step_induction;
    intros id caller sys; cbn.
  - destruct caller; [done|by rewrite app_nil_r].
  - by rewrite app_nil_r.
  - by rewrite IH.
Qed.

Lemma occurrences_ReadyResolve (t : list Effect) :
  occurrences ReadyResolve t = length (filter is_ReadyResolve t).
Proof.
  unfold occurrences. induction t as [|x t IH]; [done|].
  rewrite !filter_cons. destruct x; cbn; try case_decide; try done;
    cbn; by rewrite ?IH.
Qed.

Lemma starting_nonfresh (w : World) :
  ready_view w = starting_view → nonfresh w.
Proof.
  unfold ready_view, starting_view, nonfresh. intros [= -> _ _ _]. done.
Qed.

Lemma view_ok_facts (w : World) :
  view_ok w →
  _ready (this w) = _isReady (this w) ∧
  occurrences ReadyResolve (trace w) =
    (if _isReady (this w) then 1 else 0) ∧
  (_isReady (this w) = true → _initializing (this w) = true).
Proof.
  rewrite occurrences_ReadyResolve. unfold view_ok, ready_view.
  intros [H|[H|H]]; injection H as -> -> -> ->; done.
Qed.

Lemma started_R path name type preference setBusy uuid e es :
  ∃ own, SysR own (started path name type preference setBusy uuid e es).
Proof.
  destruct (run_R es false _
    (boot_R path name type preference setBusy uuid e)) as (own & HS & _).
  by exists own.
Qed.

(** ** The call that begins the startup *)

Lemma install_pending (st : Step Value) :
  ∀ id caller sys,
    pending (install id caller st sys) =
      pending sys ++ spawned id caller st (next_task sys).
Proof.
  induction st as [w r|w q k IH|q k rest IH] using Step_induction;
    intros id caller sys; cbn.
  - by rewrite app_nil_r.
  - done.
  - rewrite IH. cbn. by rewrite <- app_assoc.
Qed.

Lemma install_next (st : Step Value) :
  ∀ id caller sys,
    (next_task sys ≤ next_task (install id caller st sys))%nat.
Proof.
  induction st as [w r|w q k IH|q k rest IH] using Step_induction;
    intros id caller sys; cbn; [done|done|].
  etrans; [|apply IH]. cbn. lia.
Qed.

Lemma spawned_ids (st : Step Value) :
  ∀ id caller sys,
    (id < next_task sys)%nat →
    NoDup (map task_id (spawned id caller st (next_task sys))) ∧
    Forall (λ t, task_id t = id ∨
                 (next_task sys ≤ task_id t <
                    next_task (install id caller st sys))%nat)
      (spawned id caller st (next_task sys)).
Proof.
  induction st as [w r|w q k IH|q k rest IH] using Step_induction;
    intros id caller sys Hid; cbn.
  - split; [apply NoDup_nil_2|done].
  - split; [apply NoDup_singleton|]. apply Forall_singleton. by left.
  - set (sys' := {| world := world sys; pending := _; settled := settled sys;
                    next_task := S (next_task sys) |}).
    destruct (IH id caller sys') as [Hnd Hall]; [cbn; lia|].
    change (S (next_task sys)) with (next_task sys').
    pose proof (install_next rest id caller sys') as Hn. cbn in Hn.
    split.
    + apply NoDup_cons. split; [|exact Hnd].
      intros Hin. apply list_elem_of_fmap in Hin as (t & Ht & Hin).
      rewrite Forall_forall in Hall. destruct (Hall t Hin) as [?|?]; cbn in *; lia.
    + apply Forall_cons. split; [right; cbn; lia|].
      eapply Forall_impl; [exact Hall|]. cbn. intros t [?|?]; [by left|right; lia].
Qed.

Lemma take_split (id : nat) (l : list Task) t rest :
  take id l = Some (t, rest) →
  ∃ l1 l2, l = l1 ++ t :: l2 ∧ rest = l1 ++ l2 ∧ task_id t = id ∧
           Forall (λ x, task_id x ≠ id) l1.
Proof.
  revert t rest. induction l as [|x l IH]; intros t rest; cbn; [done|].
  destruct (Nat.eqb_spec (task_id x) id) as [E|E].
  - intros [= -> ->]. by exists [], rest.
  - destruct (take id l) as [[t' l']|] eqn:Et; cbn; [|done].
    intros [= -> <-]. destruct (IH _ _ eq_refl) as (l1 & l2 & -> & -> & ? & ?).
    exists (x :: l1), l2. split_and!; try done. by apply Forall_cons.
Qed.

Lemma ids_install (st : Step Value) (id : nat) (caller : bool)
    (sys : System) :
  ids_ok sys → (id < next_task sys)%nat →
  id ∉ map task_id (pending sys) →
  ids_ok (install id caller st sys).
Proof.
  intros (Hnd & Hlt & Hst) Hid Hfresh.
  destruct (spawned_ids st id caller sys Hid) as [Hnd' Hall].
  pose proof (install_next st id caller sys) as Hn.
  unfold ids_ok. rewrite install_pending, install_settled.
  split_and!.
  - rewrite map_app. apply NoDup_app. split; [done|]. split; [|done].
    intros i Hi Hi'. apply list_elem_of_fmap in Hi as (t & -> & Ht).
    apply list_elem_of_fmap in Hi' as (t' & Heq & Ht').
    rewrite Forall_forall in Hlt, Hall. specialize (Hlt t Ht).
    destruct (Hall t' Ht') as [E|E].
    + apply Hfresh. rewrite <- E, <- Heq. apply list_elem_of_fmap. eauto.
    + lia.
  - apply Forall_app. split.
    + eapply Forall_impl; [exact Hlt|]. cbn. intros; lia.
    + eapply Forall_impl; [exact Hall|]. cbn. intros t [->|?]; lia.
  - apply Forall_app. split.
    + eapply Forall_impl; [exact Hst|]. cbn. intros; lia.
    + destruct (outcome st); [|done]. destruct caller; [|done].
      apply Forall_singleton. cbn. lia.
Qed.

Lemma ids_step (sys : System) (e : Event) : ids_ok sys → ids_ok (step sys e).
Proof.
  intros Hok. pose proof Hok as (Hnd & Hlt & Hst).
  assert (ids_ok (bump sys)) as Hb.
  { split_and!; [done| |]; cbn;
      (eapply Forall_impl; [eassumption|]); cbn; intros; lia. }
  assert (next_task sys ∉ map task_id (pending sys)) as Hfresh.
  { intros Hin. apply list_elem_of_fmap in Hin as (t & Heq & Ht).
    rewrite Forall_forall in Hlt. specialize (Hlt t Ht). lia. }
  destruct e as [c|id r|sender s|l|sp|err|k|b]; cbn [step]; try done.
  - apply ids_install; [done|cbn; lia|done].
  - destruct (take id (pending sys)) as [[t rest]|] eqn:Et; [|done].
    destruct (fits _ _ _); [|done].
    apply take_split in Et as (l1 & l2 & Hl & -> & <- & Hl1).
    rewrite Hl in Hnd, Hlt. rewrite map_app in Hnd. cbn in Hnd.
    apply NoDup_app in Hnd as (N1 & N2 & N3).
    apply NoDup_cons in N3 as [N3 N4].
    apply Forall_app in Hlt as [Hlt1 Hlt2].
    apply Forall_cons in Hlt2 as [Hlt Hlt2].
    apply ids_install; [| cbn; lia |].
    + split_and!; cbn; [|by apply Forall_app|done].
      rewrite map_app. apply NoDup_app. split; [done|]. split; [|done].
      intros i Hi Hi'. apply (N2 i Hi). by right.
    + cbn. rewrite map_app. intros [Hin|Hin]%elem_of_app; [|done].
      apply (N2 _ Hin). by left.
  - apply ids_install; [done|cbn; lia|done].
Qed.

Lemma ids_run (es : list Event) : ∀ sys, ids_ok sys → ids_ok (run es sys).
Proof.
  induction es as [|e es IH]; intros sys Hok; [done|].
  apply (IH (step sys e)). by apply ids_step.
Qed.

Lemma ids_boot (c : SessionContext) (e : Services) : ids_ok (boot c e).
Proof. split_and!; cbn; [apply NoDup_nil_2|done|done]. Qed.

Lemma spawned_quiet (st : Step Value) :
  ∀ id caller n w0, JQ w0 st →
    Forall task_quiet (spawned id caller st n) ∧
    ready_view (landing st) = ready_view w0.
Proof.
  unfold JQ, JR.
  induction st as [w r|w q k IH|q k rest IH] using Step_induction;
    intros id caller n w0; cbn.
  - intros ([|] & HG & _); [done|]. by split.
  - intros ([|] & HG & _ & Hk); [done|]. split; [|done].
    apply Forall_singleton. intros r w' Hr. cbn. by apply Hk.
  - intros [[_ Hk] Hrest]. destruct (IH id caller (S n) w0 Hrest) as [H1 H2].
    split; [|done]. apply Forall_cons. split; [|done].
    intros r w' Hr. cbn. apply JQ_bind; [by apply JQ_intro, Hk|].
    intros a w1. by apply JQ_done.
Qed.

Lemma spawned_owner (st : Step Value) :
  ∀ id caller n w0,
    JR true w0 st (λ _ _ _, True) →
    (∃ fs t, spawned id caller st n = fs ++ [t] ∧ Forall task_quiet fs ∧
       task_owner t ∧ task_id t = id ∧
       ready_view (landing st) = starting_view ∧ outcome st = None)
    ∨ (Forall task_quiet (spawned id caller st n) ∧ nonfresh (landing st) ∧
       view_ok (landing st)).
Proof.
  unfold JR.
  induction st as [w r|w q k IH|q k rest IH] using Step_induction;
    intros id caller n w0; cbn.
  - intros (p & HG & _). right. split; [done|].
    destruct p; cbn in HG.
    + destruct HG as [_ Hv]. split; [by apply starting_nonfresh|].
      right. by left.
    + destruct HG as [_ [Hv|Hv]].
      * split; [by apply starting_nonfresh|]. right. by left.
      * split; [|by right; right]. unfold nonfresh.
        unfold ready_view, ready_done_view in Hv.
        by injection Hv as -> _ _ _.
  - intros (p & HG & _ & Hk). destruct p; cbn in HG, Hk.
    + left. eexists [], _. split; [reflexivity|]. split; [done|].
      split; [|by destruct HG]. intros r w' Hr. cbn. by apply Hk.
    + right. split.
      * apply Forall_singleton. intros r w' Hr. cbn.
        by apply JQ_intro, Hk.
      * destruct HG as [_ [Hv|Hv]].
        -- split; [by apply starting_nonfresh|]. right. by left.
        -- split; [|by right; right]. unfold nonfresh.
           unfold ready_view, ready_done_view in Hv.
           by injection Hv as -> _ _ _.
  - intros [[_ Hk] Hrest].
    assert (task_quiet
      {| task_id := n; task_caller := false; task_request := q;
         task_resume := λ r w, bindS (k r w) (λ _, mret VUndefined) |})
      as Hq.
    { intros r w' Hr. cbn. apply JQ_bind; [by apply JQ_intro, Hk|].
      intros a w1. by apply JQ_done. }
    destruct (IH id caller (S n) w0 Hrest)
      as [(fs & t & -> & Hfs & Ht & Hid & Hv & Ho)|(Hall & Hn & Hv)].
    + left. eexists (_ :: fs), t. split; [reflexivity|].
      split; [by apply Forall_cons|]. done.
    + right. split; [by apply Forall_cons|]. done.
Qed.

Lemma settled_install_other (st : Step Value) (id j : nat) (caller : bool)
    (sys : System) r :
  j ≠ id → (j, r) ∈ settled (install id caller st sys) →
  (j, r) ∈ settled sys.
Proof.
  intros Hne. rewrite install_settled. intros [H|H]%elem_of_app; [done|].
  destruct (outcome st); [|by apply elem_of_nil in H].
  destruct caller; [|by apply elem_of_nil in H].
  apply list_elem_of_singleton in H. congruence.
Qed.

(** A run of no part in the startup, installed. *)
Lemma Startup_quiet (id j : nat) (caller : bool) (st : Step Value)
    (sys0 sys : System) :
  JQ (world sys0) st → j ≠ id →
  ids_ok (install j caller st sys) →
  (id < next_task sys)%nat →
  settled sys = settled sys0 →
  ((∃ l1 t l2, pending sys = l1 ++ t :: l2 ∧ task_id t = id ∧
      task_owner t ∧ Forall task_quiet (l1 ++ l2) ∧
      ready_view (world sys0) = starting_view ∧
      ∀ r, (id, r) ∉ settled sys0)
   ∨ (Forall task_quiet (pending sys) ∧ nonfresh (world sys0) ∧
      view_ok (world sys0))) →
  Startup id (install j caller st sys).
Proof.
  intros HJ Hne Hids Hid Hset Hcase.
  destruct (spawned_quiet st j caller (next_task sys) _ HJ) as [Hq Hv].
  split; [done|]. split.
  { pose proof (install_next st j caller sys). lia. }
  rewrite install_pending, install_world.
  destruct Hcase as [(l1 & t & l2 & Hp & Ht & Ho & Hall & Hview & Hns)
                    |(Hall & Hn & Hview)].
  - left. exists l1, t, (l2 ++ spawned j caller st (next_task sys)).
    rewrite Hp, <- app_assoc. split; [done|]. split; [done|].
    split; [done|]. split.
    + rewrite app_assoc. apply Forall_app. by split.
    + split; [by rewrite Hv|]. intros r Hr.
      apply settled_install_other in Hr; [|done].
      rewrite Hset in Hr. by apply (Hns r).
  - right. split; [by apply Forall_app|].
    unfold nonfresh, view_ok in *. unfold ready_view in Hv.
    injection Hv as E1 E2 E3 E4. unfold ready_view.
    rewrite E1, E2, E3, E4. by split.
Qed.

(** A run that has, or may have, a part in the startup, installed. *)
Lemma Startup_owner (id : nat) (st : Step Value) (sys : System) (w0 : World) :
  JR true w0 st (λ _ _ _, True) →
  ids_ok (install id true st sys) →
  (id < next_task sys)%nat →
  Forall task_quiet (pending sys) →
  (∀ r, (id, r) ∉ settled sys) →
  Startup id (install id true st sys).
Proof.
  intros HJ Hids Hid Hall Hns.
  split; [done|]. split.
  { pose proof (install_next st id true sys). lia. }
  rewrite install_pending, install_world.
  destruct (spawned_owner st id true (next_task sys) w0 HJ)
    as [(fs & t & -> & Hfs & Ht & Htid & Hv & Ho)|(Hq & Hn & Hv)].
  - left. exists (pending sys ++ fs), t, [].
    rewrite <- app_assoc. split; [done|]. split; [done|]. split; [done|].
    split; [rewrite app_nil_r; by apply Forall_app|]. split; [done|].
    intros r. rewrite install_settled, Ho, app_nil_r. apply Hns.
  - right. split; [by apply Forall_app|done].
Qed.

Lemma JQ_of_R {A} (w : World) (st : Step A) Q :
  JR false w st Q → JQ w st.
Proof.
  intros H. apply JQ_intro. unfold JR. eapply J_conseq; [|exact H]. done.
Qed.

Lemma split_unique (k1 k2 l1 l2 : list Task) (t' t : Task) :
  k1 ++ t' :: k2 = l1 ++ t :: l2 →
  NoDup (map task_id (k1 ++ t' :: k2)) →
  (t' = t ∧ k1 = l1 ∧ k2 = l2) ∨
  (task_id t' ≠ task_id t ∧ t' ∈ l1 ++ l2 ∧
   ∃ m1 m2, k1 ++ k2 = m1 ++ t :: m2 ∧ ∀ x, x ∈ m1 ++ m2 → x ∈ l1 ++ l2).
Proof.
  revert l1 l2. induction k1 as [|x k1 IH]; intros l1 l2 E Hnd.
  - destruct l1 as [|y l1]; cbn in E.
    + injection E as -> ->. by left.
    + injection E as <- ->. right. cbn in Hnd.
      apply NoDup_cons in Hnd as [Hnd _]. split_and!.
      * intros Eid. apply Hnd. rewrite Eid, map_app. cbn.
        apply elem_of_app. right. by left.
      * by left.
      * exists l1, l2. split; [done|]. intros x Hx. by right.
  - destruct l1 as [|y l1]; cbn in E.
    + injection E as -> <-. right. cbn in Hnd.
      apply NoDup_cons in Hnd as [Hnd _]. split_and!.
      * intros Eid. apply Hnd. rewrite <- Eid, map_app. cbn.
        apply elem_of_app. right. by left.
      * cbn. apply elem_of_app. right. by left.
      * exists [], (k1 ++ k2). split; [done|]. cbn. intros z Hz.
        apply elem_of_app in Hz as [?|?]; apply elem_of_app; [by left|].
        right. by right.
    + injection E as <- E. cbn in Hnd.
      apply NoDup_cons in Hnd as [_ Hnd].
      destruct (IH l1 l2 E Hnd)
        as [(-> & -> & ->)|(Hne & Hin & m1 & m2 & E' & Hsub)].
      * by left.
      * right. split_and!; [done|by right|].
        exists (x :: m1), m2. cbn. rewrite E'. split; [done|].
        intros z [->|Hz]%elem_of_cons; [by left|right; auto].
Qed.

Lemma step_Startup (id : nat) (sys : System) (e : Event) :
  Startup id sys → Startup id (step sys e).
Proof.
  intros (Hids & Hid & Hcase).
  pose proof (ids_step sys e Hids) as Hids'.
  pose proof Hids as (Hnd & Hlt & Hst).
  assert (nonfresh (world sys) ∧ view_ok (world sys)) as [Hn Hvok].
  { destruct Hcase as [(_ & _ & _ & _ & _ & _ & _ & Hv & _)|(_ & ? & ?)];
      [|done]. split; [by apply starting_nonfresh|]. right. by left. }
  destruct e as [c|j r|sender s|l|sp|err|k|b]; cbn [step] in *.
  - apply (Startup_quiet id _ true _ sys); [|lia|done|cbn; lia|done|done].
    eapply JQ_of_R. apply invoke_R. by left.
  - destruct (take j (pending sys)) as [[t' rest]|] eqn:Et;
      [|by split_and!].
    destruct (fits _ _ _) eqn:Hfits; [|by split_and!].
    apply take_split in Et as (k1 & k2 & Hp & -> & Hj & Hk1).
    assert (∀ t, task_quiet t → t = t' →
              JQ (world sys) (task_resume t' r (world sys))) as Hres.
    { intros t Ht ->. apply Ht. intros Hq. rewrite Hq in Hfits.
      by eapply fits_ready. }
    destruct Hcase as [(l1 & t & l2 & Hp' & Ht & Ho & Hall & Hview & Hns)
                      |(Hall & _ & _)].
    + (* the startup runs *)
      rewrite Hp in Hp'.
      assert (t' = t ∧ k1 = l1 ∧ k2 = l2 ∨
              j ≠ id ∧ task_quiet t' ∧
              ∃ m1 m2, k1 ++ k2 = m1 ++ t :: m2 ∧
                Forall task_quiet (m1 ++ m2)) as [(-> & -> & ->)|Hother].
      { rewrite Hp in Hnd. rewrite Forall_forall in Hall.
        destruct (split_unique _ _ _ _ _ _ Hp' Hnd)
          as [?|(Hne & Hin & m1 & m2 & E & Hsub)]; [by left|].
        right. split_and!; [congruence|by apply Hall|].
        exists m1, m2. split; [done|]. apply Forall_forall.
        intros x Hx. by apply Hall, Hsub. }
      * apply Forall_app in Hall as [Hl1 Hl2].
        assert (j = id) as -> by congruence.
        assert (task_caller t = true ∨ task_caller t = false) as [Hc|Hc]
          by (destruct (task_caller t); auto).
        -- rewrite Hc in *.
           apply (Startup_owner _ _ _ (world sys)); [|done|done| |done].
           ++ by apply Ho.
           ++ cbn. by apply Forall_app.
        -- (* a detached run settles nothing *)
           rewrite Hc in *.
           destruct (spawned_owner (task_resume t r (world sys)) id
                       false (next_task sys) (world sys) (Ho _ _ Hview))
             as [(fs & t1 & E & Hfs & Ht1 & Htid & Hv & Hout)|(Hq & Hn' & Hv)].
           ++ split; [done|]. split.
              { pose proof (install_next (task_resume t r (world sys))
                  id false (set_pending (l1 ++ l2) sys)). cbn in *.
                lia. }
              left. rewrite install_pending, install_world. cbn.
              exists ((l1 ++ l2) ++ fs), t1, []. rewrite E, <- !app_assoc.
              split; [done|]. split; [done|]. split; [done|].
              split; [rewrite app_nil_r, !app_assoc;
                      repeat (apply Forall_app; split); done|].
              split; [done|]. intros r'.
              rewrite install_settled. cbn.
              destruct (outcome _); rewrite app_nil_r; apply Hns.
           ++ split; [done|]. split.
              { pose proof (install_next (task_resume t r (world sys))
                  id false (set_pending (l1 ++ l2) sys)). cbn in *.
                lia. }
              right. rewrite install_pending, install_world. cbn.
              split; [|done]. repeat (apply Forall_app; split); done.
      * destruct Hother as (Hne & Hq & m1 & m2 & E & Hm).
        apply (Startup_quiet id _ _ _ sys);
          [by apply (Hres t')|done|done|done|done|].
        left. exists m1, t, m2. cbn. by split_and!.
    + (* the startup has ended *)
      subst j.
      rewrite Hp in Hall. apply Forall_app in Hall as [Hl1 Hl2].
      apply Forall_cons in Hl2 as [Hq Hl2].
      split; [done|]. split.
      { pose proof (install_next (task_resume t' r (world sys))
          (task_id t') (task_caller t') (set_pending (k1 ++ k2) sys)).
        cbn in *. lia. }
      right. rewrite install_pending, install_world. cbn.
      destruct (spawned_quiet (task_resume t' r (world sys)) (task_id t')
                  (task_caller t') (next_task sys) (world sys)
                  (Hres t' Hq eq_refl)) as [Hs Hv].
      split; [repeat (apply Forall_app; split); done|].
      unfold nonfresh, view_ok in *. unfold ready_view in Hv.
      injection Hv as E1 E2 E3 E4. unfold ready_view.
      rewrite E1, E2, E3, E4. by split.
  - destruct (deliver_quiet sender s (world sys)) as (w1 & Hd & Hw1).
    unfold returning. unfold mbind, Async_bind. rewrite Hd. cbn.
    cbn in Hids'. unfold returning, mbind, Async_bind in Hids'.
    rewrite Hd in Hids'. cbn in Hids'.
    split; [done|]. split; [cbn; lia|]. cbn.
    assert (view_ok w1 ∧ nonfresh w1) as [? ?].
    { unfold nonfresh, view_ok in *. unfold ready_view in Hw1.
      injection Hw1 as E1 E2 E3 E4. unfold ready_view.
      rewrite E1, E2, E3, E4. by split. }
    destruct Hcase as [(l1 & t & l2 & Hp' & Ht & Ho & Hall & Hview & Hns)
                      |(Hall & _ & _)].
    + left. exists l1, t, l2. split_and!; try done. by rewrite Hw1.
    + right. by split_and!.
  - split; [done|]. split; [done|]. exact Hcase.
  - split; [done|]. split; [done|]. exact Hcase.
  - split; [done|]. split; [done|]. exact Hcase.
  - split; [done|]. split; [done|]. exact Hcase.
  - split; [done|]. split; [done|]. exact Hcase.
Qed.

Lemma run_Startup (id : nat) (es : list Event) :
  ∀ sys, Startup id sys → Startup id (run es sys).
Proof.
  induction es as [|e es IH]; intros sys HS; [done|].
  apply (IH (step sys e)). by apply step_Startup.
Qed.

Lemma begin_Startup (sys : System) (c : Call) :
  ids_ok sys → Forall task_quiet (pending sys) →
  ready_view (world sys) = fresh_view → starts c = true →
  Startup (next_task sys) (step sys (Invoke c)).
Proof.
  intros Hids Hq Hv Hs. cbn [step].
  apply (Startup_owner _ _ _ (world sys)).
  - unfold JR. eapply J_conseq; [|apply (invoke_R true); by split]. done.
  - apply (ids_step sys (Invoke c) Hids).
  - cbn. lia.
  - exact Hq.
  - intros r Hr. destruct Hids as (_ & _ & Hst). cbn in Hr.
    rewrite Forall_forall in Hst. specialize (Hst _ Hr). cbn in Hst. lia.
Qed.

Lemma fresh_quiet (sys : System) (own : bool) :
  SysR own sys → readyState (this (world sys)) = Uninitialized →
  Forall task_quiet (pending sys) ∧ ready_view (world sys) = fresh_view.
Proof.
  intros (Hp & Hv & Hov) Hu.
  assert (ready_view (world sys) = fresh_view) as Hf.
  { unfold readyState in Hu. destruct Hv as [H|[H|H]]; [done|..];
      unfold ready_view in H; injection H as E1 E2 _ _;
      rewrite E1, E2 in Hu; discriminate Hu. }
  split; [|done]. destruct own; [|done].
  specialize (Hov eq_refl). rewrite Hf in Hov. discriminate Hov.
Qed.

(** A call that waits on the ready promise stays suspended as long as the
    promise is not resolved. *)
Lemma waits_step (sys : System) (e : Event) (t : Task) :
  t ∈ pending sys → task_request t = ReadyPromise →
  _ready (this (world sys)) = false → t ∈ pending (step sys e).
Proof.
  intros Ht Hq Hr.
  destruct e as [c|j r|sender s|l|sp|err|k|b]; cbn [step]; try done.
  - rewrite install_pending. apply elem_of_app. by left.
  - destruct (take j (pending sys)) as [[t' rest]|] eqn:Et; [|done].
    destruct (fits _ _ _) eqn:Hfits; [|done].
    apply take_split in Et as (k1 & k2 & Hp & -> & _ & _).
    rewrite install_pending. apply elem_of_app. left. cbn.
    rewrite Hp in Ht. apply elem_of_app in Ht as [?|[->|?]%elem_of_cons];
      apply elem_of_app; [by left| |by right].
    rewrite Hq in Hfits. destruct r as [[]|]; cbn in Hfits; congruence.
  - rewrite install_pending. apply elem_of_app. by left.
Qed.

(** Once the call that began the startup has settled without the context
    being ready, nothing makes it ready. *)
Lemma startup_settled (path name type : option string)
    (preference : option ISessionContext.IKernelPreference)
    (setBusy : option (nat → bool)) (uuid : string) (e : Services)
    (es1 : list Event) (c : Call) (es2 es3 : list Event) :
  let sys1 := started path name type preference setBusy uuid e es1 in
  let sys2 := run es2 (step sys1 (Invoke c)) in
  let sys3 := run es3 sys2 in
  readyState (this (world sys1)) = Uninitialized →
  starts c = true →
  (∃ r, (next_task sys1, r) ∈ settled sys2) →
  _isReady (this (world sys2)) = false →
  ready_view (world sys3) = starting_view ∧
  (∀ r, fits (world sys3) ReadyPromise r = false) ∧
  (∀ t, t ∈ pending sys2 → task_request t = ReadyPromise →
        t ∈ pending sys3).
Proof.
  intros sys1 sys2 sys3 Hu Hs [r Hr] Hnr.
  destruct (started_R path name type preference setBusy uuid e es1)
    as (own & HR).
  destruct (fresh_quiet _ _ HR Hu) as [Hq Hv].
  assert (ids_ok sys1) as Hids by apply ids_run, ids_boot.
  pose proof (run_Startup _ es2 _ (begin_Startup sys1 c Hids Hq Hv Hs))
    as (_ & _ & Hcase). fold sys2 in Hcase.
  destruct Hcase as [(_ & _ & _ & _ & _ & _ & _ & _ & Hns)|(Hall & Hn & Hvok)];
    [by destruct (Hns r)|].
  assert (ready_view (world sys2) = starting_view) as Hv2.
  { destruct Hvok as [H|[H|H]]; [|done|].
    - destruct (view_cases _ (or_introl H)) as [[_ ?]|[? _]]; done.
    - unfold ready_view, ready_done_view in H. injection H as _ E _ _.
      congruence. }
  assert (∀ es sys, SysR false sys →
    ready_view (world sys) = starting_view →
    ready_view (world (run es sys)) = starting_view ∧
    ∀ t, t ∈ pending sys → task_request t = ReadyPromise →
         t ∈ pending (run es sys)) as Hrun.
  { clear. induction es as [|ev es IH]; intros sys HS Hv; [done|].
    change (run (ev :: es) sys) with (run es (step sys ev)).
    destruct (step_R false sys ev HS) as (own1 & HS1 & _ & Hq).
    destruct (Hq eq_refl (starting_nonfresh _ Hv)) as [-> Hv1].
    rewrite Hv in Hv1. destruct (IH _ HS1 Hv1) as [Hv2 Hp2].
    split; [done|]. intros t Ht Hw. apply Hp2; [|done].
    apply waits_step; [done|done|].
    unfold ready_view, starting_view in Hv. by injection Hv as _ _ -> _. }
  destruct (Hrun es3 sys2) as [Hv3 Hp3]; [|done|].
  { split; [done|]. split; [done|]. intros [=]. }
  split; [done|]. split; [|done].
  intros r'. unfold ready_view, starting_view in Hv3.
  injection Hv3 as _ _ Hrd _. destruct r' as [[]|]; cbn [fits]; done.
Qed.

(** The attach failure, whoever began the startup: the running session of
    the same path is found and [connectTo] throws.  The call is rejected
    with what [connectTo] threw, and the flags of [initialize()] and the
    ready promise are left as they were. *)
Lemma attach_failure_rejects (c : Call) (w w' : World)
    (model : Session.IModel) (err : JsError) :
  starts c = true → ready_view w = fresh_view →
  List.find (λ item, String.eqb (Session.path item) (_path (this w')))
            (running (services w')) = Some model →
  connectTo_throws (services w') = Some err →
  awaits (invoke c w) = Some ManagerReady ∧
  let st := resume (invoke c w) (Resolved VUndefined) w' in
  outcome st = Some (inr err) ∧ ready_view (landing st) = ready_view w'.
Proof.
  intros Hs Hv Hfind Hthrows.
  unfold ready_view, fresh_view in Hv. injection Hv as Hi Hr Hp Ht.
  destruct c; try discriminate Hs;
    unfold invoke, returning, changeKernel, selectKernel, restart, initialize;
    run; rewrite Hi, Hr; cbn; (split; [done|]); rewrite Hfind; cbn;
    unfold connectTo; run; rewrite Hthrows; cbn;
    unfold _handleSessionError;
    destruct err; run; (split; [done|]); ready.
Qed.

(** C1 (amended).  Calls of [initialize()] are coalesced as follows.
    - A call in a context that is initializing or ready starts nothing and
      changes nothing: it awaits the shared ready promise.
    - A call in a context that is neither sets [_initializing] and runs
      the startup; its caller gets the outcome of the startup itself, not
      the ready promise: if [manager.ready] is rejected, so is the
      caller.
    - Resumed in states in which the flags and the ready promise are as
      it left them, the startup ends in one of two ways, however its
      promises settle: when it completes, the context is ready and the
      ready promise resolved, once; when it is rejected, whatever the
      cause, the context is left initializing and not ready, with the
      ready promise not resolved.
    - The startup makes at most one session, however its promises
      settle.
    - After any events, the flags and the ready promise are in one of
      three states: uninitialized, initializing (ready promise not
      resolved), ready (ready promise resolved once); and the readiness
      state only advances.  So the startup runs at most once.
    - Once the call that began the startup (a call of [initialize()], or
      of another method that begins with it, in a context that was
      neither initializing nor ready) has settled while the context is
      not ready, the context never becomes ready, whatever is called and
      whatever happens: the ready promise is never resolved and cannot
      settle, and the calls that wait on it stay suspended. *)
Theorem initialize_coalesces (path name type : option string)
    (preference : option ISessionContext.IKernelPreference)
    (setBusy : option (nat → bool)) (uuid : string) (e : Services) :
  (∀ w, _initializing (this w) || _isReady (this w) = true →
     ∃ k, initialize w = Susp w ReadyPromise k ∧
       ∀ r w', k r w' =
         Done w' match r with Resolved _ => inl tt | Rejected e => inr e end) ∧
  (∀ w, _initializing (this w) || _isReady (this w) = false →
     ∃ k, initialize w =
            Susp (with_this (set_initializing true) w) ManagerReady k ∧
       ∀ e w', k (Rejected e) w' = Done w' (inr e)) ∧
  (∀ w, ready_view w = fresh_view →
     JR true w (initialize w) startup_ends) ∧
  (∀ w rs, (creations (initialize w) rs ≤ 1)%nat) ∧
  (∀ es,
     view_ok (world (started path name type preference setBusy uuid e es))) ∧
  (∀ es1 es2,
     advances
       (readyState (this (world
          (started path name type preference setBusy uuid e es1))))
       (readyState (this (world
          (started path name type preference setBusy uuid e (es1 ++ es2)))))) ∧
  (∀ es1 c es2 es3,
     let sys1 := started path name type preference setBusy uuid e es1 in
     let sys2 := run es2 (step sys1 (Invoke c)) in
     let sys3 := run es3 sys2 in
     readyState (this (world sys1)) = Uninitialized →
     starts c = true →
     (∃ r, (next_task sys1, r) ∈ settled sys2) →
     _isReady (this (world sys2)) = false →
     ready_view (world sys3) = starting_view ∧
     (∀ r, fits (world sys3) ReadyPromise r = false) ∧
     (∀ t, t ∈ pending sys2 → task_request t = ReadyPromise →
           t ∈ pending sys3)).
Proof.
  split_and!.
  - intros w Hw. by apply initialize_coalesced.
  - intros w Hw. unfold initialize. run. rewrite Hw. cbn.
    eexists. split; [reflexivity|]. done.
  - apply initialize_ends.
  - apply initialize_creations.
  - intros es. destruct (started_R path name type preference setBusy uuid e es)
      as (own & _ & Hv & _). exact Hv.
  - intros es1 es2. unfold started, run. rewrite fold_left_app.
    destruct (started_R path name type preference setBusy uuid e es1)
      as (own & HS).
    destruct (run_R es2 own _ HS) as (own' & _ & Ha). exact Ha.
  - intros es1 c es2 es3. apply startup_settled.
Qed.

Lemma initialize_coalesces_witness :
  let sys2 := run Example.two_callers
                (boot (Example.context0 (Example.by_name "python3"))
                      Example.unreachable) in
  let sys3 := run [Invoke CallRestart; Settle 1 (Resolved VUndefined)]
                sys2 in
  settled sys2 = [(0, inr Example.refused)] ∧
  map task_id (filter (λ t, bool_decide (task_request t = ReadyPromise))
                      (pending sys2)) = [1] ∧
  ready_view (world sys3) = starting_view ∧
  (∀ r, fits (world sys3) ReadyPromise r = false) ∧
  (∀ t, t ∈ pending sys2 → task_request t = ReadyPromise →
        t ∈ pending sys3).
Proof.
  intros sys2 sys3. split; [reflexivity|]. split; [reflexivity|].
  apply (proj2 (proj2 (proj2 (proj2 (proj2 (proj2 (initialize_coalesces
    (Some "a.ipynb") None (Some "notebook")
    (Some (Example.by_name "python3")) (Some Example.leases) "uuid"
    Example.unreachable))))))
    [] CallInitialize
    [Invoke CallInitialize; Settle 0 (Resolved VUndefined)]
    [Invoke CallRestart; Settle 1 (Resolved VUndefined)]).
  - reflexivity.
  - reflexivity.
  - exists (inr Example.refused). by left.
  - reflexivity.
Defined.

(** C1, as stated, fails: two clients call [initialize()] before the
    startup ends, and the attach fails.  The first caller is rejected;
    the second waits on the ready promise, which is not resolved. *)
Lemma initialize_outcomes_differ :
  let sys := run Example.two_callers
               (boot (Example.context0 (Example.by_name "python3"))
                     Example.unreachable) in
  settled sys = [(0, inr Example.refused)] ∧
  map (λ t, (task_id t, task_caller t, task_request t)) (pending sys) =
    [(1, true, ReadyPromise); (2, false, ResponseText)] ∧
  (∀ r, fits (world sys) ReadyPromise r = false).
Proof.
  split_and!; [by vm_compute|by vm_compute|].
  intros r.
  assert (_ready (this (world (run Example.two_callers
            (boot (Example.context0 (Example.by_name "python3"))
                  Example.unreachable)))) = false) as H by (by vm_compute).
  destruct r as [[]|]; cbn [fits]; try done.
Qed.

(** C2 (amended).  [initialize()] sets [isReady] and resolves the ready
    promise together and at most once: after any events the ready promise
    is resolved exactly when [isReady] is set, and [resolve] has been
    called once then and never otherwise.  Resumed in states in which
    the flags and the ready promise are as it left them, the startup ends
    in one of two ways, however its promises settle: when it completes,
    the context is ready and the ready promise resolved; when it is
    rejected, whatever the cause, the context is left initializing and
    not ready, with the ready promise not resolved.  In
    particular, when attaching to the running session of the same path
    fails because [connectTo] throws, the call that began the startup
    (of [initialize()] or of a method that begins with it) is rejected
    with what [connectTo] threw, in whatever state the context is by
    then, and the flags and the ready promise are left as they were.  And
    once the call that began the startup has settled while the context is
    not ready, [isReady] is never set and the ready promise never
    resolved, whatever happens afterwards: [_initializing] stays set, so
    no later call runs the startup again, and the calls that wait on the
    ready promise stay suspended. *)
Theorem ready_resolved_once (path name type : option string)
    (preference : option ISessionContext.IKernelPreference)
    (setBusy : option (nat → bool)) (uuid : string) (e : Services) :
  (∀ es, let w := world (started path name type preference setBusy uuid e
                           es) in
     _ready (this w) = _isReady (this w) ∧
     occurrences ReadyResolve (trace w) =
       (if _isReady (this w) then 1 else 0) ∧
     (_isReady (this w) = true → _initializing (this w) = true)) ∧
  (∀ w, ready_view w = fresh_view →
     JR true w (initialize w) startup_ends) ∧
  (∀ c w w' model err,
     starts c = true → ready_view w = fresh_view →
     List.find (λ item, String.eqb (Session.path item) (_path (this w')))
               (running (services w')) = Some model →
     connectTo_throws (services w') = Some err →
     awaits (invoke c w) = Some ManagerReady ∧
     let st := resume (invoke c w) (Resolved VUndefined) w' in
     outcome st = Some (inr err) ∧
     ready_view (landing st) = ready_view w') ∧
  (∀ es1 c es2 es3,
     let sys1 := started path name type preference setBusy uuid e es1 in
     let sys2 := run es2 (step sys1 (Invoke c)) in
     let w3 := world (run es3 sys2) in
     readyState (this (world sys1)) = Uninitialized →
     starts c = true →
     (∃ r, (next_task sys1, r) ∈ settled sys2) →
     _isReady (this (world sys2)) = false →
     _initializing (this w3) = true ∧
     _isReady (this w3) = false ∧
     _ready (this w3) = false ∧
     occurrences ReadyResolve (trace w3) = 0 ∧
     (∀ r, fits w3 ReadyPromise r = false) ∧
     (∀ t, t ∈ pending sys2 → task_request t = ReadyPromise →
           t ∈ pending (run es3 sys2))).
Proof.
  split_and!.
  - intros es w. apply view_ok_facts.
    destruct (started_R path name type preference setBusy uuid e es)
      as (own & _ & Hv & _). exact Hv.
  - apply initialize_ends.
  - intros c w w' model err. apply attach_failure_rejects.
  - intros es1 c es2 es3 sys1 sys2 w3 Hu Hs Hr Hnr.
    destruct (startup_settled path name type preference setBusy uuid e
                es1 c es2 es3 Hu Hs Hr Hnr) as (Hv & Hf & Hp).
    fold sys1 sys2 in Hv, Hf, Hp. fold w3 in Hv, Hf.
    pose proof Hv as Hv'. unfold ready_view, starting_view in Hv'.
    injection Hv' as Hi Hy Hrd Ht.
    split_and!; try done. by rewrite occurrences_ReadyResolve, Ht.
Qed.

Lemma ready_resolved_once_witness :
  let sys2 := run [Invoke CallInitialize; Settle 0 (Resolved VUndefined)]
                (boot (Example.context0 (Example.by_name "python3"))
                      Example.unreachable) in
  let w3 := world (run [Invoke CallInitialize] sys2) in
  settled sys2 = [(0, inr Example.refused)] ∧
  _initializing (this w3) = true ∧
  _isReady (this w3) = false ∧
  _ready (this w3) = false ∧
  occurrences ReadyResolve (trace w3) = 0 ∧
  (∀ r, fits w3 ReadyPromise r = false) ∧
  (∀ t, t ∈ pending sys2 → task_request t = ReadyPromise →
        t ∈ pending (run [Invoke CallInitialize] sys2)).
Proof.
  intros sys2 w3. split; [reflexivity|].
  apply (proj2 (proj2 (proj2 (ready_resolved_once (Some "a.ipynb") None
    (Some "notebook") (Some (Example.by_name "python3"))
    (Some Example.leases) "uuid" Example.unreachable)))
    [] CallInitialize [Settle 0 (Resolved VUndefined)]
    [Invoke CallInitialize]).
  - reflexivity.
  - reflexivity.
  - exists (inr Example.refused). by left.
  - reflexivity.
Defined.

(** C2, as stated, fails: the attach fails, [initialize()] has ended, and
    the context is not ready and its ready promise is not resolved. *)
Lemma attach_failure_not_ready :
  let sys := run [Invoke CallInitialize; Settle 0 (Resolved VUndefined)]
               (boot (Example.context0 (Example.by_name "python3"))
                     Example.unreachable) in
  settled sys = [(0, inr Example.refused)] ∧
  _isReady (this (world sys)) = false ∧
  _ready (this (world sys)) = false ∧
  occurrences ReadyResolve (trace (world sys)) = 0.
Proof. by vm_compute. Qed.

(** ** The kernel of the attached session *)

Arguments JE {A} w0 st Q : simpl never.

Lemma GE_trans (w1 w2 w3 : World) : GE w1 w2 → GE w2 w3 → GE w1 w3.
Proof. unfold GE. congruence. Qed.

Lemma GE_trans' (p1 : unit) w1 (p2 : unit) w2 (p3 : unit) w3 :
  GE w1 w2 → GE w2 w3 → GE w1 w3.
Proof. apply GE_trans. Qed.

Lemma JE_done {A} (w0 w : World) (r : A + JsError)
    (Q : A + JsError → World → Prop) :
  GE w0 w → Q r w → JE w0 (Done w r) Q.
Proof. intros. by exists tt. Qed.

Lemma JE_susp {A} (w0 w : World) (q : Request)
    (k : Response → World → Step A) Q :
  GE w0 w → (∀ r w', relyE r w' → JE w' (k r w') Q) →
  JE w0 (Susp w q k) Q.
Proof. intros HG Hk. exists tt. split; [exact HG|]. split; [done|exact Hk]. Qed.

Lemma JE_fork {A} (w0 : World) (q : Request)
    (k : Response → World → Step unit) (rest : Step A) Q :
  (∀ r w', relyE r w' → JE w' (k r w') T) → JE w0 rest Q →
  JE w0 (Fork q k rest) Q.
Proof. intros Hk Hrest. split; [|exact Hrest]. split; [done|exact Hk]. Qed.

Lemma JE_bind {A B} (w0 : World) (st : Step A) (f : A → Async B)
    (Q1 : A + JsError → World → Prop) (Q2 : B + JsError → World → Prop) :
  JE w0 st Q1 →
  (∀ a w, Q1 (inl a) w → JE w (f a w) Q2) →
  (∀ e w, Q1 (inr e) w → Q2 (inr e) w) →
  JE w0 (bindS st f) Q2.
Proof.
  intros H1 H2 H3. unfold JE.
  eapply J_bind; [apply GE_trans'|exact H1| |].
  - intros [] a w. apply H2.
  - intros [] e w. apply H3.
Qed.

Lemma JE_catch {A} (w0 : World) (st : Step A) (h : JsError → Async A)
    (Q1 Q2 : A + JsError → World → Prop) :
  JE w0 st Q1 →
  (∀ e w, Q1 (inr e) w → JE w (h e w) Q2) →
  (∀ a w, Q1 (inl a) w → Q2 (inl a) w) →
  JE w0 (catchS st h) Q2.
Proof.
  intros H1 H2 H3. unfold JE.
  eapply J_catch; [apply GE_trans'|exact H1| |].
  - intros [] e w. apply H2.
  - intros [] a w. apply H3.
Qed.

Lemma JE_rebase {A} (w0 w : World) (st : Step A) Q :
  GE w0 w → JE w st Q → JE w0 st Q.
Proof.
  intros HG H. unfold JE. eapply J_rebase; [apply GE_trans'|exact HG|exact H].
Qed.

Lemma JE_conseq {A} (w0 : World) (st : Step A)
    (Q Q' : A + JsError → World → Prop) :
  (∀ r w, Q r w → Q' r w) → JE w0 st Q → JE w0 st Q'.
Proof. intros HQ. unfold JE. apply J_conseq. intros _. exact HQ. Qed.

Lemma sound_weaken {A} (r : A + JsError) (w : World) :
  sound r w → sound_or_broken r w.
Proof. by intros H1 H2. Qed.

Lemma sound_or_broken_inr {A B} (e : JsError) (w : World) :
  sound_or_broken (inr e : A + JsError) w →
  sound_or_broken (inr e : B + JsError) w.
Proof. intros H [= ->]. by apply H. Qed.

Lemma sound_inr {A B} (e : JsError) (w : World) :
  sound (inr e : A + JsError) w → sound_or_broken (inr e : B + JsError) w.
Proof. intros H [= ->]. by destruct H. Qed.

Ltac eleaf := apply JE_done; [reflexivity|done].
Ltac ebind H := eapply JE_bind;
  [apply H|intros; try eleaf
  |first [apply @sound_or_broken_inr|apply @sound_inr]].
Ltac esusp := apply JE_susp; [reflexivity|].

(** The detached error dialog. *)
Lemma handleSessionError_E {A} (err : JsError) (w0 w : World)
    (f : unit → Async A) Q :
  GE w0 w →
  (∀ w1, GE w0 w1 → JE w0 (f tt w1) Q) →
  JE w0 (bindS (voidS (_handleSessionError err w)) f) Q.
Proof.
  intros HG Hf. unfold _handleSessionError.
  destruct err; run; try (apply Hf; done).
  apply JE_fork.
  - intros r w' _. destruct r as [v|e]; cbn; [|eleaf].
    apply JE_fork; [|eleaf].
    intros r' w'' _. destruct r'; cbn; eleaf.
  - apply Hf. unfold GE in *. cbn. exact HG.
Qed.

Lemma JE_throw_after_error {A} (err : JsError) (w0 w : World) :
  GE w0 w → err ≠ status_of_null →
  JE w0 (bindS (voidS (_handleSessionError err w))
               (λ _ w1, Done w1 (inr err) : Step A)) sound.
Proof.
  intros HG Hne. apply handleSessionError_E; [done|].
  intros w1 H1. apply JE_done; [done|]. unfold sound. congruence.
Qed.

Lemma populateKernelSelect_sound (b : bool) (o : Private.IKernelSearch) :
  Private.populateKernelSelect b o ≠ Some status_of_null.
Proof.
  unfold Private.populateKernelSelect, status_of_null.
  destruct (Private.specs o); [|done].
  destruct (Js.is_false _); [done|].
  destruct (Private.sort_throws _ _ _); [done|].
  destruct (List.find _ _); [|done].
  by destruct (Js.truthy _).
Qed.

Lemma startSession_E (model : Kernel.IModel) (w : World) :
  JE w (_startSession model w) sound.
Proof.
  unfold _startSession. run.
  destruct (_isDisposed (this w)) eqn:Hd; cbn; [eleaf|].
  esusp. intros r w' [Hr _]. destruct r as [v|e]; cbn.
  - destruct v; cbn; try (apply JE_throw_after_error; done).
    destruct (_isDisposed (this w')) eqn:Hd'.
    + rewrite hns_disposed by done. cbn.
      apply JE_throw_after_error; done.
    + edestruct (hns_live false
        (SessionConnection.of_model (next_obj (services w')) m)
        (with_services (set_next_obj (S (next_obj (services w')))) w'))
        as (w2 & -> & _ & Hs & _); [done|]. cbn.
      apply JE_done; [|done]. unfold GE. by rewrite Hs.
  - apply JE_throw_after_error; [done|congruence].
Qed.

Lemma changeKernel_E (options : Kernel.IModel) (w : World) :
  JE w (_changeKernel options w) sound_or_broken.
Proof.
  unfold _changeKernel. run.
  destruct (_isDisposed (this w)) eqn:Hd; cbn; [eleaf|].
  destruct (_session (this w)) as [s|] eqn:Es; cbn;
    [|eapply JE_conseq; [apply @sound_weaken|apply startSession_E]].
  destruct (SessionConnection.kernel s) as [k|] eqn:Ek; cbn.
  - destruct (negb _); cbn;
      [|eapply JE_conseq; [apply @sound_weaken|apply startSession_E]].
    esusp. intros r w' [Hr _]. destruct r as [v|e]; cbn.
    + destruct v; cbn; eleaf.
    + apply JE_done; [done|]. intros [= ->]. done.
  - apply JE_done; [done|]. intros _ Hinv.
    destruct (Hinv s Es) as [k Hk]. congruence.
Qed.

Lemma shutdown_E (w : World) : JE w (shutdown w) sound.
Proof.
  unfold shutdown. run.
  destruct (_session (this w)) as [s|]; cbn; [|eleaf].
  esusp. intros r w' [Hr _]. destruct r; cbn; [eleaf|].
  apply JE_done; [done|]. unfold sound. congruence.
Qed.

Lemma selectKernel_E (cancelable : bool) (w : World) :
  JE w (_selectKernel cancelable w) sound_or_broken.
Proof.
  unfold _selectKernel. run.
  destruct (_isDisposed (this w)) eqn:Hd; cbn; [eleaf|].
  destruct (Private.populateKernelSelect _ _) as [err|] eqn:Ep; cbn.
  { apply JE_done; [done|]. intros [= ->].
    by apply populateKernelSelect_sound in Ep. }
  esusp. intros r w' [Hr _]. destruct r as [v|e]; cbn;
    [|apply JE_done; [done|]; intros [= ->]; done].
  destruct v as [| | | | |accept value]; cbn; try eleaf.
  destruct (_isDisposed (this w') || negb accept); cbn; [eleaf|].
  destruct value as [model|]; cbn.
  - destruct (_session (this w')); cbn;
      (eapply JE_rebase; [|ebind changeKernel_E]; done).
  - destruct (_session (this w')); cbn; [|eleaf].
    eapply JE_rebase;
      [|eapply JE_conseq; [apply @sound_weaken|apply shutdown_E]]; done.
Qed.

Lemma startIfNecessary_E (w : World) :
  JE w (_startIfNecessary w) sound_or_broken.
Proof.
  unfold _startIfNecessary. run.
  destruct (_ || _); cbn; [eleaf|].
  assert (∀ started w1, JE w1
    ((if started : bool then mret () else _selectKernel false) w1)
    sound_or_broken) as Hk.
  { intros [] w1; [eleaf|apply selectKernel_E]. }
  assert (∀ options, JE w
    (catchS (bindS (_changeKernel options w) (λ _, mret true))
            (λ _, mret false)) sound) as Hc.
  { intros options.
    eapply JE_catch with (Q1 := λ _ _, True); [| |done].
    - eapply JE_bind; [apply changeKernel_E| |done]. intros; eleaf.
    - intros; eleaf. }
  destruct (Js.truthy (ISessionContext.id _)); cbn.
  - eapply JE_bind; [apply Hc| |apply @sound_inr].
    intros a w1 _. apply Hk.
  - destruct (Js.truthy (Private.getDefaultKernel _ _)); cbn.
    + eapply JE_bind; [apply Hc| |apply @sound_inr].
      intros a w1 _. apply Hk.
    + apply selectKernel_E.
Qed.

Lemma initialize_E (w : World) : JE w (initialize w) sound_or_broken.
Proof.
  unfold initialize. run.
  destruct (_ || _); cbn.
  { esusp. intros r w' [Hr _]. destruct r; cbn; [eleaf|].
    apply JE_done; [done|]. intros [= ->]. done. }
  esusp. intros r w' [Hr Hc]. destruct r as [v|e]; cbn;
    [|apply JE_done; [done|]; intros [= ->]; done].
  assert (∀ w1, JE w1 ((_startIfNecessary;;
     assign (set_isReady true);; effect ReadyResolve;;
     assign (set_ready true)) w1) sound_or_broken) as Hk.
  { intros w1. run. ebind startIfNecessary_E. }
  destruct (List.find _ _) as [model|] eqn:Ef; cbn; [|exact (Hk w')].
  unfold connectTo. run.
  destruct (connectTo_throws (services w')) as [err|] eqn:Ec; cbn.
  { eapply JE_bind;
      [apply JE_throw_after_error; [done|congruence]| |apply @sound_inr].
    intros _ w1 _. exact (Hk w1). }
  destruct (_isDisposed (this w')) eqn:Hd'.
  - rewrite hns_disposed by done. cbn.
    eapply JE_bind; [apply JE_throw_after_error; done| |apply @sound_inr].
    intros _ w1 _. exact (Hk w1).
  - edestruct (hns_live false
      (SessionConnection.of_model (next_obj (services w')) model)
      (with_trace (λ t, t ++ [ConnectTo model])
         (with_services (set_next_obj (S (next_obj (services w')))) w')))
      as (w2 & Heq & _ & Hs & _); [done|].
    match goal with
    | |- context [_handleNewSession ?a ?b] =>
        replace (_handleNewSession a b) with
          (Done w2 (inl (SessionConnection.kernel
             (SessionConnection.of_model (next_obj (services w')) model))))
    end.
    cbn. eapply JE_rebase; [|exact (Hk w2)]. unfold GE. by rewrite Hs.
Qed.

Lemma after_initialize_E {A} (rest : Async A) (w : World) :
  (∀ w1, JE w1 (rest w1) sound_or_broken) →
  JE w ((initialize;; rest) w) sound_or_broken.
Proof.
  intros H. run. eapply JE_bind; [apply initialize_E| |].
  - intros _ w1 _. apply H.
  - apply @sound_or_broken_inr.
Qed.

Lemma public_changeKernel_E (options : Kernel.IModel) (w : World) :
  JE w (changeKernel options w) sound_or_broken.
Proof.
  unfold changeKernel. apply after_initialize_E. intros w1. run.
  destruct (_isDisposed (this w1)); cbn; [eleaf|apply changeKernel_E].
Qed.

Lemma public_selectKernel_E (w : World) :
  JE w (selectKernel w) sound_or_broken.
Proof.
  unfold selectKernel. apply after_initialize_E. intros w1. run.
  destruct (_isDisposed (this w1)); cbn; [eleaf|apply selectKernel_E].
Qed.

Lemma restartKernel_E (kernel : KernelConnection.t) (w : World) :
  JE w (restartKernel kernel w) sound.
Proof.
  unfold restartKernel. run.
  esusp. intros r w' [Hr _]. destruct r as [v|e]; cbn;
    [|apply JE_done; [done|]; unfold sound; congruence].
  destruct v as [| | | | |accept value]; cbn; try eleaf.
  destruct (bool_decide _); cbn; [eleaf|].
  destruct accept; cbn; [|eleaf].
  esusp. intros r w'' [Hr' _]. destruct r; cbn; [eleaf|].
  apply JE_done; [done|]. unfold sound. congruence.
Qed.

Lemma restart_E (w : World) : JE w (restart w) sound_or_broken.
Proof.
  unfold restart. apply after_initialize_E. intros w1. run.
  destruct (_isDisposed (this w1)); cbn; [eleaf|].
  destruct (session_kernel _); cbn;
    [eapply JE_conseq; [apply @sound_weaken|apply restartKernel_E]|].
  destruct (Js.truthy _); cbn; [|eleaf].
  ebind public_changeKernel_E.
Qed.

Lemma dispose_E (w : World) : JE w (dispose w) sound.
Proof.
  unfold dispose, session_dispose, clearData. run.
  destruct (_isDisposed (this w)) eqn:Hd; cbn; [eleaf|].
  destruct (_session (this w)) as [s|] eqn:Es; cbn;
    [destruct (Js.truthy_bool _); cbn|];
    destruct (_dialog (this w)) eqn:Ed; cbn;
    destruct (_busyDisposable (this w)) as [lease|] eqn:Eb; cbn;
    rewrite ?Hd, ?Es, ?Ed, ?Eb; cbn.
  all: try eleaf.
  all: apply JE_fork; [|eleaf].
  all: intros r w' _; destruct r; cbn; eleaf.
Qed.

Lemma invoke_E (c : Call) (w : World) :
  JE w (invoke c w) sound_or_broken.
Proof.
  destruct c; unfold invoke, returning; run.
  - ebind initialize_E.
  - ebind public_changeKernel_E.
  - ebind public_selectKernel_E.
  - ebind shutdown_E.
  - ebind restart_E.
  - ebind dispose_E.
  - unfold set_kernelPreference_. run. eleaf.
Qed.

Lemma deliver_E (sender : SessionConnection.t) (s : Signal) (w : World) :
  ∃ w1, deliver sender s w = Done w1 (inl tt) ∧ GE w w1.
Proof.
  rewrite deliver_unfold.
  assert (GE w (with_this (refresh sender) w)) as HG by done.
  revert HG. generalize (with_this (refresh sender) w). intros wr HG.
  assert (∀ w1 : World, services w1 = services wr → GE w w1) as Hf.
  { intros w1 H1. unfold GE in *. by rewrite H1. }
  unfold deliver_connected. run.
  case_bool_decide; cbn; [|by eexists].
  destruct s; cbn.
  - unfold _onSessionDisposed, session_dispose. run.
    destruct (_session (this wr)); cbn; eexists;
      (split; [reflexivity|]); by apply Hf.
  - unfold _onPropertyChanged. run.
    destruct p; cbn; eexists; (split; [reflexivity|]); by apply Hf.
  - unfold _onKernelChanged. run. eexists; (split; [reflexivity|]).
    by apply Hf.
  - unfold _onStatusChanged. run.
    destruct (_setBusy (this wr)); cbn;
      [destruct (String.eqb status "busy"); cbn;
       destruct (_busyDisposable (this wr)); cbn|];
      eexists; (split; [reflexivity|]); unfold GE in *; cbn; done.
  - unfold _onConnectionStatusChanged. run.
    eexists; (split; [reflexivity|]). by apply Hf.
  - unfold _onIopubMessage. run. eexists; (split; [reflexivity|]).
    by apply Hf.
  - unfold _onUnhandledMessage. run. eexists; (split; [reflexivity|]).
    by apply Hf.
Qed.

(** What a run up to the next [await] leaves: a call that ended with the
    error of the read ended in a state whose attached session has no
    kernel. *)
Lemma install_E (st : Step Value) :
  ∀ id caller sys w0,
    JE w0 st (if caller : bool then sound_or_broken else T) →
    Forall task_E (pending sys) →
    GE w0 (world (install id caller st sys)) ∧
    Forall task_E (pending (install id caller st sys)) ∧
    ∀ x, x ∈ settled (install id caller st sys) →
      x ∈ settled sys ∨
      (x.2 = inr status_of_null →
       ¬ kernel_invariant (world (install id caller st sys))).
Proof.
  induction st as [w r|w q k IH|q k rest IH] using Step_induction;
    intros id caller sys w0 HJ Hp; cbn.
  - destruct HJ as ([] & HG & HQ). split_and!; [done|done|].
    intros x Hx. destruct caller; [|by left].
    apply elem_of_app in Hx as [Hx|Hx]; [by left|].
    apply list_elem_of_singleton in Hx as ->. right. exact HQ.
  - destruct HJ as ([] & HG & _ & Hk). split_and!; [done| |by left].
    apply Forall_app. split; [done|]. apply Forall_singleton.
    intros r w' Hr. cbn. by apply Hk.
  - destruct HJ as [[_ Hk] Hrest].
    destruct (IH id caller
      {| world := world sys;
         pending := pending sys ++
           [{| task_id := next_task sys; task_caller := false;
               task_request := q;
               task_resume := λ r w, bindS (k r w) (λ _, mret VUndefined) |}];
         settled := settled sys; next_task := S (next_task sys) |} w0 Hrest)
      as (H1 & H2 & H3); [|done].
    cbn. apply Forall_app. split; [done|]. apply Forall_singleton.
    intros r w' Hr. cbn.
    eapply JE_bind; [exact (Hk r w' Hr)| |done].
    intros a w1 _. by apply JE_done.
Qed.

Lemma step_E (sys : System) (e : Event) :
  connectTo_throws (services (world sys)) ≠ Some status_of_null →
  Forall task_E (pending sys) →
  supplies_fault e = false →
  connectTo_throws (services (world (step sys e))) ≠ Some status_of_null ∧
  Forall task_E (pending (step sys e)) ∧
  ∀ x, x ∈ settled (step sys e) →
    x ∈ settled sys ∨
    (x.2 = inr status_of_null → ¬ kernel_invariant (world (step sys e))).
Proof.
  intros Hc Hp He.
  assert (∀ st id caller sys1,
    world sys1 = world sys → settled sys1 = settled sys →
    JE (world sys) st (if caller : bool then sound_or_broken else T) →
    Forall task_E (pending sys1) →
    connectTo_throws (services (world (install id caller st sys1)))
      ≠ Some status_of_null ∧
    Forall task_E (pending (install id caller st sys1)) ∧
    ∀ x, x ∈ settled (install id caller st sys1) →
      x ∈ settled sys ∨
      (x.2 = inr status_of_null →
       ¬ kernel_invariant (world (install id caller st sys1)))) as Hi.
  { intros st id caller sys1 Hw Hs HJ Hp1.
    destruct (install_E st id caller sys1 (world sys) HJ Hp1)
      as (HG & H2 & H3).
    split_and!; [by rewrite HG|done|]. by rewrite <- Hs. }
  destruct e as [c|id r|sender s|l|sp|err|k|b]; cbn [step].
  - apply Hi; [done|done|apply invoke_E|done].
  - destruct (take id (pending sys)) as [[t rest]|] eqn:Et;
      [|split_and!; [done|done|by left]].
    destruct (fits _ _ _) eqn:Hf; [|split_and!; [done|done|by left]].
    apply take_Some in Et as [Ht Hsub]. rewrite Forall_forall in Hp.
    apply Hi; [done|done| |].
    + apply (Hp t Ht). split; [|done]. intros ->. cbn in He.
      by rewrite bool_decide_eq_true_2 in He.
    + cbn. apply Forall_forall. intros x Hx. by apply Hp, Hsub.
  - destruct (deliver_E sender s (world sys)) as (w1 & Hd & HG).
    unfold returning. unfold mbind, Async_bind. rewrite Hd. cbn.
    split_and!; [by rewrite HG|done|by left].
  - split_and!; [done|done|by left].
  - split_and!; [done|done|by left].
  - split_and!; [|done|by left]. cbn. destruct err as [err|]; [|done].
    cbn in He. intros [= ->]. by rewrite bool_decide_eq_true_2 in He.
  - split_and!; [done|done|by left].
  - split_and!; [done|done|by left].
Qed.

Lemma run_E (es : list Event) :
  ∀ sys,
    connectTo_throws (services (world sys)) ≠ Some status_of_null →
    Forall task_E (pending sys) →
    Forall (λ e, supplies_fault e = false) es →
    (∀ n, kernel_invariant (world (run (firstn n es) sys))) →
    ∀ x, x ∈ settled (run es sys) → x.2 = inr status_of_null →
         x ∈ settled sys.
Proof.
  induction es as [|e es IH]; intros sys Hc Hp Hes Hinv x Hx Hf; [done|].
  change (run (e :: es) sys) with (run es (step sys e)) in Hx.
  apply Forall_cons in Hes as [He Hes].
  destruct (step_E sys e Hc Hp He) as (Hc1 & Hp1 & Hs1).
  apply (IH (step sys e)) in Hx; [|done|done|done| |done].
  - destruct (Hs1 x Hx) as [H|H]; [done|].
    destruct (H Hf). exact (Hinv 1%nat).
  - intros n. exact (Hinv (S n)).
Qed.

Lemma startIfNecessary_swallows (w : World) (s : SessionConnection.t) :
  _session (this w) = Some s → SessionConnection.kernel s = None →
  _isDisposed (this w) = false →
  Js.is_false (ISessionContext.shouldStart (_kernelPreference (this w)))
    = false →
  Js.is_false (ISessionContext.canStart (_kernelPreference (this w)))
    = false →
  _startIfNecessary w = _selectKernel false w.
Proof.
  intros Hs Hk Hd H1 H2. unfold _startIfNecessary. run.
  rewrite Hd, Hs, H1, H2. cbn. rewrite Hk. cbn.
  destruct (Js.truthy (ISessionContext.id _)); cbn.
  - by rewrite (changeKernel_faults w _ s Hd Hs Hk).
  - destruct (Js.truthy (Private.getDefaultKernel _ _)); cbn; [|done].
    by rewrite (changeKernel_faults w _ s Hd Hs Hk).
Qed.

(** C10.  [_changeKernel] reads [session.kernel.status] with no null
    guard.
    - In a context that is not disposed and holds a session, the read
      faults exactly when that session's kernel is null: [_changeKernel]
      then throws the [TypeError] at once, and otherwise it goes on to
      [session.changeKernel] or to [startNew].
    - After any events, if at every moment between two events the session
      held in [_session], when there is one, has a kernel, then no call of
      any public method ([changeKernel()], [restart()] and its fallback,
      [initialize()] and the startup, [selectKernel()]) has been rejected
      with that [TypeError], provided the services did not hand the
      context that very error (in a rejected promise or thrown by
      [connectTo]).
    - On the startup path the read is reached with a session attached
      only when its kernel is null: when the attached session has a
      kernel, [_startIfNecessary] returns at once; when it has none and a
      kernel is to be started, the fault is swallowed and
      [_startIfNecessary] goes on as [_selectKernel(false)].
    - The precondition is the services' to keep: it holds after any
      events in which every session the services list or hand out has a
      kernel and every connection that emits a signal has one. *)
Theorem changeKernel_kernel_precondition (path name type : option string)
    (preference : option ISessionContext.IKernelPreference)
    (setBusy : option (nat → bool)) (uuid : string) (e : Services) :
  (∀ w options s,
     _isDisposed (this w) = false → _session (this w) = Some s →
     (_changeKernel options w = Done w (inr status_of_null) ↔
      SessionConnection.kernel s = None)) ∧
  (∀ es,
     connectTo_throws e ≠ Some status_of_null →
     Forall (λ ev, supplies_fault ev = false) es →
     (∀ n, kernel_invariant
             (world (started path name type preference setBusy uuid e
                       (firstn n es)))) →
     ∀ id, (id, inr status_of_null) ∉
           settled (started path name type preference setBusy uuid e es)) ∧
  (∀ w s, _session (this w) = Some s →
     (is_Some (SessionConnection.kernel s) →
      _startIfNecessary w = Done w (inl tt)) ∧
     (SessionConnection.kernel s = None →
      _isDisposed (this w) = false →
      Js.is_false (ISessionContext.shouldStart (_kernelPreference (this w)))
        = false →
      Js.is_false (ISessionContext.canStart (_kernelPreference (this w)))
        = false →
      _startIfNecessary w = _selectKernel false w)) ∧
  (∀ es,
     Forall has_kernel (running e) → Forall (okE true) es →
     kernel_invariant
       (world (started path name type preference setBusy uuid e es))).
Proof.
  split_and!.
  - intros w options s Hd Hs. split.
    + intros H. destruct (SessionConnection.kernel s) as [k|] eqn:Ek; [|done].
      exfalso. revert H. unfold _changeKernel, _startSession. run.
      rewrite Hd, Hs. cbn. rewrite Ek. cbn.
      destruct (negb _); cbn; rewrite ?Hd; cbn; discriminate.
    + by apply changeKernel_faults.
  - intros es Hc Hes Hinv id Hin.
    eapply (run_E es) in Hin; [| | |exact Hes|exact Hinv|reflexivity].
    + cbn in Hin. by apply elem_of_nil in Hin.
    + exact Hc.
    + cbn. apply Forall_nil_2.
  - intros w s Hs. split.
    + intros [k Hk]. unfold _startIfNecessary. run. rewrite Hs. cbn.
      rewrite Hk. cbn. by rewrite orb_true_r.
    + by apply startIfNecessary_swallows.
  - intros es He Hes.
    destruct (run_I true setBusy es
      (boot (new_SessionContext path name type preference setBusy uuid) e))
      as ([(_ & _ & _ & HK) _] & _); [by apply boot_I|done|].
    by destruct (HK eq_refl).
Qed.

Lemma changeKernel_kernel_precondition_witness :
  let options := {| Kernel.id := None; Kernel.name := Some "python2" |} in
  let sys :=
    run [Invoke CallInitialize; Settle 0 (Resolved VUndefined);
         Settle 0 (Resolved (VSession Example.notebook));
         Invoke (CallChangeKernel options);
         Settle 1 (Resolved VUndefined);
         Settle 1 (Resolved (VKernel (Some Example.kernel1)))]
      (boot (Example.context0 (Example.by_name "python3"))
            Example.services0) in
  session_kernel (_session (this (world sys))) = Some Example.kernel1 ∧
  Called (SessionChangeKernel 0 options) ∈ trace (world sys) ∧
  settled sys =
    [(0, inl VUndefined); (1, inl (VKernel (Some Example.kernel1)))] ∧
  ∀ id, (id, inr status_of_null) ∉ settled sys.
Proof.
  intros options sys. split_and!.
  - reflexivity.
  - vm_compute. repeat first [by left|right].
  - reflexivity.
  - apply (proj1 (proj2 (changeKernel_kernel_precondition
      (Some "a.ipynb") None (Some "notebook")
      (Some (Example.by_name "python3")) (Some Example.leases) "uuid"
      Example.services0))
      [Invoke CallInitialize; Settle 0 (Resolved VUndefined);
       Settle 0 (Resolved (VSession Example.notebook));
       Invoke (CallChangeKernel options);
       Settle 1 (Resolved VUndefined);
       Settle 1 (Resolved (VKernel (Some Example.kernel1)))]).
    + discriminate.
    + repeat constructor.
    + intros n s.
      do 7 (try destruct n as [|n]); vm_compute; intros [= <-]; by eexists.
Defined.

(** * Further properties *)

(** ** More on kernel selection *)

Lemma exact_match_key (C : KernelSpec.ISpecModels) (n : string) :
  Private.exact_match (Private.spec_names C) (Some n) = true ↔
  is_Some (KernelSpec.kernelspecs C !! n).
Proof.
  rewrite exact_match_spec. unfold Private.spec_names. split.
  - intros (n' & [= <-] & Hin).
    apply list_elem_of_fmap in Hin as ([k sp] & -> & Hin).
    apply elem_of_map_to_list in Hin. by exists sp.
  - intros [sp Hsp]. exists n. split; [done|].
    apply list_elem_of_fmap. exists (n, sp). split; [done|].
    by apply elem_of_map_to_list.
Qed.

Lemma exact_match_None (keys : list string) :
  Private.exact_match keys None = false.
Proof. by induction keys. Qed.

(** X1.  A name that is the name of a spec is chosen, whatever the language and
    the default are. *)
Theorem getDefaultKernel_exact_name (C : KernelSpec.ISpecModels)
    (P : ISessionContext.IKernelPreference) (n : string) :
  ISessionContext.shouldStart P ≠ Some false →
  ISessionContext.canStart P ≠ Some false →
  ISessionContext.name P = Some n → n ≠ "" →
  is_Some (KernelSpec.kernelspecs C !! n) →
  Private.getDefaultKernel (Some C) P = Some n.
Proof.
  intros Hs Hc Hn Hne Hkey. unfold Private.getDefaultKernel.
  destruct (ISessionContext.shouldStart P) as [[]|]; try done;
  destruct (ISessionContext.canStart P) as [[]|]; try done; cbn;
    rewrite Hn; cbn.
  all: assert (negb (n =? "")%string = true) as ->
         by (apply (truthy_Some n), Hne).
  all: cbn; by rewrite (proj2 (exact_match_key C n) Hkey).
Qed.

Lemma getDefaultKernel_exact_name_witness :
  Private.getDefaultKernel (Some Example.catalog)
    {| ISessionContext.name := Some "python2";
       ISessionContext.language := Some "r";
       ISessionContext.id := None; ISessionContext.shouldStart := None;
       ISessionContext.canStart := None;
       ISessionContext.shutdownOnDispose := None;
       ISessionContext.autoStartDefault := Some true |} = Some "python2".
Proof.
  apply getDefaultKernel_exact_name; [done|done|done|done|].
  by exists Example.python2.
Defined.

(** X3.  [getDefaultKernel] makes up no name: what it returns is the name of a
    spec of the catalog, or the default of the catalog, which only a
    truthy [autoStartDefault] lets through. *)
Theorem getDefaultKernel_in_catalog (specs : option KernelSpec.ISpecModels)
    (P : ISessionContext.IKernelPreference) (n : string) :
  Private.getDefaultKernel specs P = Some n →
  ∃ C, specs = Some C ∧
    (is_Some (KernelSpec.kernelspecs C !! n) ∨
     (n = KernelSpec.default C ∧
      ISessionContext.autoStartDefault P = Some true)).
Proof.
  unfold Private.getDefaultKernel. destruct specs as [C|]; [|done].
  intros H. exists C. split; [done|].
  assert (∀ n, (if Js.truthy_bool (ISessionContext.autoStartDefault P)
                then Some (KernelSpec.default C) else None) = Some n →
          n = KernelSpec.default C ∧
          ISessionContext.autoStartDefault P = Some true) as Hd.
  { intros m. destruct (ISessionContext.autoStartDefault P) as [[]|];
      cbn; [|done..]. by intros [= <-]. }
  destruct (_ || _); [done|]. cbn zeta in H.
  destruct (_ && _); [right; by apply Hd|].
  destruct (Private.exact_match _ _) eqn:E.
  { left. destruct (ISessionContext.name P) as [m|] eqn:En.
    - injection H as ->. by apply exact_match_key.
    - by rewrite exact_match_None in E. }
  destruct (negb _); [right; by apply Hd|].
  destruct (ISessionContext.language P) as [l|]; [|right; by apply Hd].
  destruct (Private.language_matches _ _) as [|a [|b t]] eqn:El;
    try (right; by apply Hd).
  injection H as ->. left.
  assert (n ∈ Private.language_matches
            (map_to_list (KernelSpec.kernelspecs C)) l) as Hin
    by (rewrite El; left).
  apply language_matches_map in Hin as (sp & Hsp & _). by exists sp.
Qed.

Lemma getDefaultKernel_in_catalog_witness :
  ∃ C, Some Example.catalog = Some C ∧
    (is_Some (KernelSpec.kernelspecs C !! "ir") ∨
     ("ir" = KernelSpec.default C ∧
      ISessionContext.autoStartDefault (Example.by_language "r") = Some true)).
Proof.
  apply (getDefaultKernel_in_catalog (Some Example.catalog)
           (Example.by_language "r") "ir").
  by vm_compute.
Defined.

(** X2.  Without a language, the name decides alone: the name of a spec is
    chosen, and any other name, or none, gives the fallback. *)
Theorem getDefaultKernel_no_language (C : KernelSpec.ISpecModels)
    (P : ISessionContext.IKernelPreference) :
  ISessionContext.shouldStart P ≠ Some false →
  ISessionContext.canStart P ≠ Some false →
  Js.truthy (ISessionContext.language P) = false →
  (∀ n, ISessionContext.name P = Some n → n ≠ "" →
        KernelSpec.kernelspecs C !! n = None →
        Private.getDefaultKernel (Some C) P = fallback C P) ∧
  (Js.truthy (ISessionContext.name P) = false →
        Private.getDefaultKernel (Some C) P = fallback C P).
Proof.
  intros Hs Hc Hl. unfold Private.getDefaultKernel, fallback.
  destruct (ISessionContext.shouldStart P) as [[]|]; try done;
  destruct (ISessionContext.canStart P) as [[]|]; try done; cbn;
    rewrite Hl; cbn.
  all: split; [intros n Hn Hne Hnone|intros Hn]; rewrite Hn; cbn.
  all: try assert (negb (n =? "")%string = true) as ->
         by (apply (truthy_Some n), Hne).
  all: cbn; try done.
  all: destruct (Private.exact_match _ _) eqn:E; [|done].
  all: apply exact_match_key in E as [sp Hsp]; congruence.
Qed.

Lemma getDefaultKernel_no_language_witness :
  Private.getDefaultKernel (Some Example.catalog)
    (Example.by_name "julia") =
  fallback Example.catalog (Example.by_name "julia").
Proof.
  refine (proj1 (getDefaultKernel_no_language Example.catalog
                   (Example.by_name "julia") _ _ _) "julia" _ _ _);
    done.
Defined.

(** ** Starting a session *)

(** X4.  [_startSession] in a disposed context throws before it calls
    [startNew].  Otherwise it calls [startNew] with the path, type and name
    of the context; a rejection reaches the caller unchanged and leaves the
    fields and the connections as they are, an error dialog being started
    on the side for a response error only; and when the context was
    disposed while [startNew] was pending, the new session is not attached
    and the caller is rejected. *)
Theorem startSession_failures (model : Kernel.IModel) (w : World) :
  (_isDisposed (this w) = true →
     _startSession model w =
       Done w (inr (Thrown "Client session is disposed."))) ∧
  (_isDisposed (this w) = false →
     let st := _startSession model w in
     awaits st = Some (StartNew (_path (this w)) (_type (this w))
                                (_name (this w)) model) ∧
     landing st =
       with_trace (λ t, t ++ [Called (StartNew (_path (this w))
                     (_type (this w)) (_name (this w)) model)]) w ∧
     (∀ e w', let st' := resume st (Rejected e) w' in
        outcome st' = Some (inr e) ∧
        this (landing st') = this w' ∧ slots (landing st') = slots w' ∧
        (forked st').*1 =
          match e with ResponseError _ _ => [ResponseText] | _ => [] end) ∧
     (∀ m w', _isDisposed (this w') = true →
        let st' := resume st (Resolved (VSession m)) w' in
        outcome st' = Some (inr (Error "Disposed")) ∧
        _session (this (landing st')) = _session (this w') ∧
        slots (landing st') = slots w')).
Proof.
  split; intros Hd; unfold _startSession; run; rewrite Hd; cbn; [done|].
  split_and!; [done|done| |].
  - intros e w'. unfold _handleSessionError. by destruct e.
  - intros m w' Hd'. rewrite hns_disposed by done. cbn.
    unfold _handleSessionError. by cbn.
Qed.

(** ** The startup when no kernel may be started *)



(** ** Restarting a kernel *)

(** X8.  [SessionContext.restartKernel] asks first.  It calls
    [kernel.restart()] exactly when the user accepted and the kernel is not
    disposed when the dialog closes; it resolves with [true] exactly when,
    after that, the restart resolved, and with [false] when the user
    declined or the kernel was disposed. *)
Theorem restartKernel_asks_first (kernel : KernelConnection.t) (w : World) :
  let st := restartKernel kernel w in
  awaits st = Some ShowRestartDialog ∧
  ∀ accept value w',
    let st1 := resume st (Resolved (VResult accept value)) w' in
    let gone := bool_decide (KernelConnection.id kernel
                               ∈ disposed_kernels (services w')) in
    (awaits st1 =
       if accept && negb gone
       then Some (KernelRestart (KernelConnection.id kernel)) else None) ∧
    (accept && negb gone = false → outcome st1 = Some (inl false)) ∧
    (∀ r w'', outcome (resume st1 r w'') = Some (inl true) ↔
              accept && negb gone = true ∧ ∃ v, r = Resolved v).
Proof.
  unfold restartKernel. run. split; [done|].
  intros accept value w'. case_bool_decide; cbn.
  - rewrite andb_false_r. split_and!; [done|done|].
    intros r w''. split; [done|]. by intros [? _].
  - destruct accept; cbn.
    + split_and!; [done|done|]. intros r w''. destruct r as [v|e]; cbn.
      * split; [eauto|done].
      * split; [done|]. by intros [_ [v [=]]].
    + split_and!; [done|done|].
      intros r w''. split; [done|]. by intros [? _].
Qed.

(** ** Attaching a session *)

Lemma hns_attaches (s : SessionConnection.t) (w : World) :
  _isDisposed (this w) = false →
  ∃ w', _handleNewSession s w = Done w' (inl (SessionConnection.kernel s)) ∧
    _session (this w') = Some s ∧
    _path (this w') = SessionConnection.path s ∧
    _name (this w') = SessionConnection.name s ∧
    _type (this w') = SessionConnection.type s ∧
    _prevKernelName (this w') =
      KernelConnection.name <$> SessionConnection.kernel s ∧
    _isDisposed (this w') = false ∧
    (∀ ch, (SessionConnection.obj s, ch) ∈ slots w').
Proof.
  intros Hd.
  unfold _handleNewSession, session_dispose, connect, _onPropertyChanged.
  run. rewrite Hd. cbn.
  assert (∀ (l : list (nat * Channel)) ch,
    (SessionConnection.obj s, ch) ∈
      add_slot (SessionConnection.obj s, ChUnhandledMessage)
      (add_slot (SessionConnection.obj s, ChIopubMessage)
      (add_slot (SessionConnection.obj s, ChConnectionStatusChanged)
      (add_slot (SessionConnection.obj s, ChStatusChanged)
      (add_slot (SessionConnection.obj s, ChKernelChanged)
      (add_slot (SessionConnection.obj s, ChPropertyChanged)
      (add_slot (SessionConnection.obj s, ChDisposed) l))))))) as Hslots.
  { intros l ch. rewrite !elem_of_add_slot. destruct ch; auto 10. }
  destruct (_session (this w)) as [old|]; cbn;
    destruct (String.eqb_spec (SessionConnection.path s) (_path (this w)));
    cbn;
    destruct (String.eqb_spec (SessionConnection.name s) (_name (this w)));
    cbn;
    destruct (String.eqb_spec (SessionConnection.type s) (_type (this w)));
    cbn.
  all: eexists; split; [reflexivity|]; cbn; split_and!; try done.
Qed.

(** X11.  After [_handleNewSession], the path, the name and the type of the
    context are those of the session attached, and the previous kernel
    name is the name of its kernel: a session with no kernel erases the
    name recorded before.  All seven signals of the session are
    connected. *)
Theorem handleNewSession_mirrors (s : SessionConnection.t) (w : World) :
  _isDisposed (this w) = false →
  let w1 := landing (_handleNewSession s w) in
  _session (this w1) = Some s ∧
  _path (this w1) = SessionConnection.path s ∧
  _name (this w1) = SessionConnection.name s ∧
  _type (this w1) = SessionConnection.type s ∧
  _prevKernelName (this w1) =
    KernelConnection.name <$> SessionConnection.kernel s ∧
  (∀ ch, (SessionConnection.obj s, ch) ∈ slots w1).
Proof.
  intros Hd. destruct (hns_attaches s w Hd) as (w' & -> & H). cbn.
  destruct H as (?&?&?&?&?&?&?). by split_and!.
Qed.

(** ** Restarting with no kernel *)

(** X9.  [restart()] in a context that is initializing or ready waits for the
    ready promise.  Then, disposed, it is rejected.  With a kernel it is
    [restartKernel].  With no kernel and no previous kernel name, it is
    rejected with "No kernel to restart" and does nothing.  With no
    session attached and a previous kernel name, it waits for the ready
    promise once more (in [changeKernel()]), calls [startNew] for a
    kernel of that name, attaches the session made and resolves with
    [true]. *)
Theorem restart_without_kernel (w : World) :
  _initializing (this w) || _isReady (this w) = true →
  let st := restart w in
  awaits st = Some ReadyPromise ∧
  ∀ v w', let st1 := resume st (Resolved v) w' in
    (_isDisposed (this w') = true →
       st1 = Done w' (inr (Error "session already disposed"))) ∧
    (_isDisposed (this w') = false →
       (∀ kernel, session_kernel (_session (this w')) = Some kernel →
          st1 = restartKernel kernel w') ∧
       (session_kernel (_session (this w')) = None →
          (Js.truthy (_prevKernelName (this w')) = false →
             st1 = Done w' (inr (Error "No kernel to restart"))) ∧
          (Js.truthy (_prevKernelName (this w')) = true →
           _initializing (this w') || _isReady (this w') = true →
             awaits st1 = Some ReadyPromise ∧
             ∀ v2 w2,
               _isDisposed (this w2) = false → _session (this w2) = None →
               let st2 := resume st1 (Resolved v2) w2 in
               awaits st2 =
                 Some (StartNew (_path (this w2)) (_type (this w2))
                         (_name (this w2))
                         {| Kernel.id := None;
                            Kernel.name := _prevKernelName (this w') |}) ∧
               ∀ m w3, _isDisposed (this w3) = false →
                 let st3 := resume st2 (Resolved (VSession m)) w3 in
                 outcome st3 = Some (inl true) ∧
                 _session (this (landing st3)) =
                   Some (SessionConnection.of_model
                           (next_obj (services w3)) m)))).
Proof.
  intros Hn. unfold restart, initialize. run. rewrite Hn. cbn.
  split; [done|]. intros v w'. split; intros Hd; rewrite Hd; cbn; [done|].
  split.
  - intros kernel Hk. by rewrite Hk.
  - intros Hk. rewrite Hk. split; intros Hp; rewrite Hp; cbn; [done|].
    intros Hn'. unfold changeKernel, initialize. run. rewrite Hn'. cbn.
    split; [done|]. intros v2 w2 Hd2 Hs2. rewrite Hd2. cbn.
    unfold _changeKernel, _startSession. run. rewrite Hd2, Hs2. cbn.
    rewrite Hd2. cbn. split; [done|]. intros m w3 Hd3.
    match goal with |- context [_handleNewSession ?a ?b] =>
      destruct (hns_attaches a b) as (w4 & -> & Hs4 & _); [done|] end.
    cbn. done.
Qed.

(** ** Disposal and the session *)

(** X14.  [dispose()] never throws and never waits.  It asks the attached
    session to shut down exactly when [shutdownOnDispose] is truthy, and
    does not wait for the answer: a rejection is logged and nothing
    else. *)
Theorem dispose_shutdown (w : World) :
  _isDisposed (this w) = false →
  let st := dispose w in
  outcome st = Some (inl tt) ∧
  (forked st).*1 =
    match _session (this w) with
    | Some s =>
        if Js.truthy_bool (ISessionContext.shutdownOnDispose
                             (_kernelPreference (this w)))
        then [SessionShutdown (SessionConnection.obj s)] else []
    | None => []
    end ∧
  (∀ q k, (q, k) ∈ forked st →
     (∀ v w', k (Resolved v) w' = Done w' (inl tt)) ∧
     (∀ e w', k (Rejected e) w' =
                Done (with_trace (λ t, t ++ [ConsoleError]) w') (inl tt))).
Proof.
  intros Hd. unfold dispose, session_dispose, clearData. run.
  rewrite Hd. cbn.
  destruct (_session (this w)) as [s|] eqn:Es; cbn;
    [destruct (Js.truthy_bool _); cbn|];
    destruct (_dialog (this w)) eqn:Ed; cbn;
    destruct (_busyDisposable (this w)) as [lease|] eqn:Eb; cbn;
    rewrite ?Hd, ?Es, ?Ed, ?Eb; cbn.
  all: split_and!; [done|done|]; intros q k Hin.
  all: try by apply elem_of_nil in Hin.
  all: apply list_elem_of_singleton in Hin as [= -> ->]; by split.
Qed.

(** ** Signals of the attached session *)

(** X12.  A signal that arrives on a connected slot is emitted again by the
    context, once and with the same arguments ([disposed] as
    [terminated]); a change of property also copies the property, and
    [disposed] detaches the session.  A signal that arrives on no
    connected slot emits nothing. *)
Theorem deliver_proxies (sender : SessionConnection.t) (sig : Signal)
    (w : World) :
  ∃ w', deliver sender sig w = Done w' (inl tt) ∧
    filter is_Emit (trace w') =
      filter is_Emit (trace w) ++
      (if bool_decide ((SessionConnection.obj sender, channel_of sig)
                         ∈ slots w)
       then [Emit (proxied sig)] else []) ∧
    ((SessionConnection.obj sender, channel_of sig) ∈ slots w →
       match sig with
       | SigPropertyChanged Path =>
           _path (this w') = SessionConnection.path sender
       | SigPropertyChanged Name =>
           _name (this w') = SessionConnection.name sender
       | SigPropertyChanged Type_ =>
           _type (this w') = SessionConnection.type sender
       | SigDisposed =>
           _session (this w') = None ∧
           ∀ ch, (SessionConnection.obj sender, ch) ∉ slots w'
       | _ => True
       end).
Proof.
  rewrite deliver_unfold. unfold deliver_connected. run.
  case_bool_decide as Hin; cbn.
  2:{ eexists. split; [reflexivity|]. by rewrite app_nil_r. }
  destruct sig; cbn.
  - unfold _onSessionDisposed, session_dispose. run.
    destruct (_session (refresh sender (this w))); cbn;
      (eexists; split; [reflexivity|]); cbn;
      rewrite ?filter_app; cbn; rewrite ?app_nil_r;
      (split; [done|]); intros _; (split; [done|]);
      intros ch [Hne _]%elem_of_drop_slots; done.
  - unfold _onPropertyChanged. run.
    destruct p; cbn; (eexists; split; [reflexivity|]); cbn;
      rewrite ?filter_app; cbn; by rewrite ?app_nil_r.
  - unfold _onKernelChanged. run. eexists; split; [reflexivity|]; cbn.
    rewrite ?filter_app; cbn; by rewrite ?app_nil_r.
  - unfold _onStatusChanged. run.
    destruct (_setBusy (refresh sender (this w))); cbn;
      [destruct (String.eqb status "busy"); cbn;
       destruct (_busyDisposable (refresh sender (this w))); cbn|];
      (eexists; split; [reflexivity|]); cbn;
      rewrite ?filter_app; cbn; by rewrite ?app_nil_r.
  - unfold _onConnectionStatusChanged. run.
    eexists; split; [reflexivity|]; cbn.
    rewrite ?filter_app; cbn; by rewrite ?app_nil_r.
  - unfold _onIopubMessage. run. eexists; split; [reflexivity|]; cbn.
    rewrite ?filter_app; cbn; by rewrite ?app_nil_r.
  - unfold _onUnhandledMessage. run. eexists; split; [reflexivity|]; cbn.
    rewrite ?filter_app; cbn; by rewrite ?app_nil_r.
Qed.

(** ** The error dialog *)

(** X13.  [_handleSessionError] reads the text of the response first; if that
    fails, no dialog is shown.  Then it shows the error dialog and records
    it in [_dialog]; when the dialog is closed, [_dialog] is reset to
    [null], whatever it holds by then, and nothing else changes.  An
    error that is no response error makes it throw at once. *)
Theorem handleSessionError_dialog (err : JsError) (w : World) :
  match err with
  | ResponseError _ _ =>
      let st := _handleSessionError err w in
      awaits st = Some ResponseText ∧
      (∀ e w', resume st (Rejected e) w' = Done w' (inr e)) ∧
      (∀ v w',
         let st1 := resume st (Resolved v) w' in
         let d := next_obj (services w') in
         awaits st1 = Some (DialogLaunch d) ∧
         _dialog (this (landing st1)) = Some d ∧
         trace (landing st1) =
           trace w' ++ [NewDialog d ErrorStartingKernel;
                        Called (DialogLaunch d)] ∧
         (∀ e w2, resume st1 (Rejected e) w2 = Done w2 (inr e)) ∧
         (∀ v2 w2,
            resume st1 (Resolved v2) w2 =
              Done (with_this (set_dialog None) w2) (inl tt)))
  | _ => ∃ e, _handleSessionError err w = Done w (inr e)
  end.
Proof.
  unfold _handleSessionError. destruct err; run; eauto.
  split_and!; [done|done|]. intros v w'. split_and!; try done.
  by rewrite <- app_assoc.
Qed.


Lemma handleNewSession_mirrors_witness :
  _path (this (Example.attached ISessionContext.empty)) = "a.ipynb" ∧
  _prevKernelName (this (Example.attached ISessionContext.empty)) = Some "python3".
Proof.
  pose proof (handleNewSession_mirrors
    (SessionConnection.of_model 0 Example.notebook)
    (Example.waiting ISessionContext.empty) eq_refl) as (_ & H1 & _ & _ & H2 & _).
  exact (conj H1 H2).
Defined.

Lemma restart_without_kernel_witness :
  awaits (restart (Example.waiting ISessionContext.empty)) = Some ReadyPromise.
Proof.
  exact (proj1 (restart_without_kernel
    (Example.waiting ISessionContext.empty) eq_refl)).
Defined.

Lemma dispose_shutdown_witness :
  (forked (dispose (Example.attached Example.no_start))).*1 = [SessionShutdown 0].
Proof.
  exact (proj1 (proj2 (dispose_shutdown (Example.attached Example.no_start) eq_refl))).
Defined.

(** ** The selection dialog *)

Lemma preferred_names_named (specs : KernelSpec.ISpecModels)
    (name language : option string) (b : bool) :
  (∀ n, name = Some n → n ≠ "" →
     is_Some (KernelSpec.kernelspecs specs !! n)) →
  Private.sort_throws b specs (Private.preferred_names specs name language)
  = false.
Proof.
  intros Hname. unfold Private.sort_throws, Private.preferred_names.
  set (names := _ ++ _).
  assert (Forall (λ a, is_Some (KernelSpec.kernelspecs specs !! a)) names)
    as Hall.
  { apply Forall_app. split.
    - destruct name as [n|]; [|done].
      destruct (Js.truthy (Some n)) eqn:Et; cbn; [|done].
      destruct (Private.has_property specs n); [|done].
      apply Forall_singleton, Hname; [done|]. by apply truthy_Some.
    - destruct language as [l|]; [|done].
      destruct (Js.truthy (Some l)); [|done].
      apply Forall_forall. intros a [_ Ha]%list_elem_of_filter.
      apply language_matches_spec in Ha as (sp & Hin & _).
      apply elem_of_map_to_list in Hin. by exists sp. }
  destruct names as [|a [|a' names]]; [done|done|].
  destruct b; [|done]. cbn. case_bool_decide as Hex; [|done].
  apply Exists_exists in Hex as (x & Hx & Hnone).
  rewrite Forall_forall in Hall. destruct (Hall x Hx) as [? ?]. congruence.
Qed.

(** X7.  [_selectKernel] in a disposed context opens nothing.  Otherwise
    it builds the kernel selector first: if that throws, the caller is
    rejected with what was thrown, no dialog is made and nothing else
    changes.  Building the selector throws nothing when the specs are not
    loaded or [canStart] is false; otherwise it throws a [TypeError] as
    soon as a running session has no kernel, and, when every running
    session has a kernel, it throws nothing if the preferred name is unset
    or the name of a spec.  When the selector is built, the dialog opens
    and the method waits for it.  When the user declines, or the context
    was disposed meanwhile, it disposes the dialog, forgets it and asks for
    nothing.  When [launch] is rejected, the caller is rejected and the
    dialog is neither disposed nor forgotten.  "No kernel", accepted, shuts
    the attached session down; a kernel, accepted, is handed to
    [_changeKernel]. *)
Theorem selectKernel_choices (cancelable : bool) (w : World) :
  (_isDisposed (this w) = true →
     _selectKernel cancelable w = Done w (inl tt)) ∧
  (_isDisposed (this w) = false → ∀ err, selector_throws w = Some err →
     _selectKernel cancelable w = Done w (inr err)) ∧
  ((specs (services w) = None ∨
    ISessionContext.canStart (_kernelPreference (this w)) = Some false) →
     selector_throws w = None) ∧
  (is_Some (specs (services w)) →
   ISessionContext.canStart (_kernelPreference (this w)) ≠ Some false →
     (Exists (λ session, Session.kernel session = None)
        (running (services w)) →
      ∃ message, selector_throws w = Some (TypeError message)) ∧
     (Forall has_kernel (running (services w)) →
      (∀ n, ISessionContext.name (_kernelPreference (this w)) = Some n →
         n ≠ "" →
         ∃ C, specs (services w) = Some C ∧
              is_Some (KernelSpec.kernelspecs C !! n)) →
      selector_throws w = None)) ∧
  (_isDisposed (this w) = false → selector_throws w = None →
     let st := _selectKernel cancelable w in
     let d := next_obj (services w) in
     awaits st = Some (DialogLaunch d) ∧
     _dialog (this (landing st)) = Some d ∧
     (∀ e w', resume st (Rejected e) w' = Done w' (inr e)) ∧
     (∀ accept value w',
        let closed :=
          with_this (set_dialog None)
            (with_trace (λ t, t ++ [DialogDispose d]) w') in
        let st1 := resume st (Resolved (VResult accept value)) w' in
        (_isDisposed (this w') || negb accept = true →
           st1 = Done closed (inl tt)) ∧
        (_isDisposed (this w') = false → accept = true →
           match value, _session (this w') with
           | None, Some s =>
               awaits st1 =
                 Some (SessionShutdown (SessionConnection.obj s))
           | None, None => st1 = Done closed (inl tt)
           | Some model, _ =>
               st1 = bindS (_changeKernel model closed) (λ _, mret tt)
           end))).
Proof.
  unfold selector_throws. split_and!.
  - intros Hd. unfold _selectKernel. run. by rewrite Hd.
  - intros Hd err He. unfold _selectKernel. run. rewrite Hd. cbn.
    by rewrite He.
  - unfold Private.populateKernelSelect, getKernelSearch. cbn.
    intros [-> | ->]; [done|]. by destruct (specs (services w)).
  - intros [sp Hsp] Hc.
    assert (Js.is_false (ISessionContext.canStart
              (_kernelPreference (this w))) = false) as Hcf.
    { by destruct (ISessionContext.canStart _) as [[]|]. }
    unfold Private.populateKernelSelect, getKernelSearch. cbn.
    rewrite Hsp, Hcf. split.
    + intros Hex. destruct (Private.sort_throws _ _ _); [by eexists|].
      destruct (List.find _ _) as [m|] eqn:Ef; [by eexists|].
      exfalso. apply Exists_exists in Hex as (x & Hx & Hnone).
      pose proof (find_none _ _ Ef x (proj1 (list_elem_of_In _ _) Hx)) as Hf.
      cbn in Hf. rewrite Hnone in Hf.
      case_bool_decide as H; [by destruct H|done].
    + intros Hall Hname. rewrite preferred_names_named.
      * destruct (List.find _ _) as [m|] eqn:Ef; [|done].
        apply find_some in Ef as [Hin Hm]. apply list_elem_of_In in Hin.
        rewrite Forall_forall in Hall. specialize (Hall m Hin).
        unfold has_kernel in Hall. by case_bool_decide.
      * intros n Hn Hne. destruct (Hname n Hn Hne) as (sp' & Hsp' & Hk).
        congruence.
  - intros Hd He. unfold _selectKernel. run. rewrite Hd. cbn. rewrite He.
    cbn. split_and!; [done|done|done|].
    intros accept value w'. split.
    + intros H. by rewrite H.
    + intros Hd' ->. rewrite Hd'. cbn.
      destruct value as [model|]; cbn.
      * by destruct (_session (this w')).
      * destruct (_session (this w')) as [s|] eqn:Es; [|done].
        unfold shutdown. run. by rewrite Es.
Qed.

Lemma selectKernel_choices_witness :
  let w := world (boot (Example.context0 (Example.by_name "python3"))
                       Example.crowded) in
  _selectKernel true w =
    Done w (inr (TypeError "Cannot read property 'id' of null")).
Proof.
  intros w.
  apply (proj1 (proj2 (selectKernel_choices true w))); reflexivity.
Defined.

(** ** Falling back on the selection dialog *)

Lemma outcome_awaits {A} (st : Step A) r :
  outcome st = Some r → awaits st = None.
Proof.
  induction st as [w x|w q k IH|q k rest IH] using Step_induction; cbn;
    [done|done|exact IH].
Qed.

(** X6.  [_startIfNecessary], when a kernel is to be started (the context is
    not disposed, no kernel is attached, and starting is not disabled):
    - with no kernel id in the preference and no default kernel, it is the
      selection dialog, without a cancel button;
    - a kernel id in the preference is what it asks [startNew] for,
      whatever the name and the language;
    - a rejection of [startNew] is swallowed and the selection dialog is
      next, unless the context was disposed meanwhile, and then the method
      just ends;
    - with a session attached that has no kernel, the selection dialog is
      next at once (the failure of [_changeKernel] is swallowed too).
    Where the selection dialog is next, it opens if the kernel selector can
    be built; if building it throws, the method is rejected with what was
    thrown. *)
Theorem startIfNecessary_falls_back (w : World) :
  _isDisposed (this w) = false →
  session_kernel (_session (this w)) = None →
  ISessionContext.shouldStart (_kernelPreference (this w)) ≠ Some false →
  ISessionContext.canStart (_kernelPreference (this w)) ≠ Some false →
  let st := _startIfNecessary w in
  let preference := _kernelPreference (this w) in
  let selecting (w1 : World) (st1 : Step unit) :=
    match selector_throws w1 with
    | Some err => outcome st1 = Some (inr err)
    | None =>
        awaits st1 = Some (DialogLaunch (next_obj (services w1))) ∧
        _dialog (this (landing st1)) = Some (next_obj (services w1)) ∧
        NewDialog (next_obj (services w1)) (SelectKernel false)
          ∈ trace (landing st1)
    end in
  (Js.truthy (ISessionContext.id preference) = false →
   Js.truthy (Private.getDefaultKernel (specs (services w)) preference)
     = false →
   st = _selectKernel false w) ∧
  (Js.truthy (ISessionContext.id preference) = true →
   _session (this w) = None →
   awaits st =
     Some (StartNew (_path (this w)) (_type (this w)) (_name (this w))
             {| Kernel.id := ISessionContext.id preference;
                Kernel.name := None |})) ∧
  (∀ p t n m, awaits st = Some (StartNew p t n m) →
     ∀ e w', let st' := resume st (Rejected e) w' in
       if _isDisposed (this w') then outcome st' = Some (inl tt)
       else selecting w' st') ∧
  (is_Some (_session (this w)) → selecting w st).
Proof.
  intros Hd Hk Hs Hc st preference selecting. subst st preference selecting.
  unfold _startIfNecessary. run. rewrite Hd, Hk. cbn.
  assert (Js.is_false (ISessionContext.shouldStart
            (_kernelPreference (this w))) = false) as ->.
  { by destruct (ISessionContext.shouldStart _) as [[]|]. }
  assert (Js.is_false (ISessionContext.canStart
            (_kernelPreference (this w))) = false) as ->.
  { by destruct (ISessionContext.canStart _) as [[]|]. }
  cbn.
  assert (∀ w0 w1 : World, _isDisposed (this w1) = false →
    this w1 = this w0 → services w1 = services w0 →
    let st := _selectKernel false w1 in
    match selector_throws w0 with
    | Some err => outcome st = Some (inr err)
    | None =>
        awaits st = Some (DialogLaunch (next_obj (services w0))) ∧
        _dialog (this (landing st)) = Some (next_obj (services w0)) ∧
        NewDialog (next_obj (services w0)) (SelectKernel false)
          ∈ trace (landing st)
    end) as Hsel.
  { intros w0 w1 Hd1 Ht Hsv. unfold selector_throws, getKernelSearch.
    rewrite <- Ht, <- Hsv.
    unfold _selectKernel. run. rewrite Hd1. cbn.
    destruct (Private.populateKernelSelect _ _); cbn; [done|].
    split_and!; [done|done|].
    apply elem_of_app. left. apply elem_of_app. right. by left. }
  assert (∀ (options : Kernel.IModel),
    let st := bindS (catchS (bindS (_changeKernel options w)
                               (λ _, mret true)) (λ _, mret false))
                (λ started : bool,
                   if started then mret () else _selectKernel false) in
    let selecting (w1 : World) (st1 : Step unit) :=
      match selector_throws w1 with
      | Some err => outcome st1 = Some (inr err)
      | None =>
          awaits st1 = Some (DialogLaunch (next_obj (services w1))) ∧
          _dialog (this (landing st1)) = Some (next_obj (services w1)) ∧
          NewDialog (next_obj (services w1)) (SelectKernel false)
            ∈ trace (landing st1)
      end in
    (_session (this w) = None →
     awaits st = Some (StartNew (_path (this w)) (_type (this w))
                         (_name (this w)) options)) ∧
    (∀ p t n m, awaits st = Some (StartNew p t n m) →
       ∀ e w', let st' := resume st (Rejected e) w' in
         if _isDisposed (this w') then outcome st' = Some (inl tt)
         else selecting w' st') ∧
    (is_Some (_session (this w)) → selecting w st)) as Hopt.
  { intros options. unfold _changeKernel, _startSession. run.
    rewrite Hd. cbn.
    destruct (_session (this w)) as [s|] eqn:Es; cbn.
    - cbn in Hk. rewrite Hk. cbn.
      pose proof (Hsel w w Hd eq_refl eq_refl) as H0. cbn in H0.
      split_and!; [done| |by intros _].
      intros p t n m Hq. exfalso. revert Hq H0.
      destruct (selector_throws w); [|intros -> [[=] _]].
      intros Hq Ho. by rewrite (outcome_awaits _ _ Ho) in Hq.
    - rewrite Hd. cbn. split_and!; [done| |by intros [? [=]]].
      intros p t n m _ e w'.
      destruct (_isDisposed (this w')) eqn:Hd'.
      + unfold _handleSessionError, _selectKernel.
        destruct e; run; by rewrite Hd'.
      + unfold _handleSessionError.
        destruct e; run;
          match goal with |- context [_selectKernel false ?w1] =>
            pose proof (Hsel w' w1 Hd' eq_refl eq_refl) as H0 end;
          cbn in H0; exact H0. }
  destruct (Js.truthy (ISessionContext.id _)) eqn:Eid; cbn.
  - destruct (Hopt {| Kernel.id := ISessionContext.id
                        (_kernelPreference (this w));
                      Kernel.name := None |}) as (H1 & H2 & H3).
    split_and!; [done|by intros _|exact H2|exact H3].
  - destruct (Js.truthy (Private.getDefaultKernel _ _)) eqn:En; cbn.
    + destruct (Hopt {| Kernel.id := None;
                        Kernel.name := Private.getDefaultKernel
                          (specs (services w))
                          (_kernelPreference (this w)) |})
        as (H1 & H2 & H3).
      split_and!; [done|done|exact H2|exact H3].
    + pose proof (Hsel w w Hd eq_refl eq_refl) as H0. cbn in H0.
      split_and!; [done|done| |by intros _].
      intros p t n m Hq. exfalso. revert Hq H0.
      destruct (selector_throws w); [|intros -> [[=] _]].
      intros Hq Ho. by rewrite (outcome_awaits _ _ Ho) in Hq.
Qed.

Lemma startIfNecessary_falls_back_witness :
  let w := Example.waiting (Example.by_name "python3") in
  let st' := resume (_startIfNecessary w) (Rejected Example.refused) w in
  awaits (_startIfNecessary w) =
    Some (StartNew "a.ipynb" "notebook" ""
            {| Kernel.id := None; Kernel.name := Some "python3" |}) ∧
  awaits st' = Some (DialogLaunch 0) ∧
  _dialog (this (landing st')) = Some 0 ∧
  NewDialog 0 (SelectKernel false) ∈ trace (landing st').
Proof.
  intros w st'. split; [reflexivity|].
  assert (ISessionContext.shouldStart (_kernelPreference (this w))
            ≠ Some false) as Hs by discriminate.
  assert (ISessionContext.canStart (_kernelPreference (this w))
            ≠ Some false) as Hc by discriminate.
  exact (proj1 (proj2 (proj2
    (startIfNecessary_falls_back w eq_refl eq_refl Hs Hc)))
    _ _ _ _ eq_refl Example.refused w).
Defined.

(** * Properties of every run *)

Section Runs.
Variable Inv : World → Prop.
Variable G : World → World → Prop.
Variable ok : World → Request → Response → Prop.
Hypothesis G_trans : ∀ w1 w2 w3, G w1 w2 → G w2 w3 → G w1 w3.

Lemma JG_done {A} (w0 w : World) (r : A + JsError) :
  G w0 w → JG Inv G ok w0 (Done w r).
Proof. intros. by exists tt. Qed.

Lemma JG_susp {A} (w0 w : World) (q : Request)
    (k : Response → World → Step A) :
  G w0 w →
  (∀ r w', Inv w' → ok w' q r → JG Inv G ok w' (k r w')) →
  JG Inv G ok w0 (Susp w q k).
Proof.
  intros HG Hk. exists tt. split; [exact HG|]. split; [done|].
  intros r w' [? ?]. by apply Hk.
Qed.

Lemma JG_fork {A} (w0 : World) (q : Request)
    (k : Response → World → Step unit) (rest : Step A) :
  (∀ r w', Inv w' → ok w' q r → JG Inv G ok w' (k r w')) →
  JG Inv G ok w0 rest → JG Inv G ok w0 (Fork q k rest).
Proof.
  intros Hk Hrest. split; [|exact Hrest]. split; [done|].
  intros r w' [? ?]. by apply Hk.
Qed.

Lemma JG_bind {A B} (w0 : World) (st : Step A) (f : A → Async B) :
  JG Inv G ok w0 st → (∀ a w, JG Inv G ok w (f a w)) →
  JG Inv G ok w0 (bindS st f).
Proof.
  intros H1 H2. unfold JG. eapply J_bind; [|exact H1| |done].
  - intros [] w1 [] w2 [] w3. apply G_trans.
  - intros [] a w _. apply H2.
Qed.

Lemma JG_catch {A} (w0 : World) (st : Step A) (h : JsError → Async A) :
  JG Inv G ok w0 st → (∀ e w, JG Inv G ok w (h e w)) →
  JG Inv G ok w0 (catchS st h).
Proof.
  intros H1 H2. unfold JG. eapply J_catch; [|exact H1| |done].
  - intros [] w1 [] w2 [] w3. apply G_trans.
  - intros [] e w _. apply H2.
Qed.

Lemma JG_rebase {A} (w0 w : World) (st : Step A) :
  G w0 w → JG Inv G ok w st → JG Inv G ok w0 st.
Proof.
  intros HG H. unfold JG. eapply J_rebase; [|exact HG|exact H].
  intros [] w1 [] w2 [] w3. apply G_trans.
Qed.
End Runs.

Arguments JG Inv G ok {A} w0 st : simpl never.

Section Chain.
Variable Inv : World → Prop.
Variable G : World → World → Prop.
Variable ok : World → Request → Response → Prop.

Hypothesis G_refl : ∀ w, G w w.
Hypothesis G_trans : ∀ w1 w2 w3, G w1 w2 → G w2 w3 → G w1 w3.
Hypothesis G_Inv : ∀ w0 w, Inv w0 → G w0 w → Inv w.
Hypothesis invoke_G : ∀ c w, Inv w → JG Inv G ok w (invoke c w).
Hypothesis deliver_G : ∀ sender s w, Inv w →
  ∃ w1, deliver sender s w = Done w1 (inl tt) ∧ G w w1.
Hypothesis services_G : ∀ f w, Inv w →
  next_obj (f (services w)) = next_obj (services w) →
  G w (with_services f w).
Hypothesis fits_ok : ∀ w q r, Inv w → fits w q r = true → ok w q r.

Lemma JG_returning {A} (w : World) (st : Step A) (f : A → Value) :
  JG Inv G ok w st → JG Inv G ok w (bindS st (λ a, mret (f a))).
Proof.
  intros H. unfold JG. eapply J_bind; [|exact H| |done].
  - intros [] w1 [] w2 [] w3. apply G_trans.
  - intros [] a w1 _. exists tt. split; [apply G_refl|done].
Qed.

Lemma install_G (st : Step Value) :
  ∀ id caller sys w0,
    JG Inv G ok w0 st → Forall (task_G Inv G ok) (pending sys) →
    G w0 (world (install id caller st sys)) ∧
    Forall (task_G Inv G ok) (pending (install id caller st sys)).
Proof.
  induction st as [w r|w q k IH|q k rest IH] using Step_induction;
    intros id caller sys w0 HJ Hp; cbn.
  - destruct HJ as ([] & HG & _). by split.
  - destruct HJ as ([] & HG & _ & Hk). split; [done|].
    apply Forall_app. split; [done|]. apply Forall_singleton.
    intros r w' HI Hok. cbn. by apply Hk.
  - destruct HJ as [[_ Hk] Hrest]. apply IH; [exact Hrest|]. cbn.
    apply Forall_app. split; [done|]. apply Forall_singleton.
    intros r w' HI Hok. cbn.
    apply (JG_returning w' (k r w') (λ _, VUndefined)). by apply Hk.
Qed.

Lemma step_G (sys : System) (e : Event) :
  Inv (world sys) → Forall (task_G Inv G ok) (pending sys) →
  G (world sys) (world (step sys e)) ∧
  Forall (task_G Inv G ok) (pending (step sys e)).
Proof.
  intros HI Hp. destruct e as [c|id r|sender s|l|sp|err|k|b]; cbn [step].
  - apply install_G; [by apply invoke_G|done].
  - destruct (take id (pending sys)) as [[t rest]|] eqn:Et; [|by split].
    destruct (fits _ _ _) eqn:Hf; [|by split].
    apply take_Some in Et as [Ht Hsub]. rewrite Forall_forall in Hp.
    apply install_G.
    + apply (Hp t Ht); [done|]. by apply fits_ok.
    + cbn. apply Forall_forall. intros x Hx. by apply Hp, Hsub.
  - destruct (deliver_G sender s (world sys) HI) as (w1 & Hd & HG).
    unfold returning. unfold mbind, Async_bind. rewrite Hd. cbn. by split.
  - split; [|done]. by apply services_G.
  - split; [|done]. by apply services_G.
  - split; [|done]. by apply services_G.
  - split; [|done]. by apply services_G.
  - split; [|done]. by apply services_G.
Qed.

Lemma run_G (es : list Event) :
  ∀ sys, Inv (world sys) → Forall (task_G Inv G ok) (pending sys) →
  G (world sys) (world (run es sys)) ∧
  Forall (task_G Inv G ok) (pending (run es sys)).
Proof.
  induction es as [|e es IH]; intros sys HI Hp; [by split|].
  change (run (e :: es) sys) with (run es (step sys e)).
  destruct (step_G sys e HI Hp) as [HG1 Hp1].
  destruct (IH (step sys e)) as [HG2 Hp2]; [by eapply G_Inv|done|].
  split; [by eapply G_trans|done].
Qed.
End Chain.

(** ** A disposed context *)

Arguments JD {A} w0 st : simpl never.

Lemma GD_refl (w : World) : GD w w.
Proof. by intros ?. Qed.

Lemma GD_trans (w1 w2 w3 : World) : GD w1 w2 → GD w2 w3 → GD w1 w3.
Proof.
  intros H1 H2 Hd. destruct (H1 Hd) as [Hd2 E2].
  destruct (H2 Hd2) as [Hd3 E3]. split; [done|congruence].
Qed.

Lemma GD_frame (w0 w : World) :
  _isDisposed (this w) = _isDisposed (this w0) →
  filter live (trace w) = filter live (trace w0) → GD w0 w.
Proof. intros H1 H2 Hd. split; [congruence|done]. Qed.

Lemma GD_live (w0 w : World) : _isDisposed (this w0) = false → GD w0 w.
Proof. intros H Hd. congruence. Qed.

Ltac dframe := first
  [ apply GD_refl
  | apply GD_frame; [done|cbn; rewrite ?filter_app; cbn;
                          by rewrite ?app_nil_r]
  | by apply GD_live ].
Ltac dleaf := apply (JG_done (λ _, True) GD (λ _ _ _, True)); dframe.
Ltac dsusp := apply (JG_susp (λ _, True) GD (λ _ _ _, True)); [dframe|].
Ltac dbind := apply (JG_bind (λ _, True) GD (λ _ _ _, True) GD_trans).
Ltac dcatch := apply (JG_catch (λ _, True) GD (λ _ _ _, True) GD_trans).
Ltac dfork := apply (JG_fork (λ _, True) GD (λ _ _ _, True)).
Ltac drebase := eapply (JG_rebase (λ _, True) GD (λ _ _ _, True) GD_trans).

Lemma hns_D (s : SessionConnection.t) (w : World) :
  ∃ w' r, _handleNewSession s w = Done w' r ∧ GD w w'.
Proof.
  destruct (_isDisposed (this w)) eqn:Hd.
  - rewrite hns_disposed by done. eexists _, _. split; [done|apply GD_refl].
  - destruct (hns_attaches s w Hd) as (w' & -> & _).
    eexists _, _. split; [done|by apply GD_live].
Qed.

Lemma handleSessionError_D {A} (err : JsError) (w0 w : World)
    (f : unit → Async A) :
  GD w0 w →
  (∀ w1, GD w0 w1 → JD w0 (f tt w1)) →
  JD w0 (bindS (voidS (_handleSessionError err w)) f).
Proof.
  intros HG Hf. unfold _handleSessionError.
  destruct err; run; try (apply Hf; done).
  dfork.
  - intros r w' _ _. destruct r as [v|e]; cbn; [|dleaf].
    dfork; [|dleaf].
    intros r' w'' _ _. destruct r'; cbn; dleaf.
  - apply Hf. eapply GD_trans; [exact HG|]. dframe.
Qed.

Lemma JD_throw_after_error {A} (err : JsError) (w0 w : World) :
  GD w0 w →
  JD w0 (bindS (voidS (_handleSessionError err w))
               (λ _ w1, Done w1 (inr err) : Step A)).
Proof.
  intros. apply handleSessionError_D; [done|].
  intros. by apply (JG_done (λ _, True) GD (λ _ _ _, True)).
Qed.

Lemma startSession_D (model : Kernel.IModel) (w : World) :
  JD w (_startSession model w).
Proof.
  unfold _startSession. run.
  destruct (_isDisposed (this w)) eqn:Hd; cbn; [dleaf|].
  dsusp. intros r w' _ _. destruct r as [v|e]; cbn.
  - destruct v; cbn; try (apply JD_throw_after_error; dframe).
    match goal with |- context [_handleNewSession ?a ?b] =>
      destruct (hns_D a b) as (w2 & r & -> & HG) end.
    assert (GD w' w2) as HG'.
    { eapply GD_trans; [|exact HG]. dframe. }
    destruct r as [k|e]; cbn.
    + by apply (JG_done (λ _, True) GD (λ _ _ _, True)).
    + by apply JD_throw_after_error.
  - apply JD_throw_after_error; dframe.
Qed.

Lemma changeKernel_D (options : Kernel.IModel) (w : World) :
  JD w (_changeKernel options w).
Proof.
  unfold _changeKernel. run.
  destruct (_isDisposed (this w)) eqn:Hd; cbn; [dleaf|].
  destruct (_session (this w)) as [s|] eqn:Es; cbn;
    [|apply startSession_D].
  destruct (SessionConnection.kernel s) as [k|]; cbn; [|dleaf].
  destruct (negb _); cbn; [|apply startSession_D].
  dsusp. intros r w' _ _. destruct r as [v|e]; cbn; [|dleaf].
  destruct v; cbn; dleaf.
Qed.

Lemma shutdown_D (w : World) : JD w (shutdown w).
Proof.
  unfold shutdown. run.
  destruct (_session (this w)) as [s|]; cbn; [|dleaf].
  dsusp. intros r w' _ _. destruct r; cbn; dleaf.
Qed.

Lemma selectKernel_D (cancelable : bool) (w : World) :
  JD w (_selectKernel cancelable w).
Proof.
  unfold _selectKernel. run.
  destruct (_isDisposed (this w)) eqn:Hd; cbn; [dleaf|].
  destruct (Private.populateKernelSelect _ _); cbn; [dleaf|].
  dsusp. intros r w' _ _. destruct r as [v|e]; cbn; [|dleaf].
  destruct v as [| | | | |accept value]; cbn; try dleaf.
  destruct (_isDisposed (this w') || negb accept); cbn; [dleaf|].
  destruct value as [model|]; cbn.
  - destruct (_session (this w')); cbn;
      (drebase; [|dbind; [apply changeKernel_D|]];
       [dframe|intros; dleaf]).
  - destruct (_session (this w')); cbn; [|dleaf].
    drebase; [|apply shutdown_D]. dframe.
Qed.

Lemma startIfNecessary_D (w : World) : JD w (_startIfNecessary w).
Proof.
  unfold _startIfNecessary. run.
  destruct (_ || _); cbn; [dleaf|].
  assert (∀ started w1, JD w1
    ((if started : bool then mret () else _selectKernel false) w1)) as Hk.
  { intros [] w1; [dleaf|apply selectKernel_D]. }
  destruct (Js.truthy (ISessionContext.id _)); cbn.
  - dbind; [|exact Hk].
    dcatch; [|intros; dleaf].
    dbind; [apply changeKernel_D|intros; dleaf].
  - destruct (Js.truthy (Private.getDefaultKernel _ _)); cbn.
    + dbind; [|exact Hk].
      dcatch; [|intros; dleaf].
      dbind; [apply changeKernel_D|intros; dleaf].
    + apply selectKernel_D.
Qed.

Lemma restartKernel_D (kernel : KernelConnection.t) (w : World) :
  JD w (restartKernel kernel w).
Proof.
  unfold restartKernel. run.
  dsusp. intros r w' _ _. destruct r as [v|e]; cbn; [|dleaf].
  destruct v as [| | | | |accept value]; cbn; try dleaf.
  destruct (bool_decide _); cbn; [dleaf|].
  destruct accept; cbn; [|dleaf].
  dsusp. intros r w'' _ _. destruct r; cbn; dleaf.
Qed.

Lemma initialize_D (w : World) : JD w (initialize w).
Proof.
  unfold initialize. run.
  destruct (_ || _); cbn.
  { dsusp. intros r w' _ _. destruct r; cbn; dleaf. }
  dsusp. intros r w' _ _. destruct r as [v|e]; cbn; [|dleaf].
  assert (∀ w1, JD w1 ((_startIfNecessary;;
     assign (set_isReady true);; effect ReadyResolve;;
     assign (set_ready true)) w1)) as Hk.
  { intros w1. run. dbind; [apply startIfNecessary_D|]. intros; dleaf. }
  destruct (List.find _ _) as [model|]; cbn; [|exact (Hk w')].
  unfold connectTo. run.
  destruct (connectTo_throws (services w')) as [err|]; cbn.
  { dbind; [apply JD_throw_after_error; dframe|]. intros _ w1. exact (Hk w1). }
  match goal with |- context [_handleNewSession ?a ?b] =>
    destruct (hns_D a b) as (w2 & r & -> & HG) end.
  assert (GD w' w2) as HG'.
  { eapply GD_trans; [|exact HG]. dframe. }
  destruct r as [k|e]; cbn.
  - drebase; [exact HG'|exact (Hk w2)].
  - dbind; [by apply JD_throw_after_error|]. intros _ w1. exact (Hk w1).
Qed.

Lemma after_initialize_D {A} (rest : Async A) (w : World) :
  (∀ w1, JD w1 (rest w1)) → JD w ((initialize;; rest) w).
Proof.
  intros H. run. dbind; [apply initialize_D|]. intros _ w1. apply H.
Qed.

Lemma public_changeKernel_D (options : Kernel.IModel) (w : World) :
  JD w (changeKernel options w).
Proof.
  unfold changeKernel. apply after_initialize_D. intros w1. run.
  destruct (_isDisposed (this w1)); cbn; [dleaf|apply changeKernel_D].
Qed.

Lemma public_selectKernel_D (w : World) : JD w (selectKernel w).
Proof.
  unfold selectKernel. apply after_initialize_D. intros w1. run.
  destruct (_isDisposed (this w1)); cbn; [dleaf|apply selectKernel_D].
Qed.

Lemma restart_D (w : World) : JD w (restart w).
Proof.
  unfold restart. apply after_initialize_D. intros w1. run.
  destruct (_isDisposed (this w1)); cbn; [dleaf|].
  destruct (session_kernel _); cbn; [apply restartKernel_D|].
  destruct (Js.truthy _); cbn; [|dleaf].
  dbind; [apply public_changeKernel_D|]. intros; dleaf.
Qed.

Lemma dispose_D (w : World) : JD w (dispose w).
Proof.
  unfold dispose, session_dispose, clearData. run.
  destruct (_isDisposed (this w)) eqn:Hd; cbn; [dleaf|].
  destruct (_session (this w)) as [s|] eqn:Es; cbn;
    [destruct (Js.truthy_bool _); cbn|];
    destruct (_dialog (this w)) eqn:Ed; cbn;
    destruct (_busyDisposable (this w)) as [lease|] eqn:Eb; cbn;
    rewrite ?Hd, ?Es, ?Ed, ?Eb; cbn.
  all: try dleaf.
  all: dfork; [|dleaf].
  all: intros r w' _ _; destruct r; cbn; dleaf.
Qed.

Lemma invoke_D (c : Call) (w : World) : JD w (invoke c w).
Proof.
  destruct c; unfold invoke, returning; run.
  - dbind; [apply initialize_D|intros; dleaf].
  - dbind; [apply public_changeKernel_D|intros; dleaf].
  - dbind; [apply public_selectKernel_D|intros; dleaf].
  - dbind; [apply shutdown_D|intros; dleaf].
  - dbind; [apply restart_D|intros; dleaf].
  - dbind; [apply dispose_D|intros; dleaf].
  - unfold set_kernelPreference_. run. dleaf.
Qed.

Lemma deliver_D (sender : SessionConnection.t) (s : Signal) (w : World) :
  ∃ w1, deliver sender s w = Done w1 (inl tt) ∧ GD w w1.
Proof.
  rewrite deliver_unfold.
  assert (GD w (with_this (refresh sender) w)) as HG.
  { apply GD_frame; [|done]. unfold refresh. cbn.
    destruct (_session (this w)); [|done]. by destruct (Nat.eqb _ _). }
  revert HG. generalize (with_this (refresh sender) w). intros wr HG.
  assert (∀ w1 : World,
    _isDisposed (this w1) = _isDisposed (this wr) →
    filter live (trace w1) = filter live (trace wr) → GD w w1) as Hf.
  { intros w1 H1 H2. eapply GD_trans; [exact HG|]. by apply GD_frame. }
  unfold deliver_connected. run.
  case_bool_decide; cbn; [|by eexists].
  destruct s; cbn.
  - unfold _onSessionDisposed, session_dispose. run.
    destruct (_session (this wr)); cbn; eexists;
      (split; [reflexivity|]); (apply Hf; [done|]); cbn;
      rewrite ?filter_app; cbn; by rewrite ?app_nil_r.
  - unfold _onPropertyChanged. run.
    destruct p; cbn; eexists; (split; [reflexivity|]);
      (apply Hf; [done|]); cbn; rewrite ?filter_app; cbn;
      by rewrite ?app_nil_r.
  - unfold _onKernelChanged. run. eexists; (split; [reflexivity|]).
    apply Hf; [done|]. cbn. rewrite ?filter_app. cbn. by rewrite ?app_nil_r.
  - unfold _onStatusChanged. run.
    destruct (_setBusy (this wr)); cbn;
      [destruct (String.eqb status "busy"); cbn;
       destruct (_busyDisposable (this wr)); cbn|];
      eexists; (split; [reflexivity|]); (apply Hf; [done|]); cbn;
      rewrite ?filter_app; cbn; by rewrite ?app_nil_r.
  - unfold _onConnectionStatusChanged. run.
    eexists; (split; [reflexivity|]).
    apply Hf; [done|]. cbn. rewrite ?filter_app. cbn. by rewrite ?app_nil_r.
  - unfold _onIopubMessage. run. eexists; (split; [reflexivity|]).
    apply Hf; [done|]. cbn. rewrite ?filter_app. cbn. by rewrite ?app_nil_r.
  - unfold _onUnhandledMessage. run. eexists; (split; [reflexivity|]).
    apply Hf; [done|]. cbn. rewrite ?filter_app. cbn. by rewrite ?app_nil_r.
Qed.

Lemma run_D (es : list Event) (sys : System) :
  Forall (task_G (λ _, True) GD (λ _ _ _, True)) (pending sys) →
  GD (world sys) (world (run es sys)) ∧
  Forall (task_G (λ _, True) GD (λ _ _ _, True)) (pending (run es sys)).
Proof.
  intros Hp.
  refine (run_G (λ _, True) GD (λ _ _ _, True) GD_refl GD_trans
            _ _ _ _ _ es sys I Hp).
  - done.
  - intros c w _. apply invoke_D.
  - intros sender s w _. apply deliver_D.
  - intros f w _ _. by apply GD_frame.
  - done.
Qed.

(** X16.  Once disposed, a context stays disposed, and whatever is called
    and whatever promise settles or signal arrives afterwards, it never
    again calls [startNew] or [session.changeKernel], opens a selection
    dialog or connects to the signals of a session. *)
Theorem disposed_context_is_inert (path name type : option string)
    (preference : option ISessionContext.IKernelPreference)
    (setBusy : option (nat → bool)) (uuid : string) (e : Services)
    (es1 es2 : list Event) :
  let w1 := world (started path name type preference setBusy uuid e es1) in
  let w2 := world (started path name type preference setBusy uuid e
                     (es1 ++ es2)) in
  _isDisposed (this w1) = true →
  _isDisposed (this w2) = true ∧
  filter live (trace w2) = filter live (trace w1).
Proof.
  intros w1 w2. subst w1 w2. unfold started, run. rewrite fold_left_app.
  destruct (run_D es1 (boot (new_SessionContext path name type preference
                               setBusy uuid) e)) as [_ Hp];
    [by apply Forall_nil|].
  destruct (run_D es2 _ Hp) as [HG _]. exact HG.
Qed.

Lemma disposed_context_is_inert_witness :
  let w2 := world (run [Invoke CallDispose; Invoke CallInitialize;
                        Settle 1 (Resolved VUndefined)]
                    (boot (Example.context0 (Example.by_name "python3"))
                          Example.services0)) in
  _isDisposed (this w2) = true ∧ filter live (trace w2) = [].
Proof.
  apply (disposed_context_is_inert (Some "a.ipynb") None (Some "notebook")
           (Some (Example.by_name "python3")) (Some Example.leases) "uuid"
           Example.services0
           [Invoke CallDispose]
           [Invoke CallInitialize; Settle 1 (Resolved VUndefined)]).
  reflexivity.
Defined.

(** ** Disposal *)

(** C6 (amended).  [dispose()] is idempotent.  Called on a disposed context
    it returns at once: no field changes and nothing is emitted.  Called on
    a context that is not disposed, it leaves it disposed with no session,
    no busy lease and no connected slot; it emits [disposed] exactly once
    and disposes the busy lease exactly once if one was held (and none
    otherwise); a second call in the state it leaves is a no-op.  And
    after any events, whatever was called and however often: [disposed]
    has been emitted once if the context is disposed and never otherwise,
    no busy lease has been disposed twice, a disposed context holds no
    session, no busy lease and no connected slot, and it stays
    disposed. *)
Theorem dispose_idempotent :
  (∀ w, _isDisposed (this w) = true → dispose w = Done w (inl tt)) ∧
  (∀ w, _isDisposed (this w) = false →
    let w1 := landing (dispose w) in
    outcome (dispose w) = Some (inl tt) ∧
    _isDisposed (this w1) = true ∧
    _session (this w1) = None ∧
    _busyDisposable (this w1) = None ∧
    slots w1 = [] ∧
    (∃ d, trace w1 = trace w ++ d ∧
          occurrences (Emit Disposed) d = 1 ∧
          filter is_LeaseDispose d =
            match _busyDisposable (this w) with
            | Some lease => [LeaseDispose lease]
            | None => []
            end) ∧
    dispose w1 = Done w1 (inl tt)) ∧
  (∀ path name type preference setBusy uuid e es,
    let w := world (started path name type preference setBusy uuid e es) in
    occurrences (Emit Disposed) (trace w) =
      (if _isDisposed (this w) then 1 else 0) ∧
    (∀ l, (occurrences (LeaseDispose l) (trace w) ≤ 1)%nat) ∧
    (_isDisposed (this w) = true →
       _session (this w) = None ∧ _busyDisposable (this w) = None ∧
       slots w = [] ∧
       ∀ es', _isDisposed (this (world
                (started path name type preference setBusy uuid e
                   (es ++ es')))) = true)).
Proof.
  split_and!.
  - intros w. apply dispose_first_and_later.
  - intros w. apply dispose_first_and_later.
  - intros path name type preference setBusy uuid e es w.
    destruct (started_I path name type preference setBusy uuid e es)
      as ([(S1 & _ & S3 & _) ([L1 _] & L2 & _ & L4 & L5)] & _).
    fold w in S1, S3, L1, L2, L4, L5. split_and!.
    + exact L5.
    + intros l. specialize (L2 l). specialize (L4 l). lia.
    + intros Hd. specialize (S3 Hd). split_and!; [done| | |].
      * destruct (_busyDisposable (this w)) as [l|] eqn:El; [|done].
        destruct (L1 (ex_intro _ l eq_refl)) as (_ & _ & Hn).
        congruence.
      * destruct (slots w) as [|c sl] eqn:Esl; [done|].
        destruct (S1 c) as (s & Hs & _); [left|congruence].
      * intros es'. unfold started, run. rewrite fold_left_app.
        destruct (run_D es (boot (new_SessionContext path name type
                                    preference setBusy uuid) e))
          as [_ Hp]; [by apply Forall_nil|].
        destruct (run_D es' _ Hp) as [HG _]. by apply HG.
Qed.

(** C6, as stated, fails: the state of a disposed context does change.
    After [dispose()], a call of [initialize()] sets [_initializing], and,
    when the manager is ready, it sets [_isReady] and resolves the ready
    promise; and the setter of [kernelPreference] still assigns. *)
Lemma disposed_context_changes :
  let sys1 := run [Invoke CallDispose]
                (boot (Example.context0 (Example.by_name "python3"))
                      Example.services0) in
  let sys2 := run [Invoke CallInitialize; Settle 1 (Resolved VUndefined);
                   Invoke (CallSetKernelPreference Example.no_start)]
                sys1 in
  _isDisposed (this (world sys1)) = true ∧
  ready_view (world sys1) = fresh_view ∧
  _kernelPreference (this (world sys1)) = Example.by_name "python3" ∧
  _isDisposed (this (world sys2)) = true ∧
  ready_view (world sys2) = ready_done_view ∧
  _kernelPreference (this (world sys2)) = Example.no_start.
Proof. by vm_compute. Qed.

(** ** After an attach failure *)

Arguments JZ {A} w0 st : simpl never.

Lemma GZ_refl (w : World) : GZ w w.
Proof. by intros ?. Qed.

Lemma GZ_trans (w1 w2 w3 : World) : GZ w1 w2 → GZ w2 w3 → GZ w1 w3.
Proof.
  intros H1 H2 Hz. destruct (H1 Hz) as [Hz2 E2].
  destruct (H2 Hz2) as [Hz3 E3]. split; [done|congruence].
Qed.

Lemma GZ_frame (w0 w : World) :
  ready_view w = ready_view w0 →
  _session (this w) = _session (this w0) →
  (slots w0 = [] → slots w = []) →
  filter live (trace w) = filter live (trace w0) → GZ w0 w.
Proof.
  intros H1 H2 H3 H4 (Z1 & Z2 & Z3). split; [|done].
  split_and!; [congruence|congruence|auto].
Qed.

Ltac zframe := first
  [ apply GZ_refl
  | apply GZ_frame;
      [ unfold ready_view; cbn; rewrite ?filter_app; cbn;
        by rewrite ?app_nil_r
      | done | done
      | cbn; rewrite ?filter_app; cbn; by rewrite ?app_nil_r ] ].
Ltac zleaf := apply (JG_done Zinv GZ okZ); zframe.

Lemma Zinv_nonfresh (w : World) :
  Zinv w → _initializing (this w) || _isReady (this w) = true.
Proof.
  intros [Hv _]. unfold ready_view, starting_view in Hv.
  by injection Hv as -> _ _ _.
Qed.

(** Waiting for the ready promise, for ever. *)
Lemma waits_Z {A} (w : World) (k : Response → World → Step A) :
  JZ w (Susp w ReadyPromise k).
Proof.
  apply (JG_susp Zinv GZ okZ); [apply GZ_refl|]. by intros r w' _ Hq.
Qed.

Lemma invoke_Z (c : Call) (w : World) : Zinv w → JZ w (invoke c w).
Proof.
  intros Hz. pose proof (Zinv_nonfresh w Hz) as Hn.
  destruct Hz as (Z1 & Z2 & Z3).
  destruct c; unfold invoke, returning, changeKernel, selectKernel, restart,
    initialize; run; rewrite ?Hn; cbn; try apply waits_Z.
  - unfold shutdown. run. rewrite Z2. cbn. zleaf.
  - unfold dispose, session_dispose, clearData. run.
    destruct (_isDisposed (this w)) eqn:Hd; cbn; [zleaf|].
    rewrite Z2. cbn.
    destruct (_dialog (this w)) eqn:Ed; cbn;
      destruct (_busyDisposable (this w)) as [lease|] eqn:Eb; cbn;
      rewrite ?Hd, ?Z2, ?Ed, ?Eb; cbn; zleaf.
  - unfold set_kernelPreference_. run. zleaf.
Qed.

Lemma deliver_Z (sender : SessionConnection.t) (s : Signal) (w : World) :
  Zinv w → ∃ w1, deliver sender s w = Done w1 (inl tt) ∧ GZ w w1.
Proof.
  intros (Z1 & Z2 & Z3). rewrite deliver_unfold.
  unfold deliver_connected. run. rewrite Z3.
  case_bool_decide as Hin; [by apply elem_of_nil in Hin|].
  eexists. split; [reflexivity|].
  apply GZ_frame; cbn; unfold refresh; rewrite ?Z2; try done.
  unfold ready_view. cbn. unfold refresh. by rewrite Z2.
Qed.

Lemma run_Z (es : list Event) (sys : System) :
  Zinv (world sys) → Forall (task_G Zinv GZ okZ) (pending sys) →
  GZ (world sys) (world (run es sys)).
Proof.
  intros Hz Hp.
  refine (proj1 (run_G Zinv GZ okZ GZ_refl GZ_trans
                   _ _ _ _ _ es sys Hz Hp)).
  - intros w0 w1 Hz0 HG. by destruct (HG Hz0).
  - apply invoke_Z.
  - apply deliver_Z.
  - intros f w _ _. by apply GZ_frame.
  - intros w1 q r (Z1 & _) Hf ->.
    unfold ready_view, starting_view in Z1. injection Z1 as _ _ Hr _.
    destruct r as [[]|]; cbn in Hf; congruence.
Qed.

(** The startup, resumed when the manager is ready, in the attach
    failure. *)
Lemma attach_failure_Z (w : World) (model : Session.IModel) (err : JsError) :
  ready_view w = fresh_view →
  List.find (λ item, String.eqb (Session.path item) (_path (this w)))
            (running (services w)) = Some model →
  connectTo_throws (services w) = Some err →
  ∃ k, invoke CallInitialize w =
         Susp (with_this (set_initializing true) w) ManagerReady k ∧
    JZ (with_this (set_initializing true) w)
       (k (Resolved VUndefined) (with_this (set_initializing true) w)).
Proof.
  intros Hv Hfind Hthrows. pose proof Hv as Hv'.
  unfold ready_view, fresh_view in Hv'. injection Hv' as Hi Hr Hp Ht.
  unfold invoke, returning, initialize. run. rewrite Hi, Hr. cbn.
  eexists. split; [reflexivity|]. cbn. rewrite Hfind. cbn.
  unfold connectTo. run. rewrite Hthrows. cbn.
  unfold _handleSessionError.
  destruct err; run; try zleaf.
  apply (JG_fork Zinv GZ okZ); [|zleaf].
  intros r w' _ _. destruct r as [v|e]; cbn; [|zleaf].
  apply (JG_fork Zinv GZ okZ); [|zleaf].
  intros r' w'' _ _. destruct r'; cbn; zleaf.
Qed.

(** X17.  When the attach fails in the first [initialize()], the context is
    left for good without a session: whatever is called and whatever
    happens afterwards, no session is attached, no kernel is asked for, no
    selection dialog opens; and what the context displays is "Kernel" and
    "initializing", or "No Kernel!" and the empty status once starting is
    disabled in the preference. *)
Theorem attach_failure_is_final (path name type : option string)
    (preference : option ISessionContext.IKernelPreference)
    (setBusy : option (nat → bool)) (uuid : string) (e : Services)
    (model : Session.IModel) (err : JsError) (es : list Event)
    (connectionStatus : KernelConnection.t → string) :
  let c := new_SessionContext path name type preference setBusy uuid in
  List.find (λ item, String.eqb (Session.path item) (_path c))
            (running e) = Some model →
  connectTo_throws e = Some err →
  let w := world (run (Invoke CallInitialize ::
                       Settle 0 (Resolved VUndefined) :: es) (boot c e)) in
  let may_start :=
    negb (Js.is_false (ISessionContext.canStart
                         (_kernelPreference (this w))))
    && negb (Js.is_false (ISessionContext.shouldStart
                            (_kernelPreference (this w)))) in
  _session (this w) = None ∧ slots w = [] ∧
  filter live (trace w) = [] ∧
  kernelDisplayName w = (if may_start then "Kernel" else "No Kernel!") ∧
  kernelDisplayStatus connectionStatus w =
    (if may_start then "initializing" else "").
Proof.
  intros c Hfind Hthrows w may_start.
  destruct (attach_failure_Z (world (boot c e)) model err)
    as (k & Hk & HJ); [done|done|done|].
  set (w1 := with_this (set_initializing true) (world (boot c e))) in *.
  set (st := k (Resolved VUndefined) w1) in *.
  set (sys1 := {| world := w1; pending := []; settled := [];
                  next_task := 1 |}).
  assert (w = world (run es (install 0 true st sys1))) as Hw.
  { subst w. unfold run. cbn [fold_left step].
    change (world (boot c e)) with (world (boot c e)). rewrite Hk.
    cbn. done. }
  assert (Zinv w1) as Hz1 by done.
  destruct (install_G Zinv GZ okZ GZ_refl GZ_trans st 0 true sys1 w1 HJ)
    as [HG1 Hp1]; [by apply Forall_nil|].
  destruct (HG1 Hz1) as [Hz2 Hl2].
  destruct (run_Z es _ Hz2 Hp1 Hz2) as [(Z1 & Z2 & Z3) Hl3].
  rewrite <- Hw in Z1, Z2, Z3, Hl3.
  unfold ready_view, starting_view in Z1. injection Z1 as _ Hr _ _.
  split_and!; [done|done|by rewrite Hl3, Hl2| |].
  - unfold kernelDisplayName. rewrite Z2, Hr. cbn. done.
  - unfold kernelDisplayStatus. rewrite Z2, Hr. cbn.
    by destruct (_ && _).
Qed.

Lemma attach_failure_is_final_witness :
  kernelDisplayName
    (world (run [Invoke CallInitialize; Settle 0 (Resolved VUndefined);
                 Invoke CallSelectKernel]
              (boot (Example.context0 (Example.by_name "python3"))
                    Example.unreachable))) = "Kernel".
Proof.
  exact (proj1 (proj2 (proj2 (proj2
    (attach_failure_is_final (Some "a.ipynb") None (Some "notebook")
       (Some (Example.by_name "python3")) (Some Example.leases) "uuid"
       Example.unreachable
       Example.notebook Example.refused [Invoke CallSelectKernel]
       (λ _, "connected") eq_refl eq_refl))))).
Defined.

(** ** Without a [setBusy] option *)

Lemma J_rely {Phase A : Type}
    (G : Phase → World → Phase → World → Prop) susp_ok
    (rely rely' : Phase → World → Request → Response → World → Prop)
    next detached fork_ok
    (fork_rely fork_rely' : Request → Response → World → Prop)
    (p0 : Phase) (w0 : World) (st : Step A) Q :
  (∀ p w q r w', rely' p w q r w' → rely p w q r w') →
  (∀ q r w', fork_rely' q r w' → fork_rely q r w') →
  J G susp_ok rely next detached fork_ok fork_rely p0 w0 st Q →
  J G susp_ok rely' next detached fork_ok fork_rely' p0 w0 st Q.
Proof.
  intros Hr Hf. revert A p0 w0 st Q.
  refine (fix IH A p0 w0 st Q {struct st} := _).
  destruct st as [w r|w q k|q k rest]; simpl.
  - done.
  - intros (p & ? & ? & Hk). exists p. split; [done|]. split; [done|].
    intros r w' Hr'. apply IH, Hk, Hr, Hr'.
  - intros [[? Hk] Hrest]. split; [split; [done|]|].
    + intros r w' Hr'. apply IH, Hk, Hf, Hr'.
    + apply IH, Hrest.
Qed.

(** What keeps the view of the busy lease keeps any guarantee that
    follows from that. *)
Lemma JB_JG (G : World → World → Prop) {A} (w : World) (st : Step A) :
  (∀ w0 w1, GB false tt w0 tt w1 → G w0 w1) →
  JB false w st T → JG (λ _, True) G (λ _ _ _, True) w st.
Proof.
  intros HG H. unfold JG, JB in *.
  eapply J_conseq; [|eapply J_rely; [| |eapply J_weaken; [|exact H]]].
  - done.
  - by intros.
  - by intros.
  - intros [] w0 [] w1. apply HG.
Qed.

Lemma NoLease_view (w0 w : World) :
  busy_view w = busy_view w0 → NoLease w0 → NoLease w.
Proof.
  unfold busy_view. intros [= Ht Hl Hd Hs] (N1 & N2 & N3).
  split_and!; [congruence|congruence|].
  assert (∀ t : list Effect,
    filter is_lease (filter busy_relevant t) = filter is_lease t) as Hff.
  { induction t as [|x t IH]; [done|].
    rewrite (filter_cons busy_relevant).
    destruct (decide (busy_relevant x)) as [Hb|Hb].
    - rewrite !filter_cons. by rewrite IH.
    - rewrite (filter_cons is_lease x t).
      destruct (decide (is_lease x)) as [Hx|Hx]; [|done].
      exfalso. apply Hb. by destruct x. }
  by rewrite <- Hff, Ht, Hff.
Qed.

Lemma GL_GB (w0 w1 : World) : GB false tt w0 tt w1 → GL w0 w1.
Proof. intros (Hb & _) HN. by eapply NoLease_view. Qed.

Lemma GL_trans (w1 w2 w3 : World) : GL w1 w2 → GL w2 w3 → GL w1 w3.
Proof. unfold GL. auto. Qed.

Lemma dispose_L (w : World) :
  JG (λ _, True) GL (λ _ _ _, True) w (dispose w).
Proof.
  assert (∀ w1 : World,
    _setBusy (this w1) = _setBusy (this w) →
    _busyDisposable (this w) = None →
    _busyDisposable (this w1) = None →
    filter is_lease (trace w1) = filter is_lease (trace w) → GL w w1) as Hf.
  { intros w1 H1 H2 H3 H4 (N1 & N2 & N3). split_and!; congruence. }
  unfold dispose, session_dispose, clearData. run.
  destruct (_isDisposed (this w)) eqn:Hd; cbn.
  { apply (JG_done (λ _, True) GL (λ _ _ _, True)). by intros ?. }
  destruct (_busyDisposable (this w)) as [lease|] eqn:Eb.
  { (* a lease is held: not the case at hand *)
    assert (∀ w1, GL w w1) as Hany.
    { intros w1 (_ & N2 & _). congruence. }
    destruct (_session (this w)) as [s|] eqn:Es; cbn;
      [destruct (Js.truthy_bool _); cbn|];
      destruct (_dialog (this w)) eqn:Ed; cbn;
      rewrite ?Hd, ?Es, ?Ed, ?Eb; cbn.
    all: try (apply (JG_done (λ _, True) GL (λ _ _ _, True)); apply Hany).
    all: apply (JG_fork (λ _, True) GL (λ _ _ _, True));
      [|apply (JG_done (λ _, True) GL (λ _ _ _, True)); apply Hany].
    all: intros r w' _ _; destruct r; cbn;
      apply (JG_done (λ _, True) GL (λ _ _ _, True)); intros HN;
      (eapply NoLease_view; [|exact HN]); busy. }
  destruct (_session (this w)) as [s|] eqn:Es; cbn;
    [destruct (Js.truthy_bool _); cbn|];
    destruct (_dialog (this w)) eqn:Ed; cbn;
    rewrite ?Hd, ?Es, ?Ed, ?Eb; cbn.
  all: try (apply (JG_done (λ _, True) GL (λ _ _ _, True));
            apply Hf; try done; cbn; rewrite ?filter_app; cbn;
            by rewrite ?app_nil_r).
  all: apply (JG_fork (λ _, True) GL (λ _ _ _, True));
    [|apply (JG_done (λ _, True) GL (λ _ _ _, True));
      apply Hf; try done; cbn; rewrite ?filter_app; cbn;
      by rewrite ?app_nil_r].
  all: intros r w' _ _; destruct r; cbn;
    apply (JG_done (λ _, True) GL (λ _ _ _, True)); intros HN;
    (eapply NoLease_view; [|exact HN]); busy.
Qed.

Lemma invoke_L (c : Call) (w : World) :
  JG (λ _, True) GL (λ _ _ _, True) w (invoke c w).
Proof.
  assert (c = CallDispose ∨ c ≠ CallDispose) as [->|Hc]
    by (destruct c; first [by left|by right]).
  - unfold invoke, returning. run.
    apply (JG_bind (λ _, True) GL (λ _ _ _, True) GL_trans);
      [apply dispose_L|].
    intros a w1. apply (JG_done (λ _, True) GL (λ _ _ _, True)).
    by intros ?.
  - apply JB_JG; [apply GL_GB|]. by apply invoke_B.
Qed.

Lemma deliver_L (sender : SessionConnection.t) (s : Signal) (w : World) :
  ∃ w1, deliver sender s w = Done w1 (inl tt) ∧ GL w w1.
Proof.
  rewrite deliver_unfold.
  assert (GL w (with_this (refresh sender) w)) as HG.
  { intros HN. eapply NoLease_view; [|exact HN]. unfold busy_view, refresh.
    cbn. destruct (_session (this w)); [|done]. by destruct (Nat.eqb _ _). }
  revert HG. generalize (with_this (refresh sender) w). intros wr HG.
  assert (∀ w1 : World,
    busy_view w1 = busy_view wr → GL w w1) as Hf.
  { intros w1 H1 HN. eapply NoLease_view; [exact H1|]. by apply HG. }
  unfold deliver_connected. run.
  case_bool_decide; cbn; [|by eexists].
  destruct s; cbn.
  - unfold _onSessionDisposed, session_dispose. run.
    destruct (_session (this wr)); cbn; eexists;
      (split; [reflexivity|]); apply Hf; busy.
  - unfold _onPropertyChanged. run.
    destruct p; cbn; eexists; (split; [reflexivity|]); apply Hf; busy.
  - unfold _onKernelChanged. run. eexists; (split; [reflexivity|]).
    apply Hf; busy.
  - unfold _onStatusChanged. run.
    destruct (_setBusy (this wr)) eqn:Eb; cbn.
    + assert (∀ w1, GL w w1) as Hany.
      { intros w1 HN. destruct (HG HN) as (N1 & _). congruence. }
      destruct (String.eqb status "busy"); cbn;
        destruct (_busyDisposable (this wr)); cbn;
        eexists; (split; [reflexivity|]); apply Hany.
    + eexists; (split; [reflexivity|]). intros HN.
      destruct (HG HN) as (N1 & N2 & N3). split_and!; [done|done|].
      cbn. rewrite filter_app. cbn. by rewrite N3.
  - unfold _onConnectionStatusChanged. run.
    eexists; (split; [reflexivity|]). apply Hf; busy.
  - unfold _onIopubMessage. run. eexists; (split; [reflexivity|]).
    apply Hf; busy.
  - unfold _onUnhandledMessage. run. eexists; (split; [reflexivity|]).
    apply Hf; busy.
Qed.

Lemma run_L (es : list Event) (sys : System) :
  Forall (task_G (λ _, True) GL (λ _ _ _, True)) (pending sys) →
  GL (world sys) (world (run es sys)).
Proof.
  intros Hp.
  refine (proj1 (run_G (λ _, True) GL (λ _ _ _, True)
                   _ GL_trans _ _ _ _ _ es sys I Hp)).
  - by intros w ?.
  - done.
  - intros c w _. apply invoke_L.
  - intros sender s w _. apply deliver_L.
  - intros f w _ _ HN. eapply NoLease_view; [|exact HN]. done.
  - done.
Qed.

(** X18.  Without a [setBusy] factory the context never takes a busy lease:
    after any events none is held, none was asked for and none was
    disposed. *)
Theorem no_factory_no_lease (path name type : option string)
    (preference : option ISessionContext.IKernelPreference)
    (uuid : string) (e : Services) (es : list Event) :
  let w := world (started path name type preference None uuid e es) in
  _busyDisposable (this w) = None ∧
  (∀ lease, SetBusy lease ∉ trace w) ∧ (∀ l, LeaseDispose l ∉ trace w).
Proof.
  intros w.
  assert (NoLease w) as (_ & N2 & N3).
  { apply (run_L es (boot (new_SessionContext path name type preference
                             None uuid) e)); [by apply Forall_nil|].
    by split_and!. }
  split; [done|]. split; intros l Hin.
  - assert (SetBusy l ∈ filter is_lease (trace w)) as Hx
      by (by apply list_elem_of_filter).
    rewrite N3 in Hx. by apply elem_of_nil in Hx.
  - assert (LeaseDispose l ∈ filter is_lease (trace w)) as Hx
      by (by apply list_elem_of_filter).
    rewrite N3 in Hx. by apply elem_of_nil in Hx.
Qed.

(** ** The busy lease and the statuses the context is told of *)

Lemma statuses_filter (t : list Effect) :
  omap status_of (filter busy_relevant t) = omap status_of t.
Proof.
  induction t as [|x t IH]; [done|].
  rewrite filter_cons. destruct (decide (busy_relevant x)) as [Hx|Hx]; cbn.
  - by rewrite IH.
  - rewrite IH. destruct x as [[]| | | | | | | | | | |]; try done.
    all: cbn in Hx; by destruct Hx.
Qed.

Lemma GS_statuses (w0 w : World) :
  GS w0 w →
  omap status_of (trace w) = omap status_of (trace w0) ∧
  _isDisposed (this w) = _isDisposed (this w0).
Proof.
  unfold GS, busy_view. intros [= Ht _ Hd _]. split; [|done].
  by rewrite <- (statuses_filter (trace w)), Ht, statuses_filter.
Qed.

Lemma GS_trans (w1 w2 w3 : World) : GS w1 w2 → GS w2 w3 → GS w1 w3.
Proof. unfold GS. congruence. Qed.

Lemma dispose_S (w : World) :
  JG (λ _, True) GS (λ _ _ _, True) (landing (dispose w)) (dispose w) ∧
  omap status_of (trace (landing (dispose w))) = omap status_of (trace w) ∧
  _isDisposed (this (landing (dispose w))) = true.
Proof.
  unfold dispose, session_dispose, clearData. run.
  destruct (_isDisposed (this w)) eqn:Hd; cbn.
  { split; [|done]. by apply (JG_done (λ _, True) GS (λ _ _ _, True)). }
  destruct (_session (this w)) as [s|] eqn:Es; cbn;
    [destruct (Js.truthy_bool _); cbn|];
    destruct (_dialog (this w)) eqn:Ed; cbn;
    destruct (_busyDisposable (this w)) as [lease|] eqn:Eb; cbn;
    rewrite ?Hd, ?Es, ?Ed, ?Eb; cbn.
  all: (split; [|split; [by rewrite ?omap_app; cbn; rewrite ?app_nil_r|done]]).
  all: try by apply (JG_done (λ _, True) GS (λ _ _ _, True)).
  all: apply (JG_fork (λ _, True) GS (λ _ _ _, True));
    [|by apply (JG_done (λ _, True) GS (λ _ _ _, True))].
  all: intros r w' _ _; destruct r; cbn;
    apply (JG_done (λ _, True) GS (λ _ _ _, True)); unfold GS; busy.
Qed.

Lemma deliver_S (sender : SessionConnection.t) (s : Signal) (sys : System) :
  ∃ w1, deliver sender s (world sys) = Done w1 (inl tt) ∧
    omap status_of (trace w1) =
      omap status_of (trace (world sys)) ++ told (Signalled sender s) sys ∧
    _isDisposed (this w1) = _isDisposed (this (world sys)).
Proof.
  rewrite deliver_unfold. unfold told.
  set (w := world sys).
  assert (trace (with_this (refresh sender) w) = trace w ∧
          slots (with_this (refresh sender) w) = slots w ∧
          _isDisposed (this (with_this (refresh sender) w)) =
            _isDisposed (this w)) as (Ht & Hs & Hd).
  { unfold refresh. cbn. destruct (_session (this w)); [|done].
    by destruct (Nat.eqb _ _). }
  rewrite <- Ht, <- Hs, <- Hd. generalize (with_this (refresh sender) w).
  clear. intros w. unfold deliver_connected. run.
  case_bool_decide as Hin; cbn.
  2:{ eexists. split; [reflexivity|]. split; [|done].
      destruct s; cbn in Hin; rewrite ?bool_decide_eq_false_2 by done;
        by rewrite app_nil_r. }
  destruct s; cbn in Hin; rewrite ?bool_decide_eq_true_2 by done; cbn.
  - unfold _onSessionDisposed, session_dispose. run.
    destruct (_session (this w)); cbn; eexists; (split; [reflexivity|]);
      cbn; rewrite ?omap_app; cbn; by rewrite ?app_nil_r.
  - unfold _onPropertyChanged. run.
    destruct p; cbn; eexists; (split; [reflexivity|]);
      cbn; rewrite ?omap_app; cbn; by rewrite ?app_nil_r.
  - unfold _onKernelChanged. run. eexists; (split; [reflexivity|]).
    cbn. rewrite ?omap_app. cbn. by rewrite ?app_nil_r.
  - unfold _onStatusChanged. run.
    destruct (_setBusy (this w)) as [setBusy|]; cbn;
      [destruct (String.eqb status "busy"); cbn;
       destruct (_busyDisposable (this w)); cbn|];
      eexists; (split; [reflexivity|]); cbn;
      rewrite ?omap_app; cbn; by rewrite ?app_nil_r.
  - unfold _onConnectionStatusChanged. run.
    eexists; (split; [reflexivity|]). cbn. by rewrite ?omap_app.
  - unfold _onIopubMessage. run. eexists; (split; [reflexivity|]).
    cbn. rewrite ?omap_app. cbn. by rewrite ?app_nil_r.
  - unfold _onUnhandledMessage. run. eexists; (split; [reflexivity|]).
    cbn. rewrite ?omap_app. cbn. by rewrite ?app_nil_r.
Qed.

Lemma step_S (sys : System) (e : Event) :
  Forall (task_G (λ _, True) GS (λ _ _ _, True)) (pending sys) →
  Forall (task_G (λ _, True) GS (λ _ _ _, True)) (pending (step sys e)) ∧
  omap status_of (trace (world (step sys e))) =
    omap status_of (trace (world sys)) ++ told e sys ∧
  _isDisposed (this (world (step sys e))) =
    _isDisposed (this (world sys)) || is_dispose e.
Proof.
  intros Hp.
  assert (∀ id caller st sys0 w0,
    JG (λ _, True) GS (λ _ _ _, True) w0 st →
    Forall (task_G (λ _, True) GS (λ _ _ _, True)) (pending sys0) →
    Forall (task_G (λ _, True) GS (λ _ _ _, True))
      (pending (install id caller st sys0)) ∧
    omap status_of (trace (world (install id caller st sys0))) =
      omap status_of (trace w0) ∧
    _isDisposed (this (world (install id caller st sys0))) =
      _isDisposed (this w0)) as Hinst.
  { intros id caller st sys0 w0 HJ Hp0.
    destruct (install_G (λ _, True) GS (λ _ _ _, True)
                (λ w, eq_refl) GS_trans st id caller sys0 w0 HJ Hp0)
      as [HG Hp1].
    split; [done|]. by apply GS_statuses. }
  destruct e as [c|id r|sender s|l|sp|err|k|b]; cbn [step told is_dispose].
  - assert (c = CallDispose ∨ c ≠ CallDispose) as [->|Hc]
      by (destruct c; first [by left|by right]).
    + destruct (dispose_S (world sys)) as (HJ & Ht & Hd).
      destruct (Hinst (next_task sys) true
        (invoke CallDispose (world sys)) (bump sys)
        (landing (dispose (world sys)))) as (H1 & H2 & H3); [|done|].
      { apply (JG_returning (λ _, True) GS (λ _ _ _, True)
                 (λ w, eq_refl) GS_trans). exact HJ. }
      split; [done|]. rewrite H2, H3, Ht, Hd, app_nil_r.
      by rewrite orb_true_r.
    + destruct (Hinst (next_task sys) true (invoke c (world sys))
        (bump sys) (world sys)) as (H1 & H2 & H3); [|done|].
      { apply JB_JG; [by intros w0 w1 (? & _)|]. by apply invoke_B. }
      split; [done|]. rewrite H2, H3, app_nil_r. split; [done|].
      destruct c; try done; by rewrite orb_false_r.
  - destruct (take id (pending sys)) as [[t rest]|] eqn:Et;
      [|by rewrite app_nil_r, orb_false_r].
    destruct (fits _ _ _) eqn:Hf; [|by rewrite app_nil_r, orb_false_r].
    apply take_Some in Et as [Ht Hsub]. rewrite Forall_forall in Hp.
    destruct (Hinst id (task_caller t) (task_resume t r (world sys))
      (set_pending rest sys) (world sys)) as (H1 & H2 & H3).
    { by apply (Hp t Ht). }
    { cbn. apply Forall_forall. intros x Hx. by apply Hp, Hsub. }
    split; [done|]. by rewrite H2, H3, app_nil_r, orb_false_r.
  - destruct (deliver_S sender s sys) as (w1 & Hd & Ht & Hdisp).
    unfold returning. unfold mbind, Async_bind. rewrite Hd. cbn.
    split; [done|]. split; [exact Ht|]. by rewrite Hdisp, orb_false_r.
  - cbn. by rewrite app_nil_r, orb_false_r.
  - cbn. by rewrite app_nil_r, orb_false_r.
  - cbn. by rewrite app_nil_r, orb_false_r.
  - cbn. by rewrite app_nil_r, orb_false_r.
  - cbn. by rewrite app_nil_r, orb_false_r.
Qed.

Lemma run_S (es : list Event) :
  ∀ sys, Forall (task_G (λ _, True) GS (λ _ _ _, True)) (pending sys) →
  omap status_of (trace (world (run es sys))) =
    omap status_of (trace (world sys)) ++ observed es sys ∧
  _isDisposed (this (world (run es sys))) =
    _isDisposed (this (world sys)) || existsb is_dispose es.
Proof.
  induction es as [|e es IH]; intros sys Hp.
  - cbn. by rewrite app_nil_r, orb_false_r.
  - change (run (e :: es) sys) with (run es (step sys e)).
    destruct (step_S sys e Hp) as (Hp1 & Ht1 & Hd1).
    destruct (IH _ Hp1) as [Ht2 Hd2].
    rewrite Ht2, Hd2, Ht1, Hd1. cbn [observed existsb].
    by rewrite <- app_assoc, orb_assoc.
Qed.

Lemma no_dispose (es : list Event) :
  existsb is_dispose es = false ↔ Invoke CallDispose ∉ es.
Proof.
  induction es as [|e es IH]; cbn.
  - split; [|done]. by intros _ ?%elem_of_nil.
  - rewrite orb_false_iff, IH, not_elem_of_cons. split.
    + intros [He ?]. split; [|done]. intros <-. discriminate He.
    + intros [He ?]. split; [|done].
      by destruct e as [[]| | | | | | |].
Qed.

Lemma boot_pool (c : SessionContext) (e : Services) G :
  Forall (task_G (λ _, True) G (λ _ _ _, True)) (pending (boot c e)).
Proof. by apply Forall_nil. Qed.

(** C7 (amended).  For a context made with a [setBusy] factory, after any
    events (calls of any method, promises settled, signals of any session
    connection, changes of the services), where the statuses the context
    observes are those the session connections signal while their
    [statusChanged] signal is connected to the context:
    - a busy lease is held only if the last status observed is [busy] and
      [dispose()] has not been called;
    - if the factory returns a disposable at every call, a lease is held
      whenever the last status observed is [busy] and [dispose()] has not
      been called;
    - every lease the factory returned has been disposed exactly once,
      except the one held, which has not been disposed;
    - no lease is taken twice, and at most one lease is outstanding;
    - the context is disposed exactly when [dispose()] has been called. *)
Theorem busy_lease_tracks_status (path name type : option string)
    (preference : option ISessionContext.IKernelPreference)
    (setBusy : nat → bool) (uuid : string) (e : Services)
    (es : list Event) :
  let sys0 :=
    boot (new_SessionContext path name type preference (Some setBusy) uuid)
      e in
  let w := world (run es sys0) in
  (is_Some (_busyDisposable (this w)) →
     last (observed es sys0) = Some "busy" ∧ Invoke CallDispose ∉ es) ∧
  ((∀ n, setBusy n = true) →
     last (observed es sys0) = Some "busy" → Invoke CallDispose ∉ es →
     is_Some (_busyDisposable (this w))) ∧
  (∀ l, occurrences (SetBusy (Some l)) (trace w) =
        occurrences (LeaseDispose l) (trace w) + held w l) ∧
  (∀ l, (occurrences (SetBusy (Some l)) (trace w) ≤ 1)%nat) ∧
  (∀ l1 l2,
     (occurrences (LeaseDispose l1) (trace w) <
        occurrences (SetBusy (Some l1)) (trace w))%nat →
     (occurrences (LeaseDispose l2) (trace w) <
        occurrences (SetBusy (Some l2)) (trace w))%nat →
     l1 = l2) ∧
  (_isDisposed (this w) = false ↔ Invoke CallDispose ∉ es).
Proof.
  intros sys0 w.
  destruct (started_I path name type preference (Some setBusy) uuid e es)
    as ([_ ([L1 L1'] & L2 & L3 & L4 & L5)] & Hb & _).
  destruct (run_S es sys0 (boot_pool _ _ _)) as [Hst Hdisp].
  change (world (started path name type preference (Some setBusy) uuid e es))
    with w in L1, L1', L2, L3, L4, L5, Hb.
  fold w in Hst, Hdisp. cbn in Hst, Hdisp.
  assert (last_status (trace w) = last (observed es sys0)) as Hlast.
  { unfold last_status. by rewrite Hst. }
  assert (_isDisposed (this w) = false ↔ Invoke CallDispose ∉ es) as Hnd.
  { by rewrite Hdisp, no_dispose. }
  split_and!; [| |done|done| |done].
  - intros Hheld. destruct (L1 Hheld) as (_ & Hl & Hd).
    rewrite <- Hlast. split; [done|]. by apply Hnd.
  - intros Hall Hl Hd. apply L1'.
    + intros f n Hf. rewrite Hb in Hf. injection Hf as <-. apply Hall.
    + by rewrite Hb.
    + by rewrite Hlast.
    + by apply Hnd.
  - intros l1 l2 H1 H2. rewrite L2 in H1, H2. unfold held in *.
    repeat case_decide; try lia. congruence.
Qed.

Lemma busy_lease_tracks_status_witness :
  let sys0 := boot (Example.context0 (Example.by_name "python3"))
                   Example.services0 in
  let w := world (run Example.busy_kernel sys0) in
  last (observed Example.busy_kernel sys0) = Some "busy" ∧
  is_Some (_busyDisposable (this w)).
Proof.
  intros sys0 w. split; [reflexivity|].
  apply (proj1 (proj2 (busy_lease_tracks_status (Some "a.ipynb") None
    (Some "notebook") (Some (Example.by_name "python3")) Example.leases
    "uuid" Example.services0 Example.busy_kernel))).
  - reflexivity.
  - reflexivity.
  - by apply no_dispose.
Defined.

(** C7, as stated, fails for a factory that returns [undefined]: the
    kernel of the attached session reports [busy], the context is not
    disposed, the factory has been called, and no lease is held. *)
Lemma busy_without_lease :
  let sys0 :=
    boot (new_SessionContext (Some "a.ipynb") None (Some "notebook")
            (Some (Example.by_name "python3")) (Some Example.no_lease)
            "uuid")
         Example.services0 in
  let w := world (run Example.busy_kernel sys0) in
  last (observed Example.busy_kernel sys0) = Some "busy" ∧
  (Invoke CallDispose ∉ Example.busy_kernel) ∧
  _isDisposed (this w) = false ∧
  occurrences (SetBusy None) (trace w) = 1 ∧
  _busyDisposable (this w) = None.
Proof.
  split_and!; [by vm_compute| |by vm_compute..].
  by apply no_dispose.
Qed.
